(** * sf2-contents: a shallow embedding of the SoundFont2 structural decoder

    The development follows [sf2-contents.py]: the record classes and their
    [struct] layouts, [ChunkParser], the INFO list decoder, the file walker
    [parse_file], the hierarchy resolver [process] and the generator amount
    renderer [unpack_amount].

    Conventions.
    - Python integers are [Z]; bytes are [Byte.byte]; a Python [str] is the
      list of its Unicode code points ([str]).
    - Raising an exception is the [Raise] branch of [result]; [sys.exit(n)]
      raises [SystemExit n].
    - [struct.unpack] with the native prefix (formats ["II"], ["III"],
      ["IIIIII"]) is read on a little-endian host, where these formats have
      no padding; this is also what [chunk_id] assumes when it builds the
      expected tag number. *)

From Stdlib Require Import ZArith List Lia.
From Stdlib Require Import Strings.Byte Strings.String Strings.Ascii DecimalString.
From stdpp Require Import base numbers list gmap strings sorting.

Open Scope Z_scope.

(** ** Exceptions and results *)

Inductive exn : Type :=
| StructError
| UnicodeDecodeError
| IndexError
| KeyError
| TypeError
| ZeroDivisionError
| OSError
| SystemExit (code : Z).

Inductive result (A : Type) : Type :=
| Ok (a : A)
| Raise (e : exn).

Arguments Ok {A} a.
Arguments Raise {A} e.

#[global] Instance result_ret : MRet result := @Ok.
#[global] Instance result_bind : MBind result :=
  λ A B f m, match m with Ok a => f a | Raise e => Raise e end.

(** A [for] loop whose body may raise: the accumulator is threaded through
    the iterations and the first exception ends the loop. *)
Fixpoint foldM {A B : Type} (f : B → A → result B) (b : B) (l : list A) : result B :=
  match l with
  | [] => Ok b
  | x :: l' => b' ← f b x; foldM f b' l'
  end.

Fixpoint mapM_result {A B : Type} (f : A → result B) (l : list A) : result (list B) :=
  match l with
  | [] => Ok []
  | x :: l' => y ← f x; ys ← mapM_result f l'; Ok (y :: ys)
  end.

(** ** Python sequences *)

Definition py_len {A : Type} (l : list A) : Z := Z.of_nat (length l).

(** Slice bounds as Python normalises them: a negative bound counts from
    the end, and every bound is clamped to [0, len]. *)
Definition clamp (n i : Z) : Z :=
  if i <? 0 then Z.max 0 (n + i) else Z.min i n.

Definition py_slice {A : Type} (l : list A) (a b : Z) : list A :=
  let a' := clamp (py_len l) a in
  let b' := clamp (py_len l) b in
  take (Z.to_nat (b' - a')) (drop (Z.to_nat a') l).

(** [l[i]]: a negative index counts from the end; out of range raises. *)
Definition py_index {A : Type} (l : list A) (i : Z) : result A :=
  let j := if i <? 0 then py_len l + i else i in
  if j <? 0 then Raise IndexError
  else match l !! Z.to_nat j with
       | Some x => Ok x
       | None => Raise IndexError
       end.

(** [range(a, b)] *)
Definition py_range (a b : Z) : list Z := seqZ a (b - a).

(** ** Python strings *)

Definition str : Type := list Z.

Definition chr (b : Z) : Z := b.

Definition ord (a : ascii) : Z := Z.of_N (N_of_ascii a).

(** A string literal of the program, as a [str]. *)
Fixpoint lit (s : string) : str :=
  match s with
  | EmptyString => []
  | String a s' => ord a :: lit s'
  end.

(** [f"{n}"] for an integer [n]. *)
Definition fmt_int (n : Z) : str := lit (NilZero.string_of_int (Z.to_int n)).

Fixpoint lstrip (c : Z) (s : str) : str :=
  match s with
  | [] => []
  | x :: s' => if decide (x = c) then lstrip c s' else s
  end.

Definition rstrip (c : Z) (s : str) : str := rev (lstrip c (rev s)).

(** [s.strip(c)] for a one-character [c]: the character is removed at both
    ends of the string. *)
Definition strip (c : Z) (s : str) : str := rstrip c (lstrip c s).

(** ** Bytes and [bytes.decode("utf-8")] *)

Definition byte_val (b : byte) : Z := Z.of_N (Byte.to_N b).

Definition is_cont (b : Z) : bool := (128 <=? b) && (b <? 192).

Definition in_range (lo hi b : Z) : bool := (lo <=? b) && (b <=? hi).

(** Strict UTF-8: shortest forms only, no surrogates, nothing above
    U+10FFFF; any other byte sequence raises [UnicodeDecodeError]. *)
Fixpoint decode_utf8_vals (bs : list Z) : result str :=
  match bs with
  | [] => Ok []
  | b0 :: t0 =>
    if b0 <? 128 then
      s ← decode_utf8_vals t0; Ok (b0 :: s)
    else if in_range 194 223 b0 then
      match t0 with
      | b1 :: t1 =>
        if is_cont b1 then
          s ← decode_utf8_vals t1;
          Ok (((b0 - 192) * 64 + (b1 - 128)) :: s)
        else Raise UnicodeDecodeError
      | _ => Raise UnicodeDecodeError
      end
    else if in_range 224 239 b0 then
      match t0 with
      | b1 :: b2 :: t2 =>
        if (if b0 =? 224 then in_range 160 191 b1
            else if b0 =? 237 then in_range 128 159 b1
            else is_cont b1) && is_cont b2 then
          s ← decode_utf8_vals t2;
          Ok (((b0 - 224) * 4096 + (b1 - 128) * 64 + (b2 - 128)) :: s)
        else Raise UnicodeDecodeError
      | _ => Raise UnicodeDecodeError
      end
    else if in_range 240 244 b0 then
      match t0 with
      | b1 :: b2 :: b3 :: t3 =>
        if (if b0 =? 240 then in_range 144 191 b1
            else if b0 =? 244 then in_range 128 143 b1
            else is_cont b1) && is_cont b2 && is_cont b3 then
          s ← decode_utf8_vals t3;
          Ok (((b0 - 240) * 262144 + (b1 - 128) * 4096
               + (b2 - 128) * 64 + (b3 - 128)) :: s)
        else Raise UnicodeDecodeError
      | _ => Raise UnicodeDecodeError
      end
    else Raise UnicodeDecodeError
  end.

Definition decode_utf8 (bs : list byte) : result str :=
  decode_utf8_vals (map byte_val bs).

(** ** [struct]: formats, [calcsize] and [unpack] *)

(** The format characters the program uses: [ns] (a byte string of [n]
    bytes), [B], [b], [H] and [I]. *)
Inductive fmt_item : Type :=
| Fs (n : nat)
| FB
| Fb
| FH
| FI.

Definition item_size (f : fmt_item) : nat :=
  match f with
  | Fs n => n
  | FB | Fb => 1
  | FH => 2
  | FI => 4
  end.

Definition calcsize (fmt : list fmt_item) : Z :=
  Z.of_nat (sum_list (map item_size fmt)).

Inductive value : Type :=
| VBytes (bs : list byte)
| VInt (z : Z).

Fixpoint le_uint (bs : list byte) : Z :=
  match bs with
  | [] => 0
  | b :: t => byte_val b + 256 * le_uint t
  end.

Definition le_sint (bs : list byte) : Z :=
  let m := 2 ^ (8 * py_len bs) in
  if le_uint bs <? m / 2 then le_uint bs else le_uint bs - m.

Definition unpack_item (f : fmt_item) (bs : list byte) : value :=
  match f with
  | Fs _ => VBytes bs
  | Fb => VInt (le_sint bs)
  | FB | FH | FI => VInt (le_uint bs)
  end.

Fixpoint unpack_items (fmt : list fmt_item) (bs : list byte) : list value :=
  match fmt with
  | [] => []
  | f :: fmt' =>
    unpack_item f (take (item_size f) bs)
      :: unpack_items fmt' (drop (item_size f) bs)
  end.

(** [struct.unpack(fmt, bs)]: the buffer must have exactly [calcsize fmt]
    bytes. *)
Definition struct_unpack (fmt : list fmt_item) (bs : list byte) : result (list value) :=
  if decide (py_len bs = calcsize fmt) then Ok (unpack_items fmt bs)
  else Raise StructError.

(** ** The record classes *)

Record PHDRRecord : Type := {
  preset_name : str;
  preset : Z;
  bank : Z;
  bag_ndx : Z
}.

Record XBAGRecord : Type := {
  gen_ndx : Z;
  mod_ndx : Z
}.

Record XMODRecord : Type := {
  mod_src_oper : Z;
  mod_dest_oper : Z;
  mod_amount : Z;
  mod_arm_src_oper : Z;
  mod_trans_oper : Z
}.

Record XGENRecord : Type := {
  gen_oper : Z;
  gen_amount : Z
}.

Record INSTRecord : Type := {
  inst_name : str;
  inst_bag_ndx : Z
}.

Record SHDRRecord : Type := {
  sample_name : str;
  start : Z;
  end_ : Z;
  start_loop : Z;
  end_loop : Z;
  sample_rate : Z;
  original_pitch : Z;
  pitch_correction : Z;
  sample_link : Z;
  sample_type : Z
}.

(** A record class: its [format] attribute and its constructor applied to
    the unpacked fields ([rec_class( *fields )]). *)
Record rec_class (R : Type) : Type := {
  format : list fmt_item;
  init : list value → result R
}.

Arguments format {R} _.
Arguments init {R} _ _.

(** [name.decode("utf-8").strip(chr(0))] *)
Definition decode_name (name : list byte) : result str :=
  s ← decode_utf8 name; Ok (strip (chr 0) s).

(** [PHDRRecord.__init__] stores the name, the preset, the bank and the bag
    index; [library], [genre] and [morphology] are received and dropped. *)
Definition PHDR : rec_class PHDRRecord := {|
  format := [Fs 20; FH; FH; FH; FI; FI; FI];
  init fields :=
    match fields with
    | [VBytes name; VInt p; VInt b; VInt n; VInt _; VInt _; VInt _] =>
      s ← decode_name name;
      Ok {| preset_name := s; preset := p; bank := b; bag_ndx := n |}
    | _ => Raise TypeError
    end
|}.

Definition XBAG : rec_class XBAGRecord := {|
  format := [FH; FH];
  init fields :=
    match fields with
    | [VInt g; VInt m] => Ok {| gen_ndx := g; mod_ndx := m |}
    | _ => Raise TypeError
    end
|}.

Definition XMOD : rec_class XMODRecord := {|
  format := [FH; FH; FH; FH; FH];
  init fields :=
    match fields with
    | [VInt a; VInt b; VInt c; VInt d; VInt e] =>
      Ok {| mod_src_oper := a; mod_dest_oper := b; mod_amount := c;
            mod_arm_src_oper := d; mod_trans_oper := e |}
    | _ => Raise TypeError
    end
|}.

Definition XGEN : rec_class XGENRecord := {|
  format := [FH; FH];
  init fields :=
    match fields with
    | [VInt o; VInt a] => Ok {| gen_oper := o; gen_amount := a |}
    | _ => Raise TypeError
    end
|}.

Definition INST : rec_class INSTRecord := {|
  format := [Fs 20; FH];
  init fields :=
    match fields with
    | [VBytes name; VInt n] =>
      s ← decode_name name;
      Ok {| inst_name := s; inst_bag_ndx := n |}
    | _ => Raise TypeError
    end
|}.

Definition SHDR : rec_class SHDRRecord := {|
  format := [Fs 20; FI; FI; FI; FI; FI; FB; Fb; FH; FH];
  init fields :=
    match fields with
    | [VBytes name; VInt a; VInt b; VInt c; VInt d; VInt e; VInt f; VInt g;
       VInt h; VInt i] =>
      s ← decode_name name;
      Ok {| sample_name := s; start := a; end_ := b; start_loop := c;
            end_loop := d; sample_rate := e; original_pitch := f;
            pitch_correction := g; sample_link := h; sample_type := i |}
    | _ => Raise TypeError
    end
|}.

(** ** [ChunkParser] *)

Section ChunkParser.
Context {R : Type} (C : rec_class R).

Definition rec_size : Z := calcsize (format C).

Definition _parse_record (data : list byte) (cp : Z) : result R :=
  fields ← struct_unpack (format C) (py_slice data cp (cp + rec_size));
  init C fields.

(** One iteration of the loop of [parse]: the state is [self.records]
    and [cp]. *)
Definition parse_step (data : list byte) (st : list R * Z) (_ : Z)
    : result (list R * Z) :=
  rec ← _parse_record data st.2;
  Ok (st.1 ++ [rec], st.2 + rec_size).

(** [total_recs = int(size / self.rec_size) - 1]: the float quotient is
    truncated towards zero, which is [Z.quot] (the quotient of a 32-bit
    size by a record width is far from the precision limit of a double).
    For sizes that no chunk header can hold the float quotient rounds, and
    past the range of a double the division raises [OverflowError]: the
    properties below take the size from a chunk header (below 2^32) or
    from the length of the data. *)
Definition total_recs (size : Z) : Z := Z.quot size rec_size - 1.

(** [parse] on a fresh parser: the result is [self.records] afterwards. *)
Definition parse (data : list byte) (size : Z) : result (list R) :=
  if decide (rec_size = 0) then Raise ZeroDivisionError
  else
    st ← foldM (parse_step data) ([], 0) (py_range 0 (total_recs size));
    Ok st.1.
End ChunkParser.

(** ** Output and the file handle *)

(** The part of the outside world the program acts on: the lines printed so
    far and the position of the one open file. *)
Record world : Type := {
  stdout : list str;
  fpos : Z
}.

Definition IO (A : Type) : Type := world → result A * world.

#[global] Instance IO_ret : MRet IO := λ A a w, (Ok a, w).
#[global] Instance IO_bind : MBind IO :=
  λ A B f m w,
    match m w with
    | (Ok a, w') => f a w'
    | (Raise e, w') => (Raise e, w')
    end.

Definition lift {A : Type} (r : result A) : IO A := λ w, (r, w).

Definition raise {A : Type} (e : exn) : IO A := λ w, (Raise e, w).

Definition print (s : str) : IO unit :=
  λ w, (Ok tt, {| stdout := stdout w ++ [s]; fpos := fpos w |}).

Section File.
Variable file : list byte.

(** [open(fpath, "rb")] *)
Definition f_open : IO unit :=
  λ w, (Ok tt, {| stdout := stdout w; fpos := 0 |}).

(** [f.read(n)]: at most [n] bytes from the current position. *)
Definition f_read (n : Z) : IO (list byte) :=
  λ w,
    let rest := drop (Z.to_nat (fpos w)) file in
    let bs := if n <? 0 then rest else take (Z.to_nat n) rest in
    (Ok bs, {| stdout := stdout w; fpos := fpos w + py_len bs |}).

(** [f.seek(p, 0)] *)
Definition f_seek (p : Z) : IO unit :=
  λ w, if p <? 0 then (Raise OSError, w)
       else (Ok tt, {| stdout := stdout w; fpos := p |}).
End File.

(** ** Chunk tags *)

(** [chunk_id]: the four characters of a tag packed little-endian into one
    integer. *)
Definition chunk_id (id_str : string) : result Z :=
  foldM (λ id_ j,
           c ← py_index (list_ascii_of_string id_str) j;
           Ok (Z.lor id_ (Z.shiftl (ord c) (j * 8))))
        0 (py_range 0 4).

Definition check_id (act_id_num : Z) (exp_id_str : string) : IO bool :=
  id_num ← lift (chunk_id exp_id_str);
  if decide (act_id_num ≠ id_num) then
    _ ← print (lit "File format error: expected ID '" ++ lit exp_id_str
               ++ lit "' not found");
    mret false
  else mret true.

(** An element of an unpacked tuple, used as an integer. *)
Definition get_int (vs : list value) (i : Z) : result Z :=
  v ← py_index vs i;
  match v with
  | VInt z => Ok z
  | VBytes _ => Raise TypeError
  end.

(** [data[j]] on a [bytes] object. *)
Definition byte_at (data : list byte) (j : Z) : result Z :=
  b ← py_index data j; Ok (byte_val b).

(** ** The INFO list *)

(** [parse_sub_chunk]: [None] stands for the pair [(None, None)] returned
    when the tag at [cp] is not the expected one. *)
Definition parse_sub_chunk (data_ : list byte) (cp : Z) (id_ : string)
    : result (option (str * Z)) :=
  header_ ← struct_unpack [FI; FI] (py_slice data_ cp (cp + 8));
  id_num ← chunk_id id_;
  h0 ← get_int header_ 0;
  if decide (h0 ≠ id_num) then Ok None
  else
    size_ ← get_int header_ 1;
    if decide (id_ ∈ ["ifil"; "iver"]%string) then
      let v := py_slice data_ (cp + 8) (cp + 8 + size_) in
      v1 ← byte_at v 1;
      v0 ← byte_at v 0;
      let maj_ver := Z.shiftl v1 8 + v0 in
      v3 ← byte_at v 3;
      v2 ← byte_at v 2;
      let min_ver := Z.shiftl v3 8 + v2 in
      Ok (Some (fmt_int maj_ver ++ lit "." ++ fmt_int min_ver, size_ + 8))
    else
      s ← foldM (λ s j, b ← byte_at data_ j; Ok (s ++ [chr b]))
                [] (py_range (cp + 8) (cp + size_ + 7));
      Ok (Some (strip (chr 0) s, size_ + 8)).

(** The catalog of INFO sub-chunks, in the order of the dictionary: tag,
    label, mandatory. *)
Definition chunks : list (string * (string * bool)) :=
  [ ("ifil", ("Version", true));
    ("isng", ("Target Sound Engine", true));
    ("INAM", ("Sound Font Bank Name", true));
    ("irom", ("ROM", false));
    ("iver", ("ROM Revision", false));
    ("ICRD", ("Date of Creation of the Bank", false));
    ("IENG", ("Sound Designers and Engineers for the Bank", false));
    ("IPRD", ("Product for which the Bank was intended", false));
    ("ICOP", ("Copyright", false));
    ("ICMT", ("Comments", false));
    ("ISFT", ("SoundFont tools used to create and alter the bank", false))
  ]%string.

Definition info_list : Type := list (string * str).

(** The loop of [parse_info_list_chunk] over the remaining catalog, with
    the list built so far and the current position. The result [None] is
    the bare [return] taken when a mandatory sub-chunk is not found. *)
Fixpoint info_loop (data : list byte) (cat : list (string * (string * bool)))
    (info : info_list) (cp : Z) : IO (option info_list) :=
  match cat with
  | [] => mret (Some info)
  | (id_, name) :: cat' =>
    r ← lift (parse_sub_chunk data cp id_);
    match r with
    | None =>
      if name.2 then
        _ ← print (lit "File does not have have RIFF format. " ++ lit name.1
                   ++ lit " sub-chunk is not present");
        mret None
      else info_loop data cat' info cp
    | Some (data_str, size) =>
      info_loop data cat' (info ++ [(name.1, data_str)]) (cp + size)
    end
  end.

Definition parse_info_list_chunk (data : list byte) (cp : Z) : IO (option info_list) :=
  info_loop data chunks [] cp.

(** ** Reading the file *)

Record arrays : Type := {
  phdr : list PHDRRecord;
  pbag : list XBAGRecord;
  pmod : list XMODRecord;
  pgen : list XGENRecord;
  inst : list INSTRecord;
  ibag : list XBAGRecord;
  imod : list XMODRecord;
  igen : list XGENRecord;
  shdr : list SHDRRecord
}.

Section ParseFile.
Variable file : list byte.

(** [exit_unless ok]: [if not ok: sys.exit(1)] *)
Definition exit_unless (ok : bool) : IO unit :=
  if ok then mret tt else raise (SystemExit 1).

(** [parse_chunk]: the records of the [ChunkParser] it returns. *)
Definition parse_chunk {R : Type} (C : rec_class R) (chunk_id : string)
    : IO (list R) :=
  data ← f_read file 8;
  header ← lift (struct_unpack [FI; FI] data);
  h0 ← lift (get_int header 0);
  ok ← check_id h0 chunk_id;
  _ ← exit_unless ok;
  size ← lift (get_int header 1);
  data ← f_read file size;
  lift (parse C data size).

Definition parse_file : IO (option info_list * arrays) :=
  let file_size := py_len file in
  _ ← f_open;
  data ← f_read file 1024;
  header ← lift (struct_unpack [FI; FI; FI; FI; FI; FI] (py_slice data 0 24));
  h0 ← lift (get_int header 0);
  ok ← check_id h0 "RIFF"; _ ← exit_unless ok;
  riff_size ← lift (get_int header 1);
  _ ← (if decide (riff_size + 8 ≠ file_size) then
         _ ← print (lit "File is incomplete"); raise (SystemExit 1)
       else mret tt);
  h2 ← lift (get_int header 2);
  ok ← check_id h2 "sfbk"; _ ← exit_unless ok;
  h3 ← lift (get_int header 3);
  ok ← check_id h3 "LIST"; _ ← exit_unless ok;
  size ← lift (get_int header 4);
  h5 ← lift (get_int header 5);
  ok ← check_id h5 "INFO"; _ ← exit_unless ok;
  info ← parse_info_list_chunk data 24;
  let curr_pos := size + 20 in
  header ← lift (struct_unpack [FI; FI] (py_slice data curr_pos (curr_pos + 8)));
  h0 ← lift (get_int header 0);
  ok ← check_id h0 "LIST"; _ ← exit_unless ok;
  size ← lift (get_int header 1);
  let curr_pos := curr_pos + 8 in
  let curr_pos := curr_pos + size in
  _ ← f_seek curr_pos;
  data ← f_read file 12;
  header ← lift (struct_unpack [FI; FI; FI] data);
  h0 ← lift (get_int header 0);
  ok ← check_id h0 "LIST"; _ ← exit_unless ok;
  h2 ← lift (get_int header 2);
  ok ← check_id h2 "pdta"; _ ← exit_unless ok;
  phdr ← parse_chunk PHDR "phdr";
  pbag ← parse_chunk XBAG "pbag";
  pmod ← parse_chunk XMOD "pmod";
  pgen ← parse_chunk XGEN "pgen";
  inst ← parse_chunk INST "inst";
  ibag ← parse_chunk XBAG "ibag";
  imod ← parse_chunk XMOD "imod";
  igen ← parse_chunk XGEN "igen";
  shdr ← parse_chunk SHDR "shdr";
  mret (info, {| phdr := phdr; pbag := pbag; pmod := pmod; pgen := pgen;
                 inst := inst; ibag := ibag; imod := imod; igen := igen;
                 shdr := shdr |}).
End ParseFile.

(** ** The hierarchy resolver *)

Module BankEntry.
Record t : Type := {
  preset : Z;
  name : str;
  bag_ndx : Z;
  zones : Z;
  instruments : list str
}.
End BankEntry.

(** The body of the loops of [next_bag] and [next_gen]: [res] is updated
    with a start index [ndx] seen in the array, [bound] being the index
    whose successor is sought. *)
Definition next_step (bound : Z) (res : option Z) (ndx : Z) : option Z :=
  if ndx >? bound then
    match res with
    | None => Some ndx
    | Some r => if ndx <? r then Some ndx else res
    end
  else res.

Definition next_bag (phdr : list PHDRRecord) (bag_ndx0 : Z) : option Z :=
  fold_left (λ res rec, next_step bag_ndx0 res (bag_ndx rec)) phdr None.

Definition next_gen (pbag : list XBAGRecord) (gen_ndx0 : Z) : option Z :=
  fold_left (λ res rec, next_step gen_ndx0 res (gen_ndx rec)) pbag None.

(** [list.sort(key=...)]: a stable sort; each element goes in front of the
    already sorted later elements, before the first one whose key is not
    smaller. *)
Fixpoint insert_by {A : Type} (key : A → Z) (x : A) (l : list A) : list A :=
  match l with
  | [] => [x]
  | y :: l' => if key x <=? key y then x :: l else y :: insert_by key x l'
  end.

Fixpoint py_sort {A : Type} (key : A → Z) (l : list A) : list A :=
  match l with
  | [] => []
  | x :: l' => insert_by key x (py_sort key l')
  end.

(** [x not in l] followed by [l.append(x)] *)
Definition append_new (l : list str) (x : str) : list str :=
  if decide (x ∈ l) then l else l ++ [x].

Section Process.
Variable a : arrays.

(** The preset headers after [phdr.records.sort(key=lambda r: r.bank)]. *)
Definition sorted_phdr : list PHDRRecord := py_sort bank (phdr a).

(** The zone count of a preset header. *)
Definition zones_of (rec : PHDRRecord) : Z :=
  match next_bag sorted_phdr (bag_ndx rec) with
  | None => py_len (pbag a) - bag_ndx rec
  | Some next => next - bag_ndx rec
  end.

(** The generator count of a zone. *)
Definition gens_of (bag : XBAGRecord) : Z :=
  match next_gen (pbag a) (gen_ndx bag) with
  | None => py_len (pgen a) - gen_ndx bag
  | Some next => next - gen_ndx bag
  end.

(** The body of the loop over the generators of a zone. *)
Definition gen_step (instruments : list str) (gen_idx : Z) : result (list str) :=
  gen ← py_index (pgen a) gen_idx;
  if decide (gen_oper gen = 41) then
    ins ← py_index (inst a) (gen_amount gen);
    Ok (append_new instruments (inst_name ins))
  else Ok instruments.

(** The body of the loop over the zones of a preset. *)
Definition bag_step (instruments : list str) (bag_idx : Z) : result (list str) :=
  bag ← py_index (pbag a) bag_idx;
  let gens := gens_of bag in
  foldM gen_step instruments (py_range (gen_ndx bag) (gen_ndx bag + gens)).

(** The body of the loop over the preset headers. *)
Definition rec_step (banks : gmap Z (list BankEntry.t)) (rec : PHDRRecord)
    : result (gmap Z (list BankEntry.t)) :=
  let zones := zones_of rec in
  let b := bank rec in
  let banks := if decide (b ∈ dom banks) then banks else <[b := []]> banks in
  instruments ←
    foldM bag_step [] (py_range (bag_ndx rec) (bag_ndx rec + zones));
  match banks !! b with
  | None => Raise KeyError
  | Some l =>
    Ok (<[b := l ++ [ {| BankEntry.preset := preset rec;
                         BankEntry.name := preset_name rec;
                         BankEntry.bag_ndx := bag_ndx rec;
                         BankEntry.zones := zones;
                         BankEntry.instruments := instruments |} ]]> banks)
  end.

(** [process]: the preset headers are sorted in place before anything
    else, so the arrays the caller holds afterwards are returned next to
    the outcome, whether a dictionary of banks or an exception. *)
Definition process : arrays * result (gmap Z (list BankEntry.t)) :=
  ({| phdr := sorted_phdr; pbag := pbag a; pmod := pmod a; pgen := pgen a;
      inst := inst a; ibag := ibag a; imod := imod a; igen := igen a;
      shdr := shdr a |},
   foldM rec_step ∅ sorted_phdr).
End Process.

(** ** Rendering a generator amount *)

Definition RANGE_GENS : list Z := [43; 44].

(** The value [unpack_amount] returns: the integer itself or a string. *)
Inductive rendered : Type :=
| RInt (n : Z)
| RStr (s : str).

Definition unpack_amount (gen amount : Z) : rendered :=
  if decide (gen ∈ RANGE_GENS) then
    RStr (fmt_int (Z.land amount 255) ++ lit " - "
          ++ fmt_int (Z.shiftr (Z.land amount 65280) 8))
  else RInt amount.

(** ** Definitions used to state the properties *)

(** The offsets [0, W, 2W, ...] of the first [n] records of an array. *)
Definition record_offsets (W n : Z) : list Z := (λ i, i * W) <$> seqZ 0 n.

(** [struct.pack]: the inverse direction of [struct_unpack], used to state
    what re-encoding a decoded record gives. *)
Definition byte_of_val (z : Z) : byte :=
  default x00 (Byte.of_N (Z.to_N (z mod 256))).

Fixpoint le_bytes (w : nat) (z : Z) : list byte :=
  match w with
  | O => []
  | S w' => byte_of_val z :: le_bytes w' (z / 256)
  end.

Definition pack_item (f : fmt_item) (v : value) : list byte :=
  match f, v with
  | Fs _, VBytes bs => bs
  | (FB | Fb | FH | FI), VInt z => le_bytes (item_size f) z
  | _, _ => []
  end.

Definition struct_pack (fmt : list fmt_item) (vs : list value) : list byte :=
  concat (zip_with pack_item fmt vs).

(** The attributes of the integer-only records, in layout order. *)
Definition XBAG_fields (r : XBAGRecord) : list value :=
  [VInt (gen_ndx r); VInt (mod_ndx r)].

Definition XGEN_fields (r : XGENRecord) : list value :=
  [VInt (gen_oper r); VInt (gen_amount r)].

Definition XMOD_fields (r : XMODRecord) : list value :=
  [VInt (mod_src_oper r); VInt (mod_dest_oper r); VInt (mod_amount r);
   VInt (mod_arm_src_oper r); VInt (mod_trans_oper r)].

Section Classes.
Context {R : Type} (C : rec_class R).

(** Decoding one record from a buffer of exactly one record width. *)
Definition decode_record (bs : list byte) : result R :=
  fields ← struct_unpack (format C) bs; init C fields.

(** Every buffer of one record width decodes. *)
Definition total_class : Prop :=
  ∀ bs, py_len bs = rec_size C → ∃ r, decode_record bs = Ok r.

(** Every buffer of one record width decodes to a record whose
    attributes [fields] pack back to the same bytes. *)
Definition lossless_class (fields : R → list value) : Prop :=
  ∀ bs, py_len bs = rec_size C →
    ∃ r, decode_record bs = Ok r ∧ struct_pack (format C) (fields r) = bs.

Definition reencode (fields : R → list value) (recs : list R) : list byte :=
  concat ((λ r, struct_pack (format C) (fields r)) <$> recs).
End Classes.

(** The bytes of a sub-chunk: the tag, the 32-bit little-endian size of
    the content, the content. *)
Definition sub_chunk_bytes (id_ : string) (content : list byte) : list byte :=
  list_byte_of_string id_ ++ le_bytes 4 (py_len content) ++ content.

(** The order [list.sort] sorts by. *)
Definition key_le {A : Type} (key : A → Z) (x y : A) : Prop := key x ≤ key y.

(** [n] is the smallest of the start indices [zs] strictly greater than
    [z]. *)
Definition is_next (zs : list Z) (z n : Z) : Prop :=
  n ∈ zs ∧ z < n ∧ ∀ m, m ∈ zs → z < m → n ≤ m.

Section Resolver.
Variable a : arrays.

(** The instrument list built for a preset header: the loop over its
    zones, started on the empty list. *)
Definition instruments_of (rec : PHDRRecord) : result (list str) :=
  foldM (bag_step a) []
    (py_range (bag_ndx rec) (bag_ndx rec + zones_of a rec)).

(** The entry appended for a preset header, given its instrument list. *)
Definition entry_of (rec : PHDRRecord) (instruments : list str) : BankEntry.t :=
  {| BankEntry.preset := preset rec;
     BankEntry.name := preset_name rec;
     BankEntry.bag_ndx := bag_ndx rec;
     BankEntry.zones := zones_of a rec;
     BankEntry.instruments := instruments |}.

Definition bank_entry (rec : PHDRRecord) : result BankEntry.t :=
  instruments ← instruments_of rec; Ok (entry_of rec instruments).

(** The instrument names a generator refers to: the name of the
    instrument its amount indexes when its operator is 41, none
    otherwise. *)
Definition gen_refs (gen_idx : Z) : result (list str) :=
  gen ← py_index (pgen a) gen_idx;
  if decide (gen_oper gen = 41) then
    ins ← py_index (inst a) (gen_amount gen); Ok [inst_name ins]
  else Ok [].

(** The names referred to by the generators of a zone, in order. *)
Definition bag_refs (bag_idx : Z) : result (list str) :=
  bag ← py_index (pbag a) bag_idx;
  refs ← mapM_result gen_refs
            (py_range (gen_ndx bag) (gen_ndx bag + gens_of a bag));
  Ok (concat refs).

(** The names referred to across the zones of a preset, in order. *)
Definition preset_refs (rec : PHDRRecord) : result (list str) :=
  refs ← mapM_result bag_refs
            (py_range (bag_ndx rec) (bag_ndx rec + zones_of a rec));
  Ok (concat refs).
End Resolver.

(** [banks[b].append(e)], the list of [b] being created when missing. *)
Definition add_entry (banks : gmap Z (list BankEntry.t)) (b : Z) (e : BankEntry.t)
    : gmap Z (list BankEntry.t) :=
  <[b := default [] (banks !! b) ++ [e]]> banks.

(** The elements of [l] not in [seen], each kept at its first appearance
    only. *)
Fixpoint first_occurrences (seen l : list str) : list str :=
  match l with
  | [] => []
  | x :: l' =>
    if decide (x ∈ seen) then first_occurrences seen l'
    else x :: first_occurrences (x :: seen) l'
  end.

(** The sum of a list of integers. *)
Definition sum_Z (l : list Z) : Z := foldr Z.add 0 l.

(** The length of the range a start index [z] opens among the start
    indices [zs] of an array of length [L], as the resolver derives it. *)
Definition span (L : Z) (zs : list Z) (z : Z) : Z :=
  match fold_left (next_step z) zs None with
  | Some n => n - z
  | None => L - z
  end.

(** These lengths added up over the start indices. *)
Definition span_sum (L : Z) (zs : list Z) : Z := sum_Z (span L zs <$> zs).

(** The line printed when the mandatory sub-chunk [label] is not found. *)
Definition missing_line (label : string) : str :=
  lit "File does not have have RIFF format. " ++ lit label
  ++ lit " sub-chunk is not present".

(** The labels of the catalog, in catalog order. *)
Definition catalog_labels : list string := (λ c, c.2.1) <$> chunks.

(** Whether the 20 name bytes of the record at offset [cp] are UTF-8. *)
Definition name_ok (data : list byte) (cp : Z) : bool :=
  match decode_utf8 (py_slice data cp (cp + 20)) with
  | Ok _ => true
  | Raise _ => false
  end.

(** Whether the names of the first [n] records of width [W] are UTF-8. *)
Definition names_ok (W n : Z) (data : list byte) : bool :=
  forallb (name_ok data) (record_offsets W n).

(** ** Example inputs *)

(** Two preset headers, parsed in the order bank 1, bank 0. *)
Definition two_banks : arrays := {|
  phdr := [ {| preset_name := lit "B"; preset := 0; bank := 1; bag_ndx := 0 |};
            {| preset_name := lit "A"; preset := 0; bank := 0; bag_ndx := 0 |} ];
  pbag := []; pmod := []; pgen := []; inst := [];
  ibag := []; imod := []; igen := []; shdr := []
|}.

(** Two presets in two banks over three zones; the first preset refers
    to the same instrument from both of its zones. *)
Definition small_bank : arrays := {|
  phdr := [ {| preset_name := lit "Lead"; preset := 0; bank := 1; bag_ndx := 0 |};
            {| preset_name := lit "Bass"; preset := 5; bank := 0; bag_ndx := 2 |} ];
  pbag := [ {| gen_ndx := 0; mod_ndx := 0 |};
            {| gen_ndx := 1; mod_ndx := 0 |};
            {| gen_ndx := 2; mod_ndx := 0 |} ];
  pmod := [];
  pgen := [ {| gen_oper := 41; gen_amount := 0 |};
            {| gen_oper := 41; gen_amount := 0 |};
            {| gen_oper := 41; gen_amount := 1 |} ];
  inst := [ {| inst_name := lit "Saw"; inst_bag_ndx := 0 |};
            {| inst_name := lit "Sub"; inst_bag_ndx := 0 |} ];
  ibag := []; imod := []; igen := []; shdr := []
|}.

(** A list chunk: a [LIST] sub-chunk whose content starts with the list
    type. *)
Definition list_chunk (kind : string) (body : list byte) : list byte :=
  sub_chunk_bytes "LIST" (list_byte_of_string kind ++ body).

(** The nine record arrays, each holding no record at all (not even the
    sentinel). *)
Definition empty_pdta : list byte :=
  list_chunk "pdta"
    (sub_chunk_bytes "phdr" [] ++ sub_chunk_bytes "pbag" []
     ++ sub_chunk_bytes "pmod" [] ++ sub_chunk_bytes "pgen" []
     ++ sub_chunk_bytes "inst" [] ++ sub_chunk_bytes "ibag" []
     ++ sub_chunk_bytes "imod" [] ++ sub_chunk_bytes "igen" []
     ++ sub_chunk_bytes "shdr" []).

(** A file with the given INFO sub-chunks, no sample data and empty
    arrays. *)
Definition sf2_file (info : list byte) : list byte :=
  sub_chunk_bytes "RIFF"
    (list_byte_of_string "sfbk" ++ list_chunk "INFO" info
     ++ list_chunk "sdta" [] ++ empty_pdta).

(** The preset-data list holding the nine record arrays with the given
    contents, in the order [parse_file] reads them. *)
Definition pdta_chunk (c1 c2 c3 c4 c5 c6 c7 c8 c9 : list byte) : list byte :=
  list_chunk "pdta"
    (sub_chunk_bytes "phdr" c1 ++ sub_chunk_bytes "pbag" c2
     ++ sub_chunk_bytes "pmod" c3 ++ sub_chunk_bytes "pgen" c4
     ++ sub_chunk_bytes "inst" c5 ++ sub_chunk_bytes "ibag" c6
     ++ sub_chunk_bytes "imod" c7 ++ sub_chunk_bytes "igen" c8
     ++ sub_chunk_bytes "shdr" c9).

(** A whole file: form header, INFO list, sample list and the nine
    arrays. *)
Definition sf2_image (info sdta c1 c2 c3 c4 c5 c6 c7 c8 c9 : list byte) : list byte :=
  sub_chunk_bytes "RIFF"
    (list_byte_of_string "sfbk" ++ list_chunk "INFO" info
     ++ list_chunk "sdta" sdta ++ pdta_chunk c1 c2 c3 c4 c5 c6 c7 c8 c9).

(** The three mandatory sub-chunks: version 2.1, engine ["EMU8000"], bank
    name ["Bank"]. *)
Definition file_complete : list byte :=
  sf2_file (sub_chunk_bytes "ifil" [x02; x00; x01; x00]
            ++ sub_chunk_bytes "isng" (list_byte_of_string "EMU8000" ++ [x00])
            ++ sub_chunk_bytes "INAM" (list_byte_of_string "Bank" ++ [x00; x00])).

(** The same file without the target engine sub-chunk. *)
Definition file_no_engine : list byte :=
  sf2_file (sub_chunk_bytes "ifil" [x02; x00; x01; x00]
            ++ sub_chunk_bytes "INAM" (list_byte_of_string "Bank" ++ [x00; x00])).

(** The same file as [file_complete] with an optional creation date. *)
Definition file_with_date : list byte :=
  sf2_file (sub_chunk_bytes "ifil" [x02; x00; x01; x00]
            ++ sub_chunk_bytes "isng" (list_byte_of_string "EMU8000" ++ [x00])
            ++ sub_chunk_bytes "INAM" (list_byte_of_string "Bank" ++ [x00; x00])
            ++ sub_chunk_bytes "ICRD" (list_byte_of_string "2024" ++ [x00; x00])).

(** [file_complete] with the first byte of its form tag overwritten. *)
Definition file_bad_form : list byte := x00 :: drop 1 file_complete.

Definition no_arrays : arrays := {|
  phdr := []; pbag := []; pmod := []; pgen := []; inst := [];
  ibag := []; imod := []; igen := []; shdr := []
|}.

(** The world before the program starts. *)
Definition world0 : world := {| stdout := []; fpos := 0 |}.

(** * Properties *)

(** ** The result monad *)

Lemma bind_Ok {A B : Type} (f : A → result B) (a : A) : (Ok a ≫= f) = f a.
Proof. reflexivity. Qed.

Lemma bind_Raise {A B : Type} (f : A → result B) (e : exn) :
  (Raise e ≫= f) = Raise e.
Proof. reflexivity. Qed.

Lemma bind_Ok_inv {A B : Type} (f : A → result B) (m : result A) (b : B) :
  m ≫= f = Ok b → ∃ a, m = Ok a ∧ f a = Ok b.
Proof. destruct m as [a|e]; [eauto | discriminate]. Qed.

Lemma mapM_result_length {A B : Type} (f : A → result B) (l : list A) (ys : list B) :
  mapM_result f l = Ok ys → length ys = length l.
Proof.
  revert ys; induction l as [|x l IH]; intros ys; cbn.
  - intros [= <-]; reflexivity.
  - intros H. apply bind_Ok_inv in H as (y & _ & H).
    apply bind_Ok_inv in H as (ys' & Hys & [= <-]).
    cbn; f_equal; auto.
Qed.

Lemma mapM_result_lookup {A B : Type} (f : A → result B) (l : list A) (ys : list B) :
  mapM_result f l = Ok ys →
  ∀ (i : nat) (x : A), l !! i = Some x → ∃ y, ys !! i = Some y ∧ f x = Ok y.
Proof.
  revert ys; induction l as [|x l IH]; intros ys; cbn.
  - intros _ i x0 Hi. destruct i; discriminate.
  - intros H. apply bind_Ok_inv in H as (y & Hy & H).
    apply bind_Ok_inv in H as (ys' & Hys & [= <-]).
    intros [|i] x0; cbn.
    + intros [= <-]; eauto.
    + intros Hi. apply (IH _ Hys i x0 Hi).
Qed.

(** ** Slices *)

Lemma py_slice_inside {A : Type} (l : list A) (a b : Z) :
  0 ≤ a → a ≤ b → b ≤ py_len l →
  py_slice l a b = take (Z.to_nat (b - a)) (drop (Z.to_nat a) l).
Proof.
  intros Ha Hab Hb. unfold py_slice, clamp.
  destruct (Z.ltb_spec a 0); [lia|].
  destruct (Z.ltb_spec b 0); [lia|].
  rewrite !Z.min_l by lia. reflexivity.
Qed.

Lemma py_slice_length {A : Type} (l : list A) (a b : Z) :
  0 ≤ a → a ≤ b → b ≤ py_len l → py_len (py_slice l a b) = b - a.
Proof.
  intros Ha Hab Hb. rewrite py_slice_inside by assumption.
  unfold py_len in *. rewrite length_take, length_drop. lia.
Qed.

Lemma py_slice_app {A : Type} (l : list A) (a b c : Z) :
  0 ≤ a → a ≤ b → b ≤ c → c ≤ py_len l →
  py_slice l a b ++ py_slice l b c = py_slice l a c.
Proof.
  intros Ha Hab Hbc Hc. rewrite !py_slice_inside by lia.
  replace (Z.to_nat (c - a)) with (Z.to_nat (b - a) + Z.to_nat (c - b))%nat by lia.
  rewrite <- take_take_drop, drop_drop.
  do 3 f_equal. lia.
Qed.

Lemma py_slice_all {A : Type} (l : list A) : py_slice l 0 (py_len l) = l.
Proof.
  rewrite py_slice_inside by (unfold py_len; lia).
  cbn. rewrite Z.sub_0_r. unfold py_len. rewrite Nat2Z.id. apply firstn_all.
Qed.

(** ** Packing and unpacking integers *)

Lemma byte_val_range (b : byte) : 0 ≤ byte_val b < 256.
Proof.
  unfold byte_val. pose proof (Byte.to_N_bounded b). lia.
Qed.

Lemma byte_of_val_byte_val (b : byte) (k : Z) :
  byte_of_val (byte_val b + 256 * k) = b.
Proof.
  unfold byte_of_val.
  replace (byte_val b + 256 * k) with (byte_val b + k * 256) by lia.
  rewrite Z_mod_plus_full, Z.mod_small by apply byte_val_range.
  unfold byte_val. rewrite N2Z.id, Byte.of_to_N. reflexivity.
Qed.

Lemma le_bytes_le_uint (bs : list byte) : le_bytes (length bs) (le_uint bs) = bs.
Proof.
  induction bs as [|b bs IH]; [reflexivity|].
  cbn [length le_bytes le_uint].
  rewrite byte_of_val_byte_val. f_equal.
  replace (byte_val b + 256 * le_uint bs) with (byte_val b + le_uint bs * 256) by lia.
  rewrite Z.div_add by lia.
  rewrite Z.div_small by apply byte_val_range.
  exact IH.
Qed.

(** Buffers of a known length, as explicit lists. *)
Ltac explode_bytes bs H :=
  repeat (destruct bs as [|? bs]; [discriminate H|]);
  destruct bs; [clear H | discriminate H].

Lemma XBAG_lossless : lossless_class XBAG XBAG_fields.
Proof.
  intros bs H. unfold py_len in H. change (rec_size XBAG) with 4 in H.
  assert (Hl : length bs = 4%nat) by lia. clear H.
  explode_bytes bs Hl.
  eexists; split; [reflexivity|].
  cbn -[le_uint le_bytes].
  rewrite !(le_bytes_le_uint [_; _]). reflexivity.
Qed.

Lemma XGEN_lossless : lossless_class XGEN XGEN_fields.
Proof.
  intros bs H. unfold py_len in H. change (rec_size XGEN) with 4 in H.
  assert (Hl : length bs = 4%nat) by lia. clear H.
  explode_bytes bs Hl.
  eexists; split; [reflexivity|].
  cbn -[le_uint le_bytes].
  rewrite !(le_bytes_le_uint [_; _]). reflexivity.
Qed.

Lemma XMOD_lossless : lossless_class XMOD XMOD_fields.
Proof.
  intros bs H. unfold py_len in H. change (rec_size XMOD) with 10 in H.
  assert (Hl : length bs = 10%nat) by lia. clear H.
  explode_bytes bs Hl.
  eexists; split; [reflexivity|].
  cbn -[le_uint le_bytes].
  rewrite !(le_bytes_le_uint [_; _]). reflexivity.
Qed.

Lemma lossless_total {R : Type} (C : rec_class R) (fields : R → list value) :
  lossless_class C fields → total_class C.
Proof. intros H bs Hbs. destruct (H bs Hbs) as (r & Hr & _). eauto. Qed.

(** ** The record array decoder *)

Section ParseLoop.
Context {R : Type} (C : rec_class R).
Local Abbreviation W := (rec_size C).

Lemma parse_step_eq data acc cp x :
  parse_step C data (acc, cp) x =
  r ← _parse_record C data cp; Ok (acc ++ [r], cp + W).
Proof. reflexivity. Qed.

(** The loop of [parse] decodes one record per iteration, at offsets
    that advance by the record width. *)
Lemma foldM_parse_step data (l : list Z) (acc : list R) (cp : Z) :
  foldM (parse_step C data) (acc, cp) l =
  rs ← mapM_result (_parse_record C data)
       ((λ i : nat, cp + Z.of_nat i * W) <$> seq 0 (length l));
  Ok (acc ++ rs, cp + py_len l * W).
Proof.
  revert acc cp; induction l as [|x l IH]; intros acc cp.
  - cbn. rewrite app_nil_r. do 2 f_equal. unfold py_len; cbn; lia.
  - cbn [foldM length seq fmap list_fmap mapM_result].
    rewrite parse_step_eq.
    replace (cp + Z.of_nat 0 * W) with cp by lia.
    destruct (_parse_record C data cp) as [r|e]; [|reflexivity].
    rewrite !bind_Ok, IH.
    replace ((λ i : nat, cp + Z.of_nat i * W) <$> seq 1 (length l))
      with ((λ i : nat, cp + W + Z.of_nat i * W) <$> seq 0 (length l)); last first.
    { rewrite <- seq_shift, <- list_fmap_compose.
      apply list_fmap_ext; intros; cbn; lia. }
    destruct (mapM_result _ _) as [rs|e]; [|reflexivity].
    rewrite !bind_Ok. rewrite <- app_assoc. cbn.
    do 2 f_equal. unfold py_len; cbn [length]. lia.
Qed.

Lemma record_offsets_seq (n : Z) :
  record_offsets W n = (λ i : nat, 0 + Z.of_nat i * W) <$> seq 0 (Z.to_nat n).
Proof.
  unfold record_offsets, seqZ. rewrite <- list_fmap_compose.
  apply list_fmap_ext; intros; cbn; lia.
Qed.

(** [parse] decodes the slices at the offsets of the first
    [total_recs] records, in order, and nothing else. *)
Lemma parse_offsets data size :
  W ≠ 0 →
  parse C data size =
  mapM_result (_parse_record C data) (record_offsets W (total_recs C size)).
Proof.
  intros HW. unfold parse. destruct (decide (W = 0)); [contradiction|].
  rewrite foldM_parse_step. unfold py_range.
  rewrite length_seqZ, Z.sub_0_r, record_offsets_seq.
  destruct (mapM_result _ _) as [rs|e]; reflexivity.
Qed.

Lemma total_recs_div size : 0 ≤ size → 0 < W → total_recs C size = size / W - 1.
Proof. intros. unfold total_recs. rewrite Z.quot_div_nonneg by lia. reflexivity. Qed.

Lemma length_record_offsets n : py_len (record_offsets W n) = Z.max 0 n.
Proof.
  unfold record_offsets, py_len. rewrite length_fmap, length_seqZ. lia.
Qed.

(** The decoder reads inside [data] only: it gives the same outcome on a
    buffer cut after the slices it decodes. *)
Lemma _parse_record_take data cp (m : nat) :
  0 ≤ cp → cp + W ≤ Z.of_nat m → Z.of_nat m ≤ py_len data →
  _parse_record C (take m data) cp = _parse_record C data cp.
Proof.
  intros Hcp Hm Hlen. unfold _parse_record.
  assert (0 ≤ W) by (unfold rec_size, calcsize; lia).
  assert (Hl : py_len (take m data) = Z.of_nat m).
  { unfold py_len in *. rewrite length_take. lia. }
  rewrite !py_slice_inside by lia.
  rewrite !take_drop_commute, take_take.
  rewrite Nat.min_l by lia. reflexivity.
Qed.

Lemma mapM_offsets_take data (m : nat) (n : nat) (cp : Z) :
  0 ≤ cp → 0 ≤ W → cp + Z.of_nat n * W ≤ Z.of_nat m → Z.of_nat m ≤ py_len data →
  mapM_result (_parse_record C (take m data))
    ((λ i : nat, cp + Z.of_nat i * W) <$> seq 0 n) =
  mapM_result (_parse_record C data)
    ((λ i : nat, cp + Z.of_nat i * W) <$> seq 0 n).
Proof.
  intros Hcp HW Hn Hm. revert cp Hcp Hn; induction n as [|n IH]; intros cp Hcp Hn.
  - reflexivity.
  - cbn [seq fmap list_fmap mapM_result].
    replace (cp + Z.of_nat 0 * W) with cp by lia.
    rewrite _parse_record_take by lia.
    destruct (_parse_record C data cp) as [r|e]; [|reflexivity].
    rewrite !bind_Ok.
    replace ((λ i : nat, cp + Z.of_nat i * W) <$> seq 1 n)
      with ((λ i : nat, cp + W + Z.of_nat i * W) <$> seq 0 n); last first.
    { rewrite <- seq_shift, <- list_fmap_compose.
      apply list_fmap_ext; intros; cbn; lia. }
    rewrite IH by lia. reflexivity.
Qed.

(** On a class that decodes every buffer of one record width, the
    slices inside the chunk all decode. *)
Lemma mapM_offsets_total data (n : nat) (cp : Z) :
  total_class C → 0 ≤ cp → 0 ≤ W → cp + Z.of_nat n * W ≤ py_len data →
  ∃ recs, mapM_result (_parse_record C data)
            ((λ i : nat, cp + Z.of_nat i * W) <$> seq 0 n) = Ok recs.
Proof.
  intros Htot Hcp HW. revert cp Hcp; induction n as [|n IH]; intros cp Hcp Hn.
  - eexists; reflexivity.
  - cbn [seq fmap list_fmap mapM_result].
    replace (cp + Z.of_nat 0 * W) with cp by lia.
    destruct (Htot (py_slice data cp (cp + W))) as (r & Hr).
    { rewrite py_slice_length by lia. lia. }
    change (_parse_record C data cp = Ok r) in Hr. rewrite Hr, bind_Ok.
    replace ((λ i : nat, cp + Z.of_nat i * W) <$> seq 1 n)
      with ((λ i : nat, cp + W + Z.of_nat i * W) <$> seq 0 n); last first.
    { rewrite <- seq_shift, <- list_fmap_compose.
      apply list_fmap_ext; intros; cbn; lia. }
    destruct (IH (cp + W)) as (recs & Hrecs); [lia | lia |].
    rewrite Hrecs. eexists; reflexivity.
Qed.

(** On a lossless class, packing the decoded records gives back the
    bytes they were decoded from. *)
Lemma mapM_offsets_lossless fields data (n : nat) (cp : Z) :
  lossless_class C fields → 0 ≤ cp → 0 ≤ W → cp + Z.of_nat n * W ≤ py_len data →
  ∃ recs, mapM_result (_parse_record C data)
            ((λ i : nat, cp + Z.of_nat i * W) <$> seq 0 n) = Ok recs
          ∧ reencode C fields recs = py_slice data cp (cp + Z.of_nat n * W).
Proof.
  intros Hll Hcp HW. revert cp Hcp; induction n as [|n IH]; intros cp Hcp Hn.
  - exists []. split; [reflexivity|].
    rewrite py_slice_inside by lia.
    replace (Z.to_nat (cp + Z.of_nat 0 * W - cp)) with 0%nat by lia.
    reflexivity.
  - cbn [seq fmap list_fmap mapM_result].
    replace (cp + Z.of_nat 0 * W) with cp by lia.
    destruct (Hll (py_slice data cp (cp + W))) as (r & Hr & Hpack).
    { rewrite py_slice_length by lia. lia. }
    change (_parse_record C data cp = Ok r) in Hr. rewrite Hr, bind_Ok.
    replace ((λ i : nat, cp + Z.of_nat i * W) <$> seq 1 n)
      with ((λ i : nat, cp + W + Z.of_nat i * W) <$> seq 0 n); last first.
    { rewrite <- seq_shift, <- list_fmap_compose.
      apply list_fmap_ext; intros; cbn; lia. }
    destruct (IH (cp + W)) as (recs & Hrecs & Hbytes); [lia | lia |].
    rewrite Hrecs. eexists; split; [reflexivity|].
    unfold reencode in *. cbn [fmap list_fmap concat].
    change (list_fmap _ _ ?f recs) with (f <$> recs).
    rewrite Hpack, Hbytes.
    rewrite py_slice_app by lia. f_equal. lia.
Qed.
End ParseLoop.

(** C2 (amended). For a record array chunk of byte length [L] that is a
    multiple of the record width [W] and holds at least the sentinel
    ([W ≤ L]): [parse] decodes exactly the [W]-byte slices at the offsets
    [0, W, 2W, ...] of the first [L/W - 1] records, in order; the offset
    [L - W] of the sentinel is not among them, so the sentinel is neither
    decoded nor appended; when the decoding succeeds it returns exactly
    [L/W - 1] records, the [i]-th decoded from the slice at [i * W]; and for
    a layout whose records keep every byte they were decoded from, the
    decoding succeeds and packing the returned records, followed by the
    chunk's own last [W] bytes, gives back the [L] bytes of the chunk. *)
Theorem parse_exact_multiple {R : Type} (C : rec_class R) (data : list byte) (L : Z) :
  py_len data = L → 0 < rec_size C → L mod rec_size C = 0 → rec_size C ≤ L →
  parse C data L =
    mapM_result (_parse_record C data)
      (record_offsets (rec_size C) (L / rec_size C - 1))
  ∧ ((L - rec_size C) ∉ record_offsets (rec_size C) (L / rec_size C - 1))
  ∧ (∀ recs, parse C data L = Ok recs →
       py_len recs = L / rec_size C - 1
       ∧ ∀ (i : nat) r, recs !! i = Some r →
           _parse_record C data (Z.of_nat i * rec_size C) = Ok r)
  ∧ (∀ fields, lossless_class C fields →
       ∃ recs, parse C data L = Ok recs
             ∧ reencode C fields recs ++ py_slice data (L - rec_size C) L = data).
Proof.
  intros Hlen HW Hmod HL.
  assert (HL0 : 0 ≤ L) by lia.
  assert (Hq : L = rec_size C * (L / rec_size C)).
  { apply Z_div_exact_full_2; lia. }
  assert (Hq1 : 1 ≤ L / rec_size C).
  { apply Z.div_le_lower_bound; lia. }
  assert (Hparse : parse C data L =
    mapM_result (_parse_record C data)
      (record_offsets (rec_size C) (L / rec_size C - 1))).
  { rewrite parse_offsets, total_recs_div by lia. reflexivity. }
  split; [exact Hparse|]. split; [|split].
  - unfold record_offsets. intros Hin.
    apply list_elem_of_fmap in Hin as (i & Hi & Hin).
    apply elem_of_seqZ in Hin. nia.
  - intros recs Hrecs. rewrite Hparse in Hrecs.
    pose proof (mapM_result_length _ _ _ Hrecs) as Hn.
    pose proof (length_record_offsets C (L / rec_size C - 1)) as Ho.
    unfold py_len in *. split; [lia|].
    intros i r Hi.
    assert (Hlt : (i < length (record_offsets (rec_size C) (L / rec_size C - 1)))%nat).
    { rewrite <- Hn. apply lookup_lt_Some in Hi. exact Hi. }
    apply lookup_lt_is_Some_2 in Hlt as (x & Hx).
    destruct (mapM_result_lookup _ _ _ Hrecs i x Hx) as (y & Hy & Hf).
    assert (y = r) by congruence; subst y.
    unfold record_offsets in Hx. rewrite list_lookup_fmap in Hx.
    destruct (seqZ 0 (L / rec_size C - 1) !! i) as [k|] eqn:Hk; [|discriminate].
    apply lookup_seqZ in Hk as [-> _]. cbn in Hx.
    injection Hx as <-. rewrite Z.add_0_l in Hf. exact Hf.
  - intros fields Hll.
    destruct (mapM_offsets_lossless C fields data (Z.to_nat (L / rec_size C - 1)) 0 Hll)
      as (recs & Hrecs & Hbytes); [lia | lia | nia |].
    exists recs. split.
    + rewrite Hparse, record_offsets_seq. exact Hrecs.
    + rewrite Hbytes.
      replace (0 + Z.of_nat (Z.to_nat (L / rec_size C - 1)) * rec_size C)
        with (L - rec_size C) by nia.
      rewrite py_slice_app by lia.
      rewrite <- Hlen. apply py_slice_all.
Qed.

Lemma parse_exact_multiple_witness :
  parse XBAG [x01; x00; x02; x00; x05; x00; x06; x00] 8 =
    mapM_result (_parse_record XBAG [x01; x00; x02; x00; x05; x00; x06; x00])
      (record_offsets (rec_size XBAG) (8 / rec_size XBAG - 1))
  ∧ ((8 - rec_size XBAG) ∉ record_offsets (rec_size XBAG) (8 / rec_size XBAG - 1))
  ∧ (∀ recs, parse XBAG [x01; x00; x02; x00; x05; x00; x06; x00] 8 = Ok recs →
       py_len recs = 8 / rec_size XBAG - 1
       ∧ ∀ (i : nat) r, recs !! i = Some r →
           _parse_record XBAG [x01; x00; x02; x00; x05; x00; x06; x00]
             (Z.of_nat i * rec_size XBAG) = Ok r)
  ∧ (∃ recs, parse XBAG [x01; x00; x02; x00; x05; x00; x06; x00] 8 = Ok recs
           ∧ reencode XBAG XBAG_fields recs
               ++ py_slice [x01; x00; x02; x00; x05; x00; x06; x00]
                    (8 - rec_size XBAG) 8
             = [x01; x00; x02; x00; x05; x00; x06; x00]).
Proof.
  destruct (parse_exact_multiple XBAG [x01; x00; x02; x00; x05; x00; x06; x00] 8)
    as (H1 & H2 & H3 & H4); [vm_compute; congruence ..|].
  split; [exact H1|]. split; [exact H2|]. split; [exact H3|].
  apply H4, XBAG_lossless.
Defined.

(** A chunk of two zone records whose last record is not zero-filled: one
    record is returned, and packing it followed by a zero-filled sentinel
    does not give back the chunk. *)
Lemma parse_zero_sentinel_counterexample :
  py_len [x01; x00; x02; x00; x05; x00; x06; x00] = 8
  ∧ 8 mod rec_size XBAG = 0
  ∧ parse XBAG [x01; x00; x02; x00; x05; x00; x06; x00] 8
    = Ok [ {| gen_ndx := 1; mod_ndx := 2 |} ]
  ∧ reencode XBAG XBAG_fields [ {| gen_ndx := 1; mod_ndx := 2 |} ]
      ++ replicate (Z.to_nat (rec_size XBAG)) x00
    ≠ [x01; x00; x02; x00; x05; x00; x06; x00].
Proof. vm_compute. repeat split; congruence. Qed.

(** An empty chunk has a length that is a multiple of every width; no
    record is returned, which is not [0/W - 1] records. *)
Lemma parse_empty_chunk_count :
  0 mod rec_size XBAG = 0
  ∧ parse XBAG [] 0 = Ok []
  ∧ py_len (@nil XBAGRecord) ≠ 0 / rec_size XBAG - 1.
Proof. vm_compute. repeat split; congruence. Qed.

(** The preset headers drop [library], [genre] and [morphology]: two
    buffers that differ there decode to the same record. *)
Lemma PHDR_not_injective :
  decode_record PHDR (replicate 38 x00)
  = decode_record PHDR (replicate 26 x00 ++ [x01] ++ replicate 11 x00)
  ∧ ∃ r, decode_record PHDR (replicate 38 x00) = Ok r.
Proof. vm_compute. split; [reflexivity | eexists; reflexivity]. Qed.

(** C3 (amended). For a record array chunk whose byte length [L] is not a
    multiple of the record width [W], [parse] does not fail on that
    account: it decodes the slices at the offsets of the first
    [L/W - 1] records (the quotient rounded down), which is the outcome
    on the chunk cut to [(L/W) * W] bytes, the bytes after that being
    ignored; for a layout that decodes every [W]-byte buffer it returns
    [max 0 (L/W - 1)] records. *)
Theorem parse_ignores_remainder {R : Type} (C : rec_class R) (data : list byte) (L : Z) :
  py_len data = L → 0 < rec_size C → L mod rec_size C ≠ 0 →
  parse C data L =
    mapM_result (_parse_record C data)
      (record_offsets (rec_size C) (L / rec_size C - 1))
  ∧ parse C data L =
    parse C (take (Z.to_nat (L / rec_size C * rec_size C)) data)
      (L / rec_size C * rec_size C)
  ∧ (total_class C →
       ∃ recs, parse C data L = Ok recs
             ∧ py_len recs = Z.max 0 (L / rec_size C - 1)).
Proof.
  intros Hlen HW _.
  assert (HL0 : 0 ≤ L) by (unfold py_len in Hlen; lia).
  assert (Hq0 : 0 ≤ L / rec_size C) by (apply Z.div_pos; lia).
  assert (Hq : L / rec_size C * rec_size C ≤ L).
  { rewrite Z.mul_comm. apply Z.mul_div_le; lia. }
  assert (Hparse : parse C data L =
    mapM_result (_parse_record C data)
      (record_offsets (rec_size C) (L / rec_size C - 1))).
  { rewrite parse_offsets, total_recs_div by lia. reflexivity. }
  split; [exact Hparse|]. split.
  - rewrite Hparse, parse_offsets, total_recs_div by lia.
    rewrite Z.div_mul by lia. rewrite !record_offsets_seq.
    symmetry. apply mapM_offsets_take; try lia.
  - intros Htot.
    destruct (mapM_offsets_total C data (Z.to_nat (L / rec_size C - 1)) 0 Htot)
      as (recs & Hrecs); [lia | lia | nia |].
    exists recs. rewrite Hparse, record_offsets_seq. split; [exact Hrecs|].
    apply mapM_result_length in Hrecs. unfold py_len.
    rewrite Hrecs, length_fmap, length_seq. lia.
Qed.

Lemma parse_ignores_remainder_witness :
  parse XBAG [x01; x00; x02; x00; x05; x00; x06; x00; x07] 9 =
    mapM_result (_parse_record XBAG [x01; x00; x02; x00; x05; x00; x06; x00; x07])
      (record_offsets (rec_size XBAG) (9 / rec_size XBAG - 1))
  ∧ parse XBAG [x01; x00; x02; x00; x05; x00; x06; x00; x07] 9 =
    parse XBAG
      (take (Z.to_nat (9 / rec_size XBAG * rec_size XBAG))
         [x01; x00; x02; x00; x05; x00; x06; x00; x07])
      (9 / rec_size XBAG * rec_size XBAG)
  ∧ (∃ recs, parse XBAG [x01; x00; x02; x00; x05; x00; x06; x00; x07] 9 = Ok recs
           ∧ py_len recs = Z.max 0 (9 / rec_size XBAG - 1)).
Proof.
  destruct (parse_ignores_remainder XBAG [x01; x00; x02; x00; x05; x00; x06; x00; x07] 9)
    as (H1 & H2 & H3); [vm_compute; congruence ..|].
  split; [exact H1|]. split; [exact H2|].
  apply H3, (lossless_total XBAG XBAG_fields), XBAG_lossless.
Defined.

(** A zone chunk of nine bytes, which is not a multiple of four: [parse]
    returns one record instead of failing. *)
Lemma parse_not_multiple_counterexample :
  py_len [x01; x00; x02; x00; x05; x00; x06; x00; x07] = 9
  ∧ 9 mod rec_size XBAG ≠ 0
  ∧ parse XBAG [x01; x00; x02; x00; x05; x00; x06; x00; x07] 9
    = Ok [ {| gen_ndx := 1; mod_ndx := 2 |} ].
Proof. vm_compute. repeat split; congruence. Qed.

(** C10. For a record array chunk whose byte length is strictly less than
    one record width, the empty chunk included, the computed record count
    is [-1], the loop of [parse] ranges over no index, and [parse] returns
    the empty record sequence without failing, whatever the bytes are: no
    slice of the chunk is decoded. *)
Theorem parse_short_chunk {R : Type} (C : rec_class R) (data : list byte) (size : Z) :
  0 ≤ size → size < rec_size C →
  total_recs C size = -1
  ∧ py_range 0 (total_recs C size) = []
  ∧ record_offsets (rec_size C) (total_recs C size) = []
  ∧ parse C data size = Ok [].
Proof.
  intros H0 HW.
  assert (Ht : total_recs C size = -1).
  { rewrite total_recs_div by lia. rewrite Z.div_small by lia. reflexivity. }
  rewrite parse_offsets by lia. rewrite Ht. repeat split; reflexivity.
Qed.

Lemma parse_short_chunk_witness :
  total_recs XBAG 3 = -1
  ∧ py_range 0 (total_recs XBAG 3) = []
  ∧ record_offsets (rec_size XBAG) (total_recs XBAG 3) = []
  ∧ parse XBAG [x01; x00; x02] 3 = Ok [].
Proof.
  apply (parse_short_chunk XBAG [x01; x00; x02] 3); vm_compute; congruence.
Defined.

(** ** Rendering a generator amount *)

Lemma high_byte_mask (A : Z) :
  Z.shiftr (Z.land A 65280) 8 = Z.land (Z.shiftr A 8) 255.
Proof. rewrite Z.shiftr_land. reflexivity. Qed.

Lemma land_255_range (x : Z) : 0 ≤ Z.land x 255 < 256.
Proof.
  change 255 with (Z.ones 8). rewrite Z.land_ones by lia.
  apply Z.mod_pos_bound. lia.
Qed.

(** C6. For the two range-valued operator codes 43 and 44 and every amount
    [A] (a 16-bit amount in particular), [unpack_amount] renders the string
    made of the decimal form of [A & 0xFF], the three characters [" - "]
    and the decimal form of [(A >> 8) & 0xFF], both being unsigned bytes;
    for every other operator code it returns the integer amount itself. *)
Theorem unpack_amount_spec (gen A : Z) :
  (gen = 43 ∨ gen = 44 →
     unpack_amount gen A =
       RStr (fmt_int (Z.land A 255) ++ lit " - "
             ++ fmt_int (Z.land (Z.shiftr A 8) 255))
     ∧ 0 ≤ Z.land A 255 < 256
     ∧ 0 ≤ Z.land (Z.shiftr A 8) 255 < 256)
  ∧ (gen ≠ 43 → gen ≠ 44 → unpack_amount gen A = RInt A).
Proof.
  unfold unpack_amount, RANGE_GENS. split.
  - intros Hgen. split; [|split; apply land_255_range].
    destruct (decide (gen ∈ [43; 44])) as [_|Hout].
    + rewrite high_byte_mask. reflexivity.
    + exfalso. apply Hout. destruct Hgen; subst; repeat constructor.
  - intros H43 H44.
    destruct (decide (gen ∈ [43; 44])) as [Hin|_]; [|reflexivity].
    exfalso. rewrite !elem_of_cons, elem_of_nil in Hin. tauto.
Qed.

Lemma unpack_amount_spec_witness :
  (unpack_amount 43 32512 =
     RStr (fmt_int (Z.land 32512 255) ++ lit " - "
           ++ fmt_int (Z.land (Z.shiftr 32512 8) 255))
   ∧ 0 ≤ Z.land 32512 255 < 256
   ∧ 0 ≤ Z.land (Z.shiftr 32512 8) 255 < 256)
  ∧ unpack_amount 41 7 = RInt 7.
Proof.
  destruct (unpack_amount_spec 43 32512) as [H _].
  destruct (unpack_amount_spec 41 7) as [_ H'].
  split; [apply H; left; reflexivity | apply H'; lia].
Defined.

Example unpack_amount_key_range : unpack_amount 43 32512 = RStr (lit "0 - 127").
Proof. reflexivity. Qed.

(** ** Strings *)

Lemma lstrip_spec (c : Z) (s : str) :
  ∃ i : nat, s = replicate i c ++ lstrip c s ∧ head (lstrip c s) ≠ Some c.
Proof.
  induction s as [|x s (i & Hs & Hh)]; cbn.
  - exists 0%nat. split; [reflexivity | discriminate].
  - destruct (decide (x = c)) as [->|Hx].
    + exists (S i). cbn. split; [f_equal; exact Hs | exact Hh].
    + exists 0%nat. cbn. split; [reflexivity | congruence].
Qed.

Lemma lstrip_suffix (c : Z) (s : str) : lstrip c s `suffix_of` s.
Proof.
  destruct (lstrip_spec c s) as (i & Hs & _).
  exists (replicate i c). exact Hs.
Qed.

Lemma lstrip_idem (c : Z) (s : str) : head s ≠ Some c → lstrip c s = s.
Proof.
  destruct s as [|x s]; cbn; [reflexivity|].
  intros H. destruct (decide (x = c)); [congruence | reflexivity].
Qed.

Lemma head_rev {A : Type} (l : list A) : head (rev l) = last l.
Proof.
  induction l as [|x l IH] using rev_ind; [reflexivity|].
  rewrite rev_app_distr, last_snoc. reflexivity.
Qed.

(** [strip] removes a run of [c] at the front and a run of [c] at the
    back, and nothing else; what is left neither starts nor ends with
    [c]. *)
Lemma strip_spec (c : Z) (s : str) :
  ∃ i j : nat,
    s = replicate i c ++ strip c s ++ replicate j c
    ∧ head (strip c s) ≠ Some c
    ∧ last (strip c s) ≠ Some c.
Proof.
  unfold strip, rstrip.
  destruct (lstrip_spec c s) as (i & Hs & Hh).
  destruct (lstrip_spec c (rev (lstrip c s))) as (j & Hr & Hl).
  set (t := lstrip c s) in *. set (u := lstrip c (rev t)) in *.
  assert (Ht : t = rev u ++ replicate j c).
  { rewrite <- (rev_involutive t), Hr, rev_app_distr.
    f_equal. clear. induction j as [|j IH]; [reflexivity|].
    cbn [replicate rev]. rewrite IH. clear.
    induction j as [|j IH]; [reflexivity|]. cbn. f_equal. exact IH. }
  exists i, j. split; [|split].
  - rewrite Hs at 1. rewrite Ht at 1. reflexivity.
  - destruct (rev u) as [|x v] eqn:Hv; [discriminate|].
    rewrite Ht in Hh. cbn in *. exact Hh.
  - rewrite <- head_rev, rev_involutive. exact Hl.
Qed.

Lemma decode_utf8_vals_ascii (l : list Z) :
  Forall (λ b, 0 ≤ b < 128) l → decode_utf8_vals l = Ok l.
Proof.
  induction 1 as [|b l Hb _ IH]; [reflexivity|].
  cbn [decode_utf8_vals].
  destruct (Z.ltb_spec b 128); [|lia].
  rewrite IH. reflexivity.
Qed.

(** ** The INFO sub-chunks *)

Lemma byte_val_byte_of_val (z : Z) : byte_val (byte_of_val z) = z mod 256.
Proof.
  unfold byte_of_val, byte_val.
  assert (Hr : 0 ≤ z mod 256 < 256) by (apply Z.mod_pos_bound; lia).
  destruct (Byte.of_N (Z.to_N (z mod 256))) as [b|] eqn:Hb.
  - apply Byte.to_of_N in Hb. cbn. rewrite Hb. lia.
  - exfalso. pose proof (Byte.to_of_N_option_map (Z.to_N (z mod 256))) as H.
    rewrite Hb in H. cbn in H.
    destruct (N.leb_spec (Z.to_N (z mod 256)) 255); [discriminate | lia].
Qed.

Lemma le_uint_le_bytes (w : nat) (n : Z) :
  0 ≤ n < 256 ^ Z.of_nat w → le_uint (le_bytes w n) = n.
Proof.
  revert n; induction w as [|w IH]; intros n Hn.
  - cbn in *. lia.
  - cbn [le_bytes le_uint]. rewrite byte_val_byte_of_val.
    rewrite Nat2Z.inj_succ, Z.pow_succ_r in Hn by lia.
    rewrite IH.
    + pose proof (Z.div_mod n 256). lia.
    + split; [apply Z.div_pos; lia | apply Z.div_lt_upper_bound; lia].
Qed.

Lemma length_le_bytes (w : nat) (n : Z) : length (le_bytes w n) = w.
Proof. revert n; induction w; intros; cbn; auto. Qed.

Lemma py_index_lookup {A : Type} (l : list A) (i : nat) (x : A) :
  l !! i = Some x → py_index l (Z.of_nat i) = Ok x.
Proof.
  intros H. unfold py_index.
  destruct (Z.ltb_spec (Z.of_nat i) 0); [lia|].
  destruct (Z.ltb_spec (Z.of_nat i) 0); [lia|].
  rewrite Nat2Z.id, H. reflexivity.
Qed.

Lemma py_slice_app_r {A : Type} (pre l : list A) (a b : Z) :
  0 ≤ a → a ≤ b → b ≤ py_len l →
  py_slice (pre ++ l) (py_len pre + a) (py_len pre + b) = py_slice l a b.
Proof.
  intros Ha Hab Hb.
  assert (Hlen : py_len (pre ++ l) = py_len pre + py_len l).
  { unfold py_len. rewrite length_app. lia. }
  assert (0 ≤ py_len pre) by (unfold py_len; lia).
  rewrite !py_slice_inside by lia.
  replace (Z.to_nat (py_len pre + a)) with (length pre + Z.to_nat a)%nat
    by (unfold py_len; lia).
  rewrite drop_app_add. f_equal. lia.
Qed.

Lemma py_slice_app_l {A : Type} (l post : list A) (a b : Z) :
  0 ≤ a → a ≤ b → b ≤ py_len l →
  py_slice (l ++ post) a b = py_slice l a b.
Proof.
  intros Ha Hab Hb.
  assert (Hlen : py_len (l ++ post) = py_len l + py_len post).
  { unfold py_len. rewrite length_app. lia. }
  assert (0 ≤ py_len post) by (unfold py_len; lia).
  rewrite !py_slice_inside by lia.
  rewrite drop_app_le by (unfold py_len in *; lia).
  rewrite take_app_le; [reflexivity|].
  rewrite length_drop. unfold py_len in *. lia.
Qed.

Lemma py_slice_cons {A : Type} (l : list A) (a c : Z) (x : A) :
  l !! Z.to_nat a = Some x → 0 ≤ a → a < c → c ≤ py_len l →
  py_slice l a c = x :: py_slice l (Z.succ a) c.
Proof.
  intros Hx Ha Hac Hc.
  rewrite <- (py_slice_app l a (Z.succ a) c) by lia.
  rewrite (py_slice_inside l a (Z.succ a)) by lia.
  replace (Z.to_nat (Z.succ a - a)) with 1%nat by lia.
  rewrite (drop_S _ _ _ Hx). reflexivity.
Qed.

(** The loop that reads the characters of a text sub-chunk. *)
Lemma foldM_chars (data : list byte) (n : nat) (a : Z) (acc : str) :
  0 ≤ a → a + Z.of_nat n ≤ py_len data →
  foldM (λ s j, b ← byte_at data j; Ok (s ++ [chr b])) acc (seqZ a (Z.of_nat n)) =
  Ok (acc ++ (byte_val <$> py_slice data a (a + Z.of_nat n))).
Proof.
  revert a acc; induction n as [|n IH]; intros a acc Ha Hn.
  - cbn. rewrite py_slice_inside by lia.
    replace (Z.to_nat (a + Z.of_nat 0 - a)) with 0%nat by lia.
    cbn. rewrite app_nil_r. reflexivity.
  - rewrite seqZ_cons by lia. cbn [foldM].
    assert (Hlt : (Z.to_nat a < length data)%nat) by (unfold py_len in Hn; lia).
    apply lookup_lt_is_Some_2 in Hlt as (b & Hb).
    assert (Hba : byte_at data a = Ok (byte_val b)).
    { pose proof (py_index_lookup _ _ _ Hb) as Hidx.
      rewrite Z2Nat.id in Hidx by lia.
      unfold byte_at. rewrite Hidx. reflexivity. }
    cbn beta. rewrite Hba, !bind_Ok.
    replace (Z.pred (Z.of_nat (S n))) with (Z.of_nat n) by lia.
    rewrite IH by lia.
    rewrite (py_slice_cons data a (a + Z.of_nat (S n)) b Hb) by lia.
    rewrite <- app_assoc. cbn.
    replace (Z.succ a + Z.of_nat n) with (a + Z.of_nat (S n)) by lia.
    reflexivity.
Qed.

Lemma py_slice_middle {A : Type} (pre mid post : list A) (a b : Z) :
  0 ≤ a → a ≤ b → b ≤ py_len mid →
  py_slice (pre ++ mid ++ post) (py_len pre + a) (py_len pre + b) =
  take (Z.to_nat (b - a)) (drop (Z.to_nat a) mid).
Proof.
  intros Ha Hab Hb.
  assert (py_len (mid ++ post) = py_len mid + py_len post).
  { unfold py_len. rewrite length_app. lia. }
  assert (0 ≤ py_len post) by (unfold py_len; lia).
  rewrite py_slice_app_r, py_slice_app_l, py_slice_inside by lia.
  reflexivity.
Qed.

Lemma seqZ_to_nat (a n : Z) : seqZ a n = seqZ a (Z.of_nat (Z.to_nat n)).
Proof. unfold seqZ. rewrite Nat2Z.id. reflexivity. Qed.

Lemma get_int_0 (z : Z) (vs : list value) : get_int (VInt z :: vs) 0 = Ok z.
Proof. reflexivity. Qed.

Lemma get_int_1 (v : value) (z : Z) (vs : list value) :
  get_int (v :: VInt z :: vs) 1 = Ok z.
Proof. reflexivity. Qed.

Section SubChunk.
Variables (pre post content : list byte) (id_ : string).

Let data := pre ++ sub_chunk_bytes id_ content ++ post.
Let cp := py_len pre.

Hypothesis tag_length : length (list_byte_of_string id_) = 4%nat.
Hypothesis tag_number : chunk_id id_ = Ok (le_uint (list_byte_of_string id_)).
Hypothesis size_32 : py_len content < 2 ^ 32.

Lemma sub_chunk_header :
  struct_unpack [FI; FI] (py_slice data cp (cp + 8)) =
  Ok [VInt (le_uint (list_byte_of_string id_)); VInt (py_len content)].
Proof.
  subst data cp.
  replace (py_len pre) with (py_len pre + 0) at 1 by lia.
  rewrite py_slice_middle; try lia.
  2:{ unfold sub_chunk_bytes, py_len.
      rewrite !length_app, tag_length, length_le_bytes. lia. }
  unfold sub_chunk_bytes.
  destruct (list_byte_of_string id_) as [|t0 [|t1 [|t2 [|t3 [|? ?]]]]];
    try discriminate tag_length.
  cbn -[le_uint Z.pow].
  assert (Hsz : le_uint (le_bytes 4 (py_len content)) = py_len content).
  { apply le_uint_le_bytes. unfold py_len in *. lia. }
  cbn [le_bytes] in Hsz.
  change (Z.to_nat (8 - 0)) with 8%nat. change (Z.to_nat 0) with 0%nat.
  cbn [take drop]. unfold struct_unpack.
  rewrite decide_True by reflexivity.
  cbn [unpack_items unpack_item item_size take drop].
  rewrite !take_0, Hsz. reflexivity.
Qed.

Lemma sub_chunk_content (k : Z) :
  0 ≤ k → k ≤ py_len content →
  py_slice data (cp + 8) (cp + 8 + k) = take (Z.to_nat k) content.
Proof.
  intros Hk Hkc. subst data cp. unfold sub_chunk_bytes.
  replace (pre ++ (list_byte_of_string id_ ++ le_bytes 4 (py_len content) ++ content) ++ post)
    with ((pre ++ list_byte_of_string id_ ++ le_bytes 4 (py_len content))
            ++ content ++ post)
    by (rewrite <- !app_assoc; reflexivity).
  assert (Hpre : py_len (pre ++ list_byte_of_string id_ ++ le_bytes 4 (py_len content))
                 = py_len pre + 8).
  { unfold py_len. rewrite !length_app, tag_length, length_le_bytes. lia. }
  rewrite <- Hpre.
  replace (py_len (pre ++ list_byte_of_string id_ ++ le_bytes 4 (py_len content)))
    with (py_len (pre ++ list_byte_of_string id_ ++ le_bytes 4 (py_len content)) + 0)
    at 1 by lia.
  rewrite py_slice_middle by lia.
  rewrite Z.sub_0_r. reflexivity.
Qed.

(** A text sub-chunk: the characters are the content bytes but the last
    one, stripped of the NUL characters at both ends. *)
Lemma parse_sub_chunk_text :
  id_ ∉ ["ifil"; "iver"]%string →
  parse_sub_chunk data cp id_ =
  Ok (Some (strip (chr 0) (byte_val <$> take (length content - 1) content),
            py_len content + 8)).
Proof.
  intros Hid. unfold parse_sub_chunk.
  rewrite sub_chunk_header, bind_Ok, tag_number, bind_Ok.
  rewrite get_int_0, bind_Ok.
  rewrite decide_False by tauto.
  rewrite get_int_1, bind_Ok.
  rewrite decide_False by exact Hid.
  unfold py_range. rewrite seqZ_to_nat.
  assert (Hlen : py_len data = py_len pre + 8 + py_len content + py_len post).
  { subst data. unfold sub_chunk_bytes, py_len.
    rewrite !length_app, tag_length, length_le_bytes. lia. }
  assert (0 ≤ py_len pre ∧ 0 ≤ py_len post ∧ 0 ≤ py_len content)
    by (unfold py_len; lia).
  rewrite foldM_chars; [| unfold cp; lia | unfold cp; lia].
  rewrite bind_Ok. do 3 f_equal. cbn [app]. f_equal.
  rewrite sub_chunk_content by lia.
  do 2 f_equal. unfold py_len. lia.
Qed.

(** A version sub-chunk of four content bytes. *)
Lemma parse_sub_chunk_version (b0 b1 b2 b3 : byte) :
  content = [b0; b1; b2; b3] →
  id_ ∈ ["ifil"; "iver"]%string →
  parse_sub_chunk data cp id_ =
  Ok (Some (fmt_int (Z.shiftl (byte_val b1) 8 + byte_val b0) ++ lit "."
            ++ fmt_int (Z.shiftl (byte_val b3) 8 + byte_val b2), 12)).
Proof.
  intros Hc Hid. unfold parse_sub_chunk.
  rewrite sub_chunk_header, bind_Ok, tag_number, bind_Ok.
  rewrite get_int_0, bind_Ok.
  rewrite decide_False by tauto.
  rewrite get_int_1, bind_Ok.
  rewrite decide_True by exact Hid.
  rewrite sub_chunk_content by (unfold py_len; lia).
  unfold py_len. rewrite Nat2Z.id, firstn_all, Hc.
  reflexivity.
Qed.
End SubChunk.

(** C8. For a version sub-chunk (tag [ifil] or [iver]) of four content
    bytes [b0, b1, b2, b3], found at the position handed to
    [parse_sub_chunk], the decoded value is the decimal form of
    [(b1 << 8) + b0], a dot, and the decimal form of [(b3 << 8) + b2], and
    the sub-chunk takes twelve bytes; the bytes [2, 1, 0, 0] give
    ["258.0"]. *)
Theorem version_sub_chunk (pre post : list byte) (id_ : string) (b0 b1 b2 b3 : byte) :
  id_ ∈ ["ifil"; "iver"]%string →
  parse_sub_chunk (pre ++ sub_chunk_bytes id_ [b0; b1; b2; b3] ++ post)
    (py_len pre) id_ =
  Ok (Some (fmt_int (Z.shiftl (byte_val b1) 8 + byte_val b0) ++ lit "."
            ++ fmt_int (Z.shiftl (byte_val b3) 8 + byte_val b2), 12))
  ∧ parse_sub_chunk (sub_chunk_bytes "ifil" [x02; x01; x00; x00]) 0 "ifil" =
    Ok (Some (lit "258.0", 12)).
Proof.
  intros Hid. split; [|reflexivity].
  apply parse_sub_chunk_version; try reflexivity; try exact Hid.
  - rewrite !elem_of_cons, elem_of_nil in Hid.
    destruct Hid as [->| [->|[]]]; reflexivity.
  - rewrite !elem_of_cons, elem_of_nil in Hid.
    destruct Hid as [->| [->|[]]]; reflexivity.
Qed.

Lemma version_sub_chunk_witness :
  parse_sub_chunk ([] ++ sub_chunk_bytes "ifil" [x02; x01; x00; x00] ++ [])
    (py_len (@nil byte)) "ifil" =
  Ok (Some (fmt_int (Z.shiftl (byte_val x01) 8 + byte_val x02) ++ lit "."
            ++ fmt_int (Z.shiftl (byte_val x00) 8 + byte_val x00), 12))
  ∧ parse_sub_chunk (sub_chunk_bytes "ifil" [x02; x01; x00; x00]) 0 "ifil" =
    Ok (Some (lit "258.0", 12)).
Proof.
  apply (version_sub_chunk [] [] "ifil" x02 x01 x00 x00).
  apply list_elem_of_here.
Defined.

(** ** Text fields *)

Lemma strip_cons_eq (c : Z) (s : str) : strip c (c :: s) = strip c s.
Proof. unfold strip. cbn. rewrite decide_True by reflexivity. reflexivity. Qed.

Lemma strip_cons_ne (c x : Z) (s : str) :
  x ≠ c → strip c (x :: s) = rstrip c (x :: s).
Proof. intros H. unfold strip. cbn. rewrite decide_False by exact H. reflexivity. Qed.

Lemma rstrip_snoc (c : Z) (s : str) : rstrip c (s ++ [c]) = rstrip c s.
Proof.
  unfold rstrip. rewrite rev_app_distr. cbn.
  rewrite decide_True by reflexivity. reflexivity.
Qed.

(** A NUL at the end of a string makes no difference to [strip]. *)
Lemma strip_snoc (c : Z) (s : str) : strip c (s ++ [c]) = strip c s.
Proof.
  induction s as [|x s IH].
  - cbn. unfold strip. cbn. rewrite decide_True by reflexivity. reflexivity.
  - cbn [app]. destruct (decide (x = c)) as [->|Hx].
    + rewrite !strip_cons_eq. exact IH.
    + rewrite !strip_cons_ne by exact Hx.
      change (x :: s ++ [c]) with ((x :: s) ++ [c]). apply rstrip_snoc.
Qed.

Lemma decode_utf8_ascii (bs : list byte) :
  Forall (λ b, byte_val b < 128) bs → decode_utf8 bs = Ok (byte_val <$> bs).
Proof.
  intros H. unfold decode_utf8. apply decode_utf8_vals_ascii.
  apply Forall_fmap. eapply Forall_impl; [exact H|].
  intros b Hb. unfold compose. cbn beta in Hb.
  pose proof (byte_val_range b). lia.
Qed.

Lemma decode_name_inv (bs : list byte) (n : str) :
  decode_name bs = Ok n → ∃ s, decode_utf8 bs = Ok s ∧ n = strip (chr 0) s.
Proof.
  unfold decode_name. intros H.
  apply bind_Ok_inv in H as (s & Hs & [= <-]). eauto.
Qed.

Lemma decode_record_cases {R : Type} (C : rec_class R) (bs : list byte) (r : R) :
  decode_record C bs = Ok r → init C (unpack_items (format C) bs) = Ok r.
Proof.
  unfold decode_record, struct_unpack.
  destruct (decide _); [intros H; exact H | discriminate].
Qed.

Lemma PHDR_name (bs : list byte) (r : PHDRRecord) :
  decode_record PHDR bs = Ok r → decode_name (take 20 bs) = Ok (preset_name r).
Proof.
  intros H. apply decode_record_cases in H.
  cbn [PHDR format init unpack_items unpack_item item_size] in H.
  apply bind_Ok_inv in H as (s & Hs & [= <-]). exact Hs.
Qed.

Lemma INST_name (bs : list byte) (r : INSTRecord) :
  decode_record INST bs = Ok r → decode_name (take 20 bs) = Ok (inst_name r).
Proof.
  intros H. apply decode_record_cases in H.
  cbn [INST format init unpack_items unpack_item item_size] in H.
  apply bind_Ok_inv in H as (s & Hs & [= <-]). exact Hs.
Qed.

Lemma SHDR_name (bs : list byte) (r : SHDRRecord) :
  decode_record SHDR bs = Ok r → decode_name (take 20 bs) = Ok (sample_name r).
Proof.
  intros H. apply decode_record_cases in H.
  cbn [SHDR format init unpack_items unpack_item item_size] in H.
  apply bind_Ok_inv in H as (s & Hs & [= <-]). exact Hs.
Qed.

Lemma catalog_tag (id_ : string) (name : string * bool) :
  (id_, name) ∈ chunks →
  length (list_byte_of_string id_) = 4%nat
  ∧ chunk_id id_ = Ok (le_uint (list_byte_of_string id_)).
Proof.
  unfold chunks. rewrite !elem_of_cons, elem_of_nil.
  intros H. repeat (destruct H as [[= -> _]|H]; [split; reflexivity|]).
  destruct H.
Qed.

(** A textual sub-chunk of the catalog, whatever its content: the
    characters are those of the content bytes but the last one, which the
    loop does not reach, stripped of the NUL characters at both ends. *)
Lemma text_sub_chunk (pre post : list byte) (id_ : string) (name : string * bool)
    (content : list byte) :
  (id_, name) ∈ chunks → id_ ∉ ["ifil"; "iver"]%string →
  py_len content < 2 ^ 32 →
  parse_sub_chunk (pre ++ sub_chunk_bytes id_ content ++ post) (py_len pre) id_ =
  Ok (Some (strip 0 (byte_val <$> take (length content - 1) content),
            py_len content + 8)).
Proof.
  intros Hcat Hid Hsz. destruct (catalog_tag id_ name Hcat) as [Hl Hn].
  apply parse_sub_chunk_text; assumption.
Qed.

(** A target-engine sub-chunk whose four content bytes are ["EMU8"], with
    no NUL terminator, decodes to ["EMU"]. *)
Example text_sub_chunk_unterminated :
  parse_sub_chunk (sub_chunk_bytes "isng" [x45; x4d; x55; x38]) 0 "isng"
  = Ok (Some (lit "EMU", 12)).
Proof. reflexivity. Qed.

(** C9 (amended). The name of a preset, instrument or sample record is the
    UTF-8 decoding of the 20-byte field with the NUL characters removed at
    both ends, the leading ones as well as the trailing ones, and nothing
    else removed; bytes below 128 decode to themselves. A textual metadata
    sub-chunk of declared size [S] whose content ends with a NUL
    terminator decodes to the characters of its [S] content bytes, one
    character per byte, with the NUL characters removed at both ends and
    nothing else removed. *)
Theorem text_fields_stripped :
  (∀ bs r, decode_record PHDR bs = Ok r →
     ∃ s, decode_utf8 (take 20 bs) = Ok s ∧ preset_name r = strip 0 s)
  ∧ (∀ bs r, decode_record INST bs = Ok r →
     ∃ s, decode_utf8 (take 20 bs) = Ok s ∧ inst_name r = strip 0 s)
  ∧ (∀ bs r, decode_record SHDR bs = Ok r →
     ∃ s, decode_utf8 (take 20 bs) = Ok s ∧ sample_name r = strip 0 s)
  ∧ (∀ bs, Forall (λ b, byte_val b < 128) bs →
     decode_utf8 bs = Ok (byte_val <$> bs))
  ∧ (∀ s, ∃ i j : nat,
       s = replicate i 0 ++ strip 0 s ++ replicate j 0
       ∧ head (strip 0 s) ≠ Some 0
       ∧ last (strip 0 s) ≠ Some 0)
  ∧ (∀ pre post id_ name body,
       (id_, name) ∈ chunks → id_ ∉ ["ifil"; "iver"]%string →
       py_len (body ++ [x00]) < 2 ^ 32 →
       parse_sub_chunk (pre ++ sub_chunk_bytes id_ (body ++ [x00]) ++ post)
         (py_len pre) id_ =
       Ok (Some (strip 0 (byte_val <$> (body ++ [x00])),
                 py_len (body ++ [x00]) + 8))).
Proof.
  repeat split.
  - intros bs r H. apply PHDR_name, decode_name_inv in H as (s & Hs & Hn). eauto.
  - intros bs r H. apply INST_name, decode_name_inv in H as (s & Hs & Hn). eauto.
  - intros bs r H. apply SHDR_name, decode_name_inv in H as (s & Hs & Hn). eauto.
  - apply decode_utf8_ascii.
  - apply strip_spec.
  - intros pre post id_ name body Hcat Hid Hsz.
    rewrite (text_sub_chunk pre post id_ name _ Hcat Hid Hsz).
    do 3 f_equal. rewrite length_app. cbn [length].
    replace (length body + 1 - 1)%nat with (length body) by lia.
    rewrite take_app_length, fmap_app. cbn.
    symmetry. apply (strip_snoc 0).
Qed.

Lemma text_fields_stripped_witness :
  (∃ s, decode_utf8 (take 20 (x00 :: x41 :: replicate 36 x00)) = Ok s
        ∧ lit "A" = strip 0 s)
  ∧ parse_sub_chunk
      ([] ++ sub_chunk_bytes "isng" ([x00; x45; x4d; x55] ++ [x00]) ++ [])
      (py_len (@nil byte)) "isng" =
    Ok (Some (strip 0 (byte_val <$> ([x00; x45; x4d; x55] ++ [x00])),
              py_len ([x00; x45; x4d; x55] ++ [x00]) + 8)).
Proof.
  destruct text_fields_stripped as (Hphdr & _ & _ & _ & _ & Hmeta).
  split.
  - apply (Hphdr (x00 :: x41 :: replicate 36 x00)
             {| preset_name := lit "A"; preset := 0; bank := 0; bag_ndx := 0 |}).
    reflexivity.
  - apply (Hmeta [] [] "isng"%string ("Target Sound Engine"%string, true)
             [x00; x45; x4d; x55]).
    + unfold chunks. apply list_elem_of_further, list_elem_of_here.
    + rewrite !elem_of_cons, elem_of_nil. intros [H|[H|[]]]; discriminate H.
    + vm_compute. reflexivity.
Defined.

(** A name field and a target-engine sub-chunk that start with a NUL: the
    decoded strings have lost it, so they are not the bytes with the
    trailing NULs removed, which still start with it. *)
Lemma text_fields_counterexample :
  decode_name (x00 :: x41 :: replicate 18 x00) = Ok (lit "A")
  ∧ rstrip 0 (byte_val <$> (x00 :: x41 :: replicate 18 x00)) = [0; 65]
  ∧ parse_sub_chunk (sub_chunk_bytes "isng" [x00; x45; x4d; x55; x00]) 0 "isng"
    = Ok (Some (lit "EMU", 13))
  ∧ rstrip 0 (byte_val <$> [x00; x45; x4d; x55; x00]) = [0; 69; 77; 85].
Proof. vm_compute. repeat split; reflexivity. Qed.

(** ** Sorting the preset headers *)

Section PySort.
Context {A : Type} (key : A → Z).

Lemma insert_by_perm (x : A) (l : list A) : insert_by key x l ≡ₚ x :: l.
Proof.
  induction l as [|y l IH]; cbn; [reflexivity|].
  destruct (key x <=? key y); [reflexivity|].
  rewrite IH. apply Permutation_swap.
Qed.

Lemma py_sort_perm (l : list A) : py_sort key l ≡ₚ l.
Proof.
  induction l as [|x l IH]; cbn; [reflexivity|].
  rewrite insert_by_perm, IH. reflexivity.
Qed.

Lemma insert_by_sorted (x : A) (l : list A) :
  StronglySorted (key_le key) l → StronglySorted (key_le key) (insert_by key x l).
Proof.
  induction 1 as [|y l Hl IH Hy]; cbn.
  - repeat constructor.
  - destruct (Z.leb_spec (key x) (key y)) as [Hxy|Hxy].
    + constructor; [constructor; assumption|].
      constructor; [exact Hxy|].
      eapply Forall_impl; [exact Hy|]. unfold key_le. intros; cbn in *; lia.
    + constructor; [exact IH|].
      rewrite insert_by_perm. constructor; [unfold key_le; lia | exact Hy].
Qed.

Lemma py_sort_sorted (l : list A) : StronglySorted (key_le key) (py_sort key l).
Proof.
  induction l as [|x l IH]; cbn; [constructor | apply insert_by_sorted, IH].
Qed.

(** Stability: the elements of one key keep their order. *)
Lemma insert_by_filter (k : Z) (x : A) (l : list A) :
  filter (λ y, key y = k) (insert_by key x l) =
  filter (λ y, key y = k) (x :: l).
Proof.
  induction l as [|y l IH]; cbn; [reflexivity|].
  destruct (Z.leb_spec (key x) (key y)) as [Hxy|Hxy]; [reflexivity|].
  rewrite (filter_cons _ y), IH, !filter_cons.
  destruct (decide (key y = k)), (decide (key x = k)); try reflexivity.
  lia.
Qed.

Lemma py_sort_filter (k : Z) (l : list A) :
  filter (λ y, key y = k) (py_sort key l) = filter (λ y, key y = k) l.
Proof.
  induction l as [|x l IH]; cbn [py_sort]; [reflexivity|].
  rewrite insert_by_filter, !filter_cons, IH. reflexivity.
Qed.

Lemma py_sort_id (l : list A) : StronglySorted (key_le key) l → py_sort key l = l.
Proof.
  induction 1 as [|x l Hl IH Hx]; cbn; [reflexivity|].
  rewrite IH. destruct l as [|y l]; [reflexivity|]. cbn.
  apply Forall_cons in Hx as [Hxy _]. unfold key_le in Hxy.
  destruct (Z.leb_spec (key x) (key y)); [reflexivity | lia].
Qed.
End PySort.

(** C4 (amended). [process] sorts the preset-header array in place by bank
    number: after it has run, whether it returned or raised, the array is
    the stable sort of the parsed one, that is a permutation of it, in
    non-decreasing bank order, in which the headers of each bank keep
    their parsed order; it is the parsed array itself when that was
    already in bank order. The other eight arrays are left as parsed. *)
Theorem process_frame (a : arrays) :
  phdr (process a).1 = py_sort bank (phdr a)
  ∧ phdr (process a).1 ≡ₚ phdr a
  ∧ StronglySorted (key_le bank) (phdr (process a).1)
  ∧ (∀ b, filter (λ r, bank r = b) (phdr (process a).1)
          = filter (λ r, bank r = b) (phdr a))
  ∧ (StronglySorted (key_le bank) (phdr a) → (process a).1 = a)
  ∧ pbag (process a).1 = pbag a
  ∧ pmod (process a).1 = pmod a
  ∧ pgen (process a).1 = pgen a
  ∧ inst (process a).1 = inst a
  ∧ ibag (process a).1 = ibag a
  ∧ imod (process a).1 = imod a
  ∧ igen (process a).1 = igen a
  ∧ shdr (process a).1 = shdr a.
Proof.
  unfold process, sorted_phdr; cbn [fst phdr pbag pmod pgen inst ibag imod igen shdr].
  repeat split.
  - apply py_sort_perm.
  - apply py_sort_sorted.
  - intros b. apply py_sort_filter.
  - intros Hs. rewrite (py_sort_id bank _ Hs). destruct a; reflexivity.
Qed.

Lemma process_frame_witness :
  phdr (process two_banks).1 = py_sort bank (phdr two_banks)
  ∧ (StronglySorted (key_le bank) (phdr (process two_banks).1) →
     (process (process two_banks).1).1 = (process two_banks).1).
Proof.
  destruct (process_frame two_banks) as (H1 & _).
  destruct (process_frame (process two_banks).1) as (_ & _ & _ & _ & H5 & _).
  split; [exact H1 | exact H5].
Defined.

(** Two preset headers parsed in the order bank 1, bank 0: [process]
    returns normally and leaves them in the order bank 0, bank 1. *)
Lemma process_reorders_counterexample :
  (∃ banks, (process two_banks).2 = Ok banks)
  ∧ bank <$> phdr two_banks = [1; 0]
  ∧ bank <$> phdr (process two_banks).1 = [0; 1]
  ∧ phdr (process two_banks).1 ≠ phdr two_banks.
Proof.
  split; [eexists; vm_compute; reflexivity|].
  vm_compute. repeat split; congruence.
Qed.

(** ** The next start index *)

Lemma next_step_fold (z : Z) (l : list Z) (res : option Z) :
  match fold_left (next_step z) l res with
  | None => res = None ∧ ∀ m, m ∈ l → m ≤ z
  | Some n =>
    (n ∈ l ∧ z < n ∨ res = Some n)
    ∧ (∀ m, m ∈ l → z < m → n ≤ m)
    ∧ (∀ r, res = Some r → n ≤ r)
  end.
Proof.
  revert res; induction l as [|x l IH]; intros res; cbn [fold_left].
  - destruct res as [r|].
    + split; [right; reflexivity|]. split.
      * intros m Hm. apply elem_of_nil in Hm as [].
      * intros r' [= ->]. lia.
    + split; [reflexivity|]. intros m Hm. apply elem_of_nil in Hm as [].
  - specialize (IH (next_step z res x)).
    destruct (fold_left (next_step z) l (next_step z res x)) as [n|].
    + destruct IH as (Hn & Hmin & Hres).
      unfold next_step in Hn, Hres.
      destruct (Z.gtb_spec x z) as [Hx|Hx].
      * destruct res as [r|].
        -- destruct (Z.ltb_spec x r) as [Hxr|Hxr].
           ++ split; [|split].
              ** left. destruct Hn as [[Hn Hz]|[= <-]].
                 --- split; [right; exact Hn | exact Hz].
                 --- split; [left | lia].
              ** intros m Hm Hz. apply elem_of_cons in Hm as [->|Hm]; [|auto].
                 specialize (Hres x eq_refl). lia.
              ** intros r' [= <-]. specialize (Hres x eq_refl). lia.
           ++ split; [|split].
              ** destruct Hn as [[Hn Hz]|Hn]; [left|right; exact Hn].
                 split; [right; exact Hn | exact Hz].
              ** intros m Hm Hz. apply elem_of_cons in Hm as [->|Hm]; [|auto].
                 specialize (Hres r eq_refl). lia.
              ** intros r' [= <-]. apply Hres. reflexivity.
        -- split; [|split].
           ++ left. destruct Hn as [[Hn Hz]|[= <-]].
              ** split; [right; exact Hn | exact Hz].
              ** split; [left | lia].
           ++ intros m Hm Hz. apply elem_of_cons in Hm as [->|Hm]; [|auto].
              specialize (Hres x eq_refl). lia.
           ++ intros r' [=].
      * split; [|split].
        -- destruct Hn as [[Hn Hz]|Hn]; [left|right; exact Hn].
           split; [right; exact Hn | exact Hz].
        -- intros m Hm Hz. apply elem_of_cons in Hm as [->|Hm]; [lia|auto].
        -- exact Hres.
    + destruct IH as (Hnone & Hall).
      unfold next_step in Hnone.
      destruct (Z.gtb_spec x z) as [Hx|Hx].
      * destruct res as [r|]; [|discriminate].
        destruct (x <? r); discriminate.
      * split; [exact Hnone|].
        intros m Hm. apply elem_of_cons in Hm as [->|Hm]; [lia|auto].
Qed.

Lemma fold_left_fmap {A B C : Type} (f : C → B → C) (g : A → B) (l : list A) (c : C) :
  fold_left (λ c x, f c (g x)) l c = fold_left f (g <$> l) c.
Proof. revert c; induction l as [|x l IH]; intros c; cbn; [reflexivity | apply IH]. Qed.

(** [next_bag] finds the smallest bag index strictly greater than the
    bound, and nothing when there is none. *)
Lemma next_bag_spec (hs : list PHDRRecord) (z : Z) :
  match next_bag hs z with
  | Some n => is_next (bag_ndx <$> hs) z n
  | None => ∀ m, m ∈ bag_ndx <$> hs → m ≤ z
  end.
Proof.
  unfold next_bag. rewrite (fold_left_fmap (next_step z) bag_ndx).
  pose proof (next_step_fold z (bag_ndx <$> hs) None) as H.
  destruct (fold_left _ _ _) as [n|].
  - destruct H as ([[Hn Hz]|[=]] & Hmin & _). split; [exact Hn|]. split; auto.
  - destruct H as [_ H]. exact H.
Qed.

Lemma next_gen_spec (bs : list XBAGRecord) (z : Z) :
  match next_gen bs z with
  | Some n => is_next (gen_ndx <$> bs) z n
  | None => ∀ m, m ∈ gen_ndx <$> bs → m ≤ z
  end.
Proof.
  unfold next_gen. rewrite (fold_left_fmap (next_step z) gen_ndx).
  pose proof (next_step_fold z (gen_ndx <$> bs) None) as H.
  destruct (fold_left _ _ _) as [n|].
  - destruct H as ([[Hn Hz]|[=]] & Hmin & _). split; [exact Hn|]. split; auto.
  - destruct H as [_ H]. exact H.
Qed.

Lemma is_next_unique (zs : list Z) (z n n' : Z) :
  is_next zs z n → is_next zs z n' → n = n'.
Proof.
  intros (Hn & Hz & Hmin) (Hn' & Hz' & Hmin').
  specialize (Hmin n' Hn' Hz'). specialize (Hmin' n Hn Hz). lia.
Qed.

Lemma is_next_perm (zs zs' : list Z) (z n : Z) :
  zs ≡ₚ zs' → is_next zs z n → is_next zs' z n.
Proof.
  intros Hp (Hn & Hz & Hmin). split; [|split].
  - rewrite <- Hp. exact Hn.
  - exact Hz.
  - intros m Hm. apply Hmin. rewrite Hp. exact Hm.
Qed.

(** ** The loop over the preset headers *)

Lemma mapM_result_Forall2 {A B : Type} (f : A → result B) (l : list A) (ys : list B) :
  mapM_result f l = Ok ys → Forall2 (λ x y, f x = Ok y) l ys.
Proof.
  revert ys; induction l as [|x l IH]; intros ys; cbn.
  - intros [= <-]. constructor.
  - intros H. apply bind_Ok_inv in H as (y & Hy & H).
    apply bind_Ok_inv in H as (ys' & Hys & [= <-]).
    constructor; auto.
Qed.

(** A loop whose body extends the accumulator by what it computes from the
    element alone is the computation for every element followed by the
    accumulation. *)
Lemma foldM_mapM {A B C : Type} (step : C → A → result C) (g : A → result B)
    (f : C → B → C) (l : list A) (c : C) :
  (∀ c x, step c x = y ← g x; Ok (f c y)) →
  foldM step c l = ys ← mapM_result g l; Ok (fold_left f ys c).
Proof.
  intros Hstep. revert c; induction l as [|x l IH]; intros c; cbn; [reflexivity|].
  rewrite Hstep. destruct (g x) as [y|e]; [|reflexivity].
  rewrite !bind_Ok, IH.
  destruct (mapM_result g l) as [ys|e]; reflexivity.
Qed.

Section ProcessLoop.
Variable a : arrays.

Lemma rec_step_eq (banks : gmap Z (list BankEntry.t)) (rec : PHDRRecord) :
  rec_step a banks rec =
  e ← bank_entry a rec; Ok (add_entry banks (bank rec) e).
Proof.
  unfold rec_step, bank_entry, instruments_of.
  destruct (foldM (bag_step a) [] _) as [ins|e]; [|reflexivity].
  rewrite !bind_Ok. unfold add_entry.
  destruct (decide (bank rec ∈ dom banks)) as [Hin|Hout].
  - apply elem_of_dom in Hin as (l & Hl). rewrite Hl. reflexivity.
  - apply not_elem_of_dom in Hout. rewrite lookup_insert_eq, Hout.
    cbn. rewrite insert_insert_eq. reflexivity.
Qed.

Lemma foldM_rec_step (l : list PHDRRecord) (banks0 : gmap Z (list BankEntry.t)) :
  foldM (rec_step a) banks0 l =
  ps ← mapM_result (λ rec, e ← bank_entry a rec; Ok (bank rec, e)) l;
  Ok (fold_left (λ m p, add_entry m p.1 p.2) ps banks0).
Proof.
  apply foldM_mapM. intros banks rec. rewrite rec_step_eq.
  destruct (bank_entry a rec); reflexivity.
Qed.
End ProcessLoop.

Lemma lookup_add_entries (ps : list (Z * BankEntry.t))
    (m : gmap Z (list BankEntry.t)) (b : Z) :
  fold_left (λ m p, add_entry m p.1 p.2) ps m !! b =
  match snd <$> filter (λ p, p.1 = b) ps with
  | [] => m !! b
  | es => Some (default [] (m !! b) ++ es)
  end.
Proof.
  revert m; induction ps as [|[b' e] ps IH]; intros m; cbn [fold_left]; [reflexivity|].
  rewrite IH, filter_cons. cbn [fst snd]. unfold add_entry.
  destruct (decide (b' = b)) as [->|Hb].
  - rewrite lookup_insert_eq. cbn [fmap list_fmap default].
    destruct (snd <$> filter _ ps) as [|e' es].
    + reflexivity.
    + unfold id. cbn [snd]. rewrite <- app_assoc. reflexivity.
  - rewrite lookup_insert_ne by exact Hb. reflexivity.
Qed.

Lemma Forall2_filter_bank (a : arrays) (b : Z) (l : list PHDRRecord)
    (ps : list (Z * BankEntry.t)) :
  Forall2 (λ rec p, (e ← bank_entry a rec; Ok (bank rec, e)) = Ok p) l ps →
  Forall2 (λ rec e, bank_entry a rec = Ok e)
    (filter (λ r, bank r = b) l) (snd <$> filter (λ p, p.1 = b) ps).
Proof.
  induction 1 as [|rec p l ps Hp _ IH]; [constructor|].
  apply bind_Ok_inv in Hp as (e & He & [= <-]).
  rewrite !filter_cons. cbn [fst].
  destruct (decide (bank rec = b)); [constructor; assumption | exact IH].
Qed.

(** When [process] returns, the entries of each bank are those of the
    preset headers of that bank, in their parsed order; a bank without
    preset header has no key. *)
Lemma process_banks (a : arrays) (banks : gmap Z (list BankEntry.t)) :
  (process a).2 = Ok banks →
  ∀ b, ∃ es,
    Forall2 (λ rec e, bank_entry a rec = Ok e)
      (filter (λ r, bank r = b) (phdr a)) es
    ∧ banks !! b = match es with [] => None | _ => Some es end.
Proof.
  unfold process; cbn [snd]. rewrite foldM_rec_step.
  intros H. apply bind_Ok_inv in H as (ps & Hps & [= <-]).
  intros b. exists (snd <$> filter (λ p, p.1 = b) ps). split.
  - rewrite <- (py_sort_filter bank b (phdr a)).
    apply Forall2_filter_bank, mapM_result_Forall2, Hps.
  - rewrite lookup_add_entries, lookup_empty. cbn.
    destruct (snd <$> filter _ ps); reflexivity.
Qed.

(** ** Zone counts *)

Lemma zones_of_spec (a : arrays) (rec : PHDRRecord) :
  (∀ n, is_next (bag_ndx <$> phdr a) (bag_ndx rec) n →
        zones_of a rec = n - bag_ndx rec)
  ∧ ((∀ m, m ∈ bag_ndx <$> phdr a → m ≤ bag_ndx rec) →
        zones_of a rec = py_len (pbag a) - bag_ndx rec)
  ∧ ((∃ n, is_next (bag_ndx <$> phdr a) (bag_ndx rec) n)
     ∨ (∀ m, m ∈ bag_ndx <$> phdr a → m ≤ bag_ndx rec)).
Proof.
  assert (Hp : bag_ndx <$> sorted_phdr a ≡ₚ bag_ndx <$> phdr a).
  { unfold sorted_phdr. rewrite py_sort_perm. reflexivity. }
  unfold zones_of.
  pose proof (next_bag_spec (sorted_phdr a) (bag_ndx rec)) as H.
  destruct (next_bag (sorted_phdr a) (bag_ndx rec)) as [n|].
  - apply (is_next_perm _ _ _ _ Hp) in H. split; [|split].
    + intros n' Hn'. rewrite (is_next_unique _ _ _ _ Hn' H). reflexivity.
    + intros Hall. destruct H as (Hn & Hz & _). specialize (Hall n Hn). lia.
    + left. eauto.
  - assert (Hall : ∀ m, m ∈ bag_ndx <$> phdr a → m ≤ bag_ndx rec).
    { intros m Hm. apply H. rewrite Hp. exact Hm. }
    split; [|split].
    + intros n (Hn & Hz & _). specialize (Hall n Hn). lia.
    + reflexivity.
    + right. exact Hall.
Qed.

(** C1. For every preset header with zone-start index [z], the zone count
    [process] computes is [n - z] when [n] is the smallest zone-start index
    of a preset header strictly greater than [z], and [len(pbag) - z] when
    no preset header has a zone-start index strictly greater than [z], as
    for the header with the largest zone-start index; one of the two cases
    always applies. When [process] returns, every bank holds one entry per
    preset header of that bank, in order, carrying the header's preset
    number, name and zone-start index and this zone count. *)
Theorem zone_count (a : arrays) :
  (∀ rec,
     (∀ n, is_next (bag_ndx <$> phdr a) (bag_ndx rec) n →
           zones_of a rec = n - bag_ndx rec)
     ∧ ((∀ m, m ∈ bag_ndx <$> phdr a → m ≤ bag_ndx rec) →
           zones_of a rec = py_len (pbag a) - bag_ndx rec)
     ∧ ((∃ n, is_next (bag_ndx <$> phdr a) (bag_ndx rec) n)
        ∨ (∀ m, m ∈ bag_ndx <$> phdr a → m ≤ bag_ndx rec)))
  ∧ (∀ banks, (process a).2 = Ok banks →
       ∀ b, ∃ es,
         Forall2 (λ rec e,
                    BankEntry.preset e = preset rec
                    ∧ BankEntry.name e = preset_name rec
                    ∧ BankEntry.bag_ndx e = bag_ndx rec
                    ∧ BankEntry.zones e = zones_of a rec)
           (filter (λ r, bank r = b) (phdr a)) es
         ∧ banks !! b = match es with [] => None | _ => Some es end).
Proof.
  split; [apply zones_of_spec|].
  intros banks Hb b. destruct (process_banks a banks Hb b) as (es & HF & Hl).
  exists es. split; [|exact Hl].
  eapply Forall2_impl; [exact HF|].
  intros rec e He. apply bind_Ok_inv in He as (ins & _ & [= <-]).
  repeat split.
Qed.

Lemma zone_count_witness :
  ∃ banks, (process small_bank).2 = Ok banks
  ∧ ∀ b, ∃ es,
      Forall2 (λ rec e,
                 BankEntry.preset e = preset rec
                 ∧ BankEntry.name e = preset_name rec
                 ∧ BankEntry.bag_ndx e = bag_ndx rec
                 ∧ BankEntry.zones e = zones_of small_bank rec)
        (filter (λ r, bank r = b) (phdr small_bank)) es
      ∧ banks !! b = match es with [] => None | _ => Some es end.
Proof.
  destruct (process small_bank).2 as [banks|e] eqn:H; [|vm_compute in H; discriminate H].
  exists banks. split; [reflexivity|].
  destruct (zone_count small_bank) as [_ Hz]. apply Hz. exact H.
Defined.

Example zone_count_small_bank :
  zones_of small_bank {| preset_name := lit "Lead"; preset := 0; bank := 1; bag_ndx := 0 |} = 2
  ∧ zones_of small_bank {| preset_name := lit "Bass"; preset := 5; bank := 0; bag_ndx := 2 |} = 1.
Proof. split; reflexivity. Qed.

(** ** Instrument lists *)

Lemma first_occurrences_seen (seen seen' l : list str) :
  (∀ x, x ∈ seen ↔ x ∈ seen') →
  first_occurrences seen l = first_occurrences seen' l.
Proof.
  revert seen seen'; induction l as [|x l IH]; intros seen seen' H; cbn; [reflexivity|].
  destruct (decide (x ∈ seen)) as [Hx|Hx], (decide (x ∈ seen')) as [Hx'|Hx'].
  - apply IH, H.
  - exfalso. apply Hx', H, Hx.
  - exfalso. apply Hx, H, Hx'.
  - f_equal. apply IH. intros y. rewrite !elem_of_cons, H. reflexivity.
Qed.

(** Appending the new names one by one keeps what was there and adds the
    first occurrences of the names not seen yet. *)
Lemma fold_append_new (refs acc : list str) :
  fold_left append_new refs acc = acc ++ first_occurrences acc refs.
Proof.
  revert acc; induction refs as [|x refs IH]; intros acc; cbn.
  - rewrite app_nil_r. reflexivity.
  - rewrite IH. unfold append_new.
    destruct (decide (x ∈ acc)) as [Hx|Hx]; [reflexivity|].
    rewrite <- app_assoc. cbn. do 2 f_equal.
    apply first_occurrences_seen. intros y.
    rewrite elem_of_app, !elem_of_cons, elem_of_nil. tauto.
Qed.

Lemma first_occurrences_elem (seen l : list str) (x : str) :
  x ∈ first_occurrences seen l ↔ x ∈ l ∧ x ∉ seen.
Proof.
  revert seen; induction l as [|y l IH]; intros seen; cbn.
  - rewrite elem_of_nil. tauto.
  - destruct (decide (y ∈ seen)) as [Hy|Hy].
    + rewrite IH, elem_of_cons. split; [tauto|].
      intros [[->|Hx] Hs]; [contradiction | tauto].
    + rewrite !elem_of_cons, IH, elem_of_cons. split.
      * intros [->|[Hx Hs]]; [tauto|]. tauto.
      * intros [[->|Hx] Hs]; [tauto|].
        destruct (decide (x = y)); [tauto|]. right. tauto.
Qed.

Lemma first_occurrences_NoDup (seen l : list str) : NoDup (first_occurrences seen l).
Proof.
  revert seen; induction l as [|y l IH]; intros seen; cbn; [constructor|].
  destruct (decide (y ∈ seen)); [apply IH|].
  constructor; [|apply IH].
  rewrite first_occurrences_elem, elem_of_cons. tauto.
Qed.

Lemma first_occurrences_sublist (seen l : list str) :
  first_occurrences seen l `sublist_of` l.
Proof.
  revert seen; induction l as [|y l IH]; intros seen; cbn; [constructor|].
  destruct (decide (y ∈ seen)).
  - apply sublist_cons, IH.
  - apply sublist_skip, IH.
Qed.

Lemma NoDup_filter_one (l : list str) (x : str) :
  NoDup l → x ∈ l → length (filter (λ y, y = x) l) = 1%nat.
Proof.
  induction 1 as [|y l Hy Hl IH]; intros Hx.
  - apply elem_of_nil in Hx as [].
  - rewrite filter_cons. destruct (decide (y = x)) as [->|Hne].
    + cbn. f_equal. apply length_zero_iff_nil.
      destruct (filter (λ y, y = x) l) as [|z t] eqn:Hf; [reflexivity|].
      exfalso. assert (Hz : z ∈ filter (λ y, y = x) l) by (rewrite Hf; left).
      apply list_elem_of_filter in Hz as [-> Hz]. contradiction.
    + apply IH. apply elem_of_cons in Hx as [->|Hx]; [congruence | exact Hx].
Qed.

Section Instruments.
Variable a : arrays.

Lemma gen_step_eq (acc : list str) (gen_idx : Z) :
  gen_step a acc gen_idx =
  refs ← gen_refs a gen_idx; Ok (fold_left append_new refs acc).
Proof.
  unfold gen_step, gen_refs.
  destruct (py_index (pgen a) gen_idx) as [gen|e]; [|reflexivity].
  rewrite !bind_Ok. destruct (decide (gen_oper gen = 41)); [|reflexivity].
  destruct (py_index (inst a) (gen_amount gen)); reflexivity.
Qed.

Lemma fold_left_concat (rs : list (list str)) (acc : list str) :
  fold_left (λ acc refs, fold_left append_new refs acc) rs acc
  = fold_left append_new (concat rs) acc.
Proof.
  revert acc; induction rs as [|r rs IH]; intros acc; cbn; [reflexivity|].
  rewrite fold_left_app. apply IH.
Qed.

Lemma bag_step_eq (acc : list str) (bag_idx : Z) :
  bag_step a acc bag_idx =
  refs ← bag_refs a bag_idx; Ok (fold_left append_new refs acc).
Proof.
  unfold bag_step, bag_refs.
  destruct (py_index (pbag a) bag_idx) as [bag|e]; [|reflexivity].
  rewrite !bind_Ok.
  rewrite (foldM_mapM (gen_step a) (gen_refs a)
             (λ acc refs, fold_left append_new refs acc))
    by apply gen_step_eq.
  destruct (mapM_result _ _) as [rs|e]; [|reflexivity].
  rewrite !bind_Ok. f_equal. apply fold_left_concat.
Qed.

(** The instrument list of a preset header is the list of the names its
    generators refer to, each kept at its first appearance. *)
Lemma instruments_of_refs (rec : PHDRRecord) :
  instruments_of a rec =
  refs ← preset_refs a rec; Ok (first_occurrences [] refs).
Proof.
  unfold instruments_of, preset_refs.
  rewrite (foldM_mapM (bag_step a) (bag_refs a)
             (λ acc refs, fold_left append_new refs acc))
    by apply bag_step_eq.
  destruct (mapM_result _ _) as [rs|e]; [|reflexivity].
  rewrite !bind_Ok. f_equal.
  rewrite fold_left_concat, fold_append_new. reflexivity.
Qed.
End Instruments.

(** The generator count of a zone, read against [is_next]. *)
Lemma gens_of_ranges (a : arrays) (bag : XBAGRecord) :
  (∀ n, is_next (gen_ndx <$> pbag a) (gen_ndx bag) n →
        gens_of a bag = n - gen_ndx bag)
  ∧ ((∀ m, m ∈ gen_ndx <$> pbag a → m ≤ gen_ndx bag) →
        gens_of a bag = py_len (pgen a) - gen_ndx bag)
  ∧ ((∃ n, is_next (gen_ndx <$> pbag a) (gen_ndx bag) n)
     ∨ (∀ m, m ∈ gen_ndx <$> pbag a → m ≤ gen_ndx bag)).
Proof.
  unfold gens_of.
  pose proof (next_gen_spec (pbag a) (gen_ndx bag)) as H.
  destruct (next_gen (pbag a) (gen_ndx bag)) as [n|]; (split; [|split]).
  - intros n' Hn'. rewrite (is_next_unique _ _ _ _ Hn' H). reflexivity.
  - intros Hall. destruct H as (Hn & Hz & _). specialize (Hall n Hn). lia.
  - left. eauto.
  - intros n (Hn & Hz & _). specialize (H n Hn). lia.
  - reflexivity.
  - right. exact H.
Qed.

(** C7. For every preset header, the instrument list [process] builds is
    the list of the instrument names referred to by the operator-41
    generators of the preset's zones, in zone and generator order, each
    name kept at its first appearance only: the list has no duplicate, it
    has the same names as the references, in the order of the references,
    and a name referred to several times (as by two generators pointing at
    the same instrument) occurs exactly once. When [process] returns, the
    entries of every bank carry these lists. The zones of a preset are the
    [n - z] zones from its zone-start index [z] up to the smallest greater
    zone-start index [n] of a preset header, or the [len(pbag) - z] zones
    up to the end of the zone array when there is none; the generators of
    a zone are delimited in the same way by the generator-start indices of
    the zones and the end of the generator array. *)
Theorem instruments_unique (a : arrays) :
  (∀ rec, instruments_of a rec =
          refs ← preset_refs a rec; Ok (first_occurrences [] refs))
  ∧ (∀ refs : list str,
       NoDup (first_occurrences [] refs)
       ∧ (∀ x, x ∈ first_occurrences [] refs ↔ x ∈ refs)
       ∧ first_occurrences [] refs `sublist_of` refs
       ∧ (∀ x, x ∈ refs →
            length (filter (λ y, y = x) (first_occurrences [] refs)) = 1%nat))
  ∧ (∀ banks, (process a).2 = Ok banks →
       ∀ b, ∃ es,
         Forall2 (λ rec e,
                    ∃ refs, preset_refs a rec = Ok refs
                          ∧ BankEntry.instruments e = first_occurrences [] refs)
           (filter (λ r, bank r = b) (phdr a)) es
         ∧ banks !! b = match es with [] => None | _ => Some es end)
  ∧ (∀ rec,
       (∀ n, is_next (bag_ndx <$> phdr a) (bag_ndx rec) n →
             zones_of a rec = n - bag_ndx rec)
       ∧ ((∀ m, m ∈ bag_ndx <$> phdr a → m ≤ bag_ndx rec) →
             zones_of a rec = py_len (pbag a) - bag_ndx rec)
       ∧ ((∃ n, is_next (bag_ndx <$> phdr a) (bag_ndx rec) n)
          ∨ (∀ m, m ∈ bag_ndx <$> phdr a → m ≤ bag_ndx rec)))
  ∧ (∀ bag,
       (∀ n, is_next (gen_ndx <$> pbag a) (gen_ndx bag) n →
             gens_of a bag = n - gen_ndx bag)
       ∧ ((∀ m, m ∈ gen_ndx <$> pbag a → m ≤ gen_ndx bag) →
             gens_of a bag = py_len (pgen a) - gen_ndx bag)
       ∧ ((∃ n, is_next (gen_ndx <$> pbag a) (gen_ndx bag) n)
          ∨ (∀ m, m ∈ gen_ndx <$> pbag a → m ≤ gen_ndx bag))).
Proof.
  split; [apply instruments_of_refs|]. split; [|split; [|split]].
  - intros refs.
    assert (He : ∀ x, x ∈ first_occurrences [] refs ↔ x ∈ refs).
    { intros x. rewrite first_occurrences_elem, elem_of_nil. tauto. }
    split; [apply first_occurrences_NoDup|]. split; [exact He|].
    split; [apply first_occurrences_sublist|].
    intros x Hx. apply NoDup_filter_one; [apply first_occurrences_NoDup|].
    apply He, Hx.
  - intros banks Hb b. destruct (process_banks a banks Hb b) as (es & HF & Hl).
    exists es. split; [|exact Hl].
    eapply Forall2_impl; [exact HF|].
    intros rec e He. apply bind_Ok_inv in He as (ins & Hins & [= <-]).
    rewrite instruments_of_refs in Hins.
    apply bind_Ok_inv in Hins as (refs & Hrefs & [= <-]).
    exists refs. split; [exact Hrefs | reflexivity].
  - intros rec. apply zones_of_spec.
  - intros bag. apply gens_of_ranges.
Qed.

Lemma instruments_unique_witness :
  (∃ banks, (process small_bank).2 = Ok banks
   ∧ ∀ b, ∃ es,
       Forall2 (λ rec e,
                  ∃ refs, preset_refs small_bank rec = Ok refs
                        ∧ BankEntry.instruments e = first_occurrences [] refs)
         (filter (λ r, bank r = b) (phdr small_bank)) es
       ∧ banks !! b = match es with [] => None | _ => Some es end)
  ∧ zones_of small_bank
      {| preset_name := lit "Lead"; preset := 0; bank := 1; bag_ndx := 0 |} = 2 - 0
  ∧ gens_of small_bank {| gen_ndx := 1; mod_ndx := 0 |} = 2 - 1
  ∧ gens_of small_bank {| gen_ndx := 2; mod_ndx := 0 |}
    = py_len (pgen small_bank) - 2.
Proof.
  destruct (instruments_unique small_bank) as (_ & _ & Hi & Hz & Hg).
  split; [|split; [|split]].
  - destruct (process small_bank).2 as [banks|e] eqn:H;
      [|vm_compute in H; discriminate H].
    exists banks. split; [reflexivity|]. apply Hi. reflexivity.
  - apply (Hz {| preset_name := lit "Lead"; preset := 0; bank := 1; bag_ndx := 0 |}).
    change (is_next [0; 2] 0 2). split; [|split].
    + apply list_elem_of_further, list_elem_of_here.
    + lia.
    + intros m Hm Hlt. rewrite !elem_of_cons, elem_of_nil in Hm. lia.
  - apply (Hg {| gen_ndx := 1; mod_ndx := 0 |}).
    change (is_next [0; 1; 2] 1 2). split; [|split].
    + apply list_elem_of_further, list_elem_of_further, list_elem_of_here.
    + lia.
    + intros m Hm Hlt. rewrite !elem_of_cons, elem_of_nil in Hm. lia.
  - apply (Hg {| gen_ndx := 2; mod_ndx := 0 |}).
    intros m Hm. change (m ∈ [0; 1; 2]) in Hm. change (m ≤ 2).
    rewrite !elem_of_cons, elem_of_nil in Hm. lia.
Defined.

(** Two generators of one preset pointing at the same instrument: the
    name is referred to twice and listed once. *)
Example instruments_small_bank :
  preset_refs small_bank
    {| preset_name := lit "Lead"; preset := 0; bank := 1; bag_ndx := 0 |}
    = Ok [lit "Saw"; lit "Saw"]
  ∧ instruments_of small_bank
      {| preset_name := lit "Lead"; preset := 0; bank := 1; bag_ndx := 0 |}
    = Ok [lit "Saw"].
Proof. split; reflexivity. Qed.

(** ** The INFO list and the rest of the file *)

(** A mandatory sub-chunk that is not found at the current position: a
    line naming it is printed and the loop ends with [None], whatever had
    been collected. *)
Lemma info_loop_missing_mandatory (data : list byte) (id_ label : string)
    (cat' : list (string * (string * bool))) (info : info_list) (cp : Z) (w : world) :
  parse_sub_chunk data cp id_ = Ok None →
  info_loop data ((id_, (label, true)) :: cat') info cp w =
  (Ok None,
   {| stdout := stdout w ++ [lit "File does not have have RIFF format. "
                             ++ lit label ++ lit " sub-chunk is not present"];
      fpos := fpos w |}).
Proof.
  intros H. cbn [info_loop]. unfold mbind, IO_bind, lift. rewrite H. reflexivity.
Qed.

(** An optional sub-chunk that is not found is skipped: nothing is added
    to the list and the position does not move. *)
Lemma info_loop_missing_optional (data : list byte) (id_ label : string)
    (cat' : list (string * (string * bool))) (info : info_list) (cp : Z) (w : world) :
  parse_sub_chunk data cp id_ = Ok None →
  info_loop data ((id_, (label, false)) :: cat') info cp w =
  info_loop data cat' info cp w.
Proof.
  intros H. cbn [info_loop]. unfold mbind, IO_bind, lift. rewrite H. reflexivity.
Qed.

(** A sub-chunk that is found is appended under its label and the position
    moves past it. *)
Lemma info_loop_found (data : list byte) (id_ label : string) (mandatory : bool)
    (cat' : list (string * (string * bool))) (info : info_list) (cp : Z) (w : world)
    (data_str : str) (size : Z) :
  parse_sub_chunk data cp id_ = Ok (Some (data_str, size)) →
  info_loop data ((id_, (label, mandatory)) :: cat') info cp w =
  info_loop data cat' (info ++ [(label, data_str)]) (cp + size) w.
Proof.
  intros H. cbn [info_loop]. unfold mbind, IO_bind, lift. rewrite H. reflexivity.
Qed.

(** With the three mandatory sub-chunks and no optional one, the list has
    the three entries, in catalog order. *)
Example parse_file_complete :
  parse_file file_complete world0 =
  (Ok (Some [("Version"%string, lit "2.1");
             ("Target Sound Engine"%string, lit "EMU8000");
             ("Sound Font Bank Name"%string, lit "Bank")],
       no_arrays),
   {| stdout := []; fpos := py_len file_complete |}).
Proof. vm_compute. reflexivity. Qed.

Example parse_file_with_date :
  parse_file file_with_date world0 =
  (Ok (Some [("Version"%string, lit "2.1");
             ("Target Sound Engine"%string, lit "EMU8000");
             ("Sound Font Bank Name"%string, lit "Bank");
             ("Date of Creation of the Bank"%string, lit "2024")],
       no_arrays),
   {| stdout := []; fpos := py_len file_with_date |}).
Proof. vm_compute. reflexivity. Qed.

(** A wrong tag ends the run: [check_id] prints its line and [parse_file]
    exits with status 1, returning nothing. *)
Example parse_file_bad_form :
  parse_file file_bad_form world0 =
  (Raise (SystemExit 1),
   {| stdout := [lit "File format error: expected ID 'RIFF' not found"];
      fpos := 1024 `min` py_len file_bad_form |}).
Proof. vm_compute. reflexivity. Qed.

(** C5. On a file whose INFO list has the version and the bank name but
    not the target engine, [parse_info_list_chunk] prints the line naming
    the target engine sub-chunk and returns [None]; [parse_file] does not
    stop there: it reads the rest of the file to the end and returns the
    nine arrays to its caller, with [None] in place of the metadata. *)
Theorem parse_file_missing_engine :
  parse_info_list_chunk (take 1024 file_no_engine) 24 world0 =
    (Ok None,
     {| stdout := [lit "File does not have have RIFF format. Target Sound Engine sub-chunk is not present"];
        fpos := 0 |})
  ∧ parse_file file_no_engine world0 =
    (Ok (None, no_arrays),
     {| stdout := [lit "File does not have have RIFF format. Target Sound Engine sub-chunk is not present"];
        fpos := py_len file_no_engine |}).
Proof. split; vm_compute; reflexivity. Qed.

(** * Further properties *)

(** ** Chunk tags *)

Lemma byte_val_byte_of_ascii (c : ascii) : byte_val (byte_of_ascii c) = ord c.
Proof.
  unfold byte_val, ord. f_equal. apply Byte.to_of_N.
  symmetry. apply byte_of_ascii_via_N.
Qed.

Lemma ord_range (c : ascii) : 0 ≤ ord c < 256.
Proof. rewrite <- byte_val_byte_of_ascii. apply byte_val_range. Qed.

Lemma land_shiftl_low (x y n : Z) :
  0 ≤ n → 0 ≤ x < 2 ^ n → Z.land x (Z.shiftl y n) = 0.
Proof.
  intros Hn Hx. apply Z.bits_inj'. intros i Hi.
  rewrite Z.land_spec, Z.bits_0.
  destruct (Z.lt_ge_cases i n) as [Hlt|Hge].
  - rewrite (Z.shiftl_spec_low y n i Hlt). apply andb_false_r.
  - rewrite <- (Z.mod_small x (2 ^ n)) by lia.
    rewrite Z.mod_pow2_bits_high by lia. reflexivity.
Qed.

(** Or-ing a value shifted above the bits of another adds them. *)
Lemma lor_shiftl_add (x y n : Z) :
  0 ≤ n → 0 ≤ x < 2 ^ n → Z.lor x (Z.shiftl y n) = x + y * 2 ^ n.
Proof.
  intros Hn Hx.
  rewrite <- Z.lxor_lor by (apply land_shiftl_low; assumption).
  rewrite <- Z.add_nocarry_lxor by (apply land_shiftl_low; assumption).
  rewrite Z.shiftl_mul_pow2 by lia. reflexivity.
Qed.

Lemma chunk_id_four (a b c d : ascii) (rest : string) :
  chunk_id (String a (String b (String c (String d rest)))) =
  Ok (ord a + 256 * (ord b + 256 * (ord c + 256 * ord d))).
Proof.
  unfold chunk_id. change (py_range 0 4) with [0; 1; 2; 3].
  set (l := list_ascii_of_string _).
  assert (H0 : py_index l 0 = Ok a) by reflexivity.
  assert (H1 : py_index l 1 = Ok b) by reflexivity.
  assert (H2 : py_index l 2 = Ok c) by reflexivity.
  assert (H3 : py_index l 3 = Ok d) by reflexivity.
  cbn [foldM]. rewrite H0, H1, H2, H3, !bind_Ok.
  change (0 * 8) with 0. change (1 * 8) with 8.
  change (2 * 8) with 16. change (3 * 8) with 24.
  pose proof (ord_range a). pose proof (ord_range b).
  pose proof (ord_range c). pose proof (ord_range d).
  rewrite Z.lor_0_l, Z.shiftl_0_r.
  rewrite (lor_shiftl_add (ord a) (ord b) 8) by lia.
  rewrite (lor_shiftl_add _ (ord c) 16) by lia.
  rewrite (lor_shiftl_add _ (ord d) 24) by lia.
  f_equal. lia.
Qed.

Lemma chunk_id_first_four (id_str : string) :
  (4 ≤ String.length id_str)%nat →
  chunk_id id_str = Ok (le_uint (take 4 (list_byte_of_string id_str))).
Proof.
  intros Hlen.
  destruct id_str as [|a [|b [|c [|d rest]]]]; cbn in Hlen; try lia.
  rewrite chunk_id_four. unfold list_byte_of_string.
  cbn [list_ascii_of_string map take firstn le_uint].
  rewrite !byte_val_byte_of_ascii, take_0. cbn [le_uint]. f_equal. lia.
Qed.

(** X1. [chunk_id] of a tag of at least four characters is the number
    that the first four characters, taken as bytes, spell in little-endian
    order, the number [struct.unpack] reads from these bytes; a shorter
    tag raises [IndexError]. *)
Theorem chunk_id_little_endian (id_str : string) :
  ((4 ≤ String.length id_str)%nat →
   chunk_id id_str = Ok (le_uint (take 4 (list_byte_of_string id_str))))
  ∧ ((String.length id_str < 4)%nat → chunk_id id_str = Raise IndexError).
Proof.
  split; intros Hlen.
  - apply chunk_id_first_four, Hlen.
  - destruct id_str as [|a [|b [|c [|d rest]]]]; cbn in Hlen; try lia; reflexivity.
Qed.

Lemma chunk_id_little_endian_witness :
  chunk_id "RIFF" = Ok (le_uint (take 4 (list_byte_of_string "RIFF")))
  ∧ chunk_id "sf" = Raise IndexError.
Proof.
  split.
  - apply (chunk_id_little_endian "RIFF"). cbn. lia.
  - apply (chunk_id_little_endian "sf"). cbn. lia.
Defined.

Lemma length_list_byte_of_string (s : string) :
  length (list_byte_of_string s) = String.length s.
Proof.
  unfold list_byte_of_string. rewrite length_map.
  induction s as [|c s IH]; cbn; [reflexivity | f_equal; exact IH].
Qed.

Lemma chunk_id_tag (tag : string) :
  String.length tag = 4%nat →
  chunk_id tag = Ok (le_uint (list_byte_of_string tag)).
Proof.
  intros Hlen. rewrite chunk_id_first_four by lia.
  rewrite take_ge; [reflexivity|].
  rewrite length_list_byte_of_string. lia.
Qed.

Lemma le_uint_inj (bs bs' : list byte) :
  length bs = length bs' → le_uint bs = le_uint bs' → bs = bs'.
Proof.
  intros Hlen Heq.
  rewrite <- (le_bytes_le_uint bs), <- (le_bytes_le_uint bs'), Hlen, Heq.
  reflexivity.
Qed.

(** X2. A tag check is exact: for four bytes read from the file and a tag
    of four characters, [check_id] on the number the bytes spell returns
    [True] without printing when the bytes are the characters of the tag,
    and otherwise prints the line naming the expected tag and returns
    [False]; in neither case does it move the file position. *)
Theorem check_id_exact (bs : list byte) (tag : string) (w : world) :
  length bs = 4%nat → String.length tag = 4%nat →
  (bs = list_byte_of_string tag → check_id (le_uint bs) tag w = (Ok true, w))
  ∧ (bs ≠ list_byte_of_string tag →
     check_id (le_uint bs) tag w =
     (Ok false,
      {| stdout := stdout w ++ [lit "File format error: expected ID '"
                                ++ lit tag ++ lit "' not found"];
         fpos := fpos w |})).
Proof.
  intros Hbs Htag. unfold check_id, mbind, IO_bind, lift.
  rewrite (chunk_id_tag tag Htag). split.
  - intros ->. rewrite decide_False by tauto. reflexivity.
  - intros Hne. rewrite decide_True; [reflexivity|].
    intros Heq. apply Hne, le_uint_inj; [|exact Heq].
    rewrite length_list_byte_of_string. congruence.
Qed.

Lemma check_id_exact_witness :
  check_id (le_uint [x52; x49; x46; x46]) "RIFF" world0 = (Ok true, world0)
  ∧ check_id (le_uint [x52; x49; x46; x58]) "RIFF" world0 =
    (Ok false,
     {| stdout := stdout world0 ++ [lit "File format error: expected ID '"
                                    ++ lit "RIFF" ++ lit "' not found"];
        fpos := fpos world0 |}).
Proof.
  split.
  - apply (check_id_exact [x52; x49; x46; x46] "RIFF" world0); reflexivity.
  - apply (check_id_exact [x52; x49; x46; x58] "RIFF" world0);
      [reflexivity | reflexivity | discriminate].
Defined.

(** ** Reading one chunk *)

Lemma IO_bind_Ok {A B : Type} (m : IO A) (f : A → IO B) (w w' : world) (a : A) :
  m w = (Ok a, w') → (m ≫= f) w = f a w'.
Proof. intros H. unfold mbind, IO_bind. rewrite H. reflexivity. Qed.

Lemma IO_bind_Raise {A B : Type} (m : IO A) (f : A → IO B) (w w' : world) (e : exn) :
  m w = (Raise e, w') → (m ≫= f) w = (Raise e, w').
Proof. intros H. unfold mbind, IO_bind. rewrite H. reflexivity. Qed.

(** Reading the bytes that sit at the current position. *)
Lemma f_read_at (pre mid post : list byte) (w : world) :
  fpos w = py_len pre →
  f_read (pre ++ mid ++ post) (py_len mid) w =
  (Ok mid, {| stdout := stdout w; fpos := fpos w + py_len mid |}).
Proof.
  intros Hpos. unfold f_read. rewrite Hpos.
  destruct (Z.ltb_spec (py_len mid) 0) as [Hneg|_]; [unfold py_len in Hneg; lia|].
  assert (Hd : drop (Z.to_nat (py_len pre)) (pre ++ mid ++ post) = mid ++ post).
  { unfold py_len. rewrite Nat2Z.id. apply drop_app_length. }
  assert (Ht : take (Z.to_nat (py_len mid)) (mid ++ post) = mid).
  { unfold py_len. rewrite Nat2Z.id. apply take_app_length. }
  rewrite Hd, Ht. reflexivity.
Qed.

Lemma struct_unpack_header (t sz : list byte) :
  length t = 4%nat → length sz = 4%nat →
  struct_unpack [FI; FI] (t ++ sz) = Ok [VInt (le_uint t); VInt (le_uint sz)].
Proof.
  intros Ht Hsz.
  destruct t as [|t0 [|t1 [|t2 [|t3 [|? ?]]]]]; try discriminate Ht.
  destruct sz as [|s0 [|s1 [|s2 [|s3 [|? ?]]]]]; try discriminate Hsz.
  reflexivity.
Qed.

Section ParseChunk.
Context {R : Type} (C : rec_class R).
Variables (pre post : list byte) (w : world).
Hypothesis at_chunk : fpos w = py_len pre.

(** Reading a chunk that carries the expected tag. *)
Lemma parse_chunk_found (tag : string) (content : list byte) :
  String.length tag = 4%nat → py_len content < 2 ^ 32 →
  parse_chunk (pre ++ sub_chunk_bytes tag content ++ post) C tag w =
  (parse C content (py_len content),
   {| stdout := stdout w; fpos := fpos w + 8 + py_len content |}).
Proof.
  intros Htag Hsz. unfold parse_chunk, sub_chunk_bytes.
  set (hdr := list_byte_of_string tag ++ le_bytes 4 (py_len content)).
  assert (Hhdr : py_len hdr = 8).
  { unfold hdr, py_len.
    rewrite length_app, length_list_byte_of_string, length_le_bytes, Htag.
    reflexivity. }
  replace (pre ++ (list_byte_of_string tag ++ le_bytes 4 (py_len content) ++ content) ++ post)
    with (pre ++ hdr ++ (content ++ post))
    by (unfold hdr; rewrite <- !app_assoc; reflexivity).
  rewrite <- Hhdr.
  erewrite IO_bind_Ok; [|apply f_read_at; exact at_chunk]. cbn beta.
  assert (Hunp : struct_unpack [FI; FI] hdr =
                 Ok [VInt (le_uint (list_byte_of_string tag));
                     VInt (le_uint (le_bytes 4 (py_len content)))]).
  { unfold hdr. apply struct_unpack_header;
      [rewrite length_list_byte_of_string; exact Htag | apply length_le_bytes]. }
  rewrite Hunp.
  erewrite IO_bind_Ok; [|reflexivity]. cbn beta.
  erewrite IO_bind_Ok; [|reflexivity]. cbn beta.
  unfold check_id. rewrite (chunk_id_tag tag Htag).
  erewrite (IO_bind_Ok (_ ≫= _)); last first.
  { erewrite IO_bind_Ok; [|reflexivity]. cbn beta.
    rewrite decide_False by tauto. reflexivity. }
  cbn beta.
  erewrite IO_bind_Ok; [|reflexivity]. cbn beta.
  erewrite IO_bind_Ok; [|reflexivity]. cbn beta.
  rewrite le_uint_le_bytes by (unfold py_len in *; lia).
  replace (pre ++ hdr ++ content ++ post) with ((pre ++ hdr) ++ content ++ post)
    by (rewrite <- app_assoc; reflexivity).
  erewrite IO_bind_Ok; last first.
  { apply f_read_at. cbn [fpos]. unfold py_len in *.
    rewrite length_app. lia. }
  cbn beta. unfold lift. cbn [stdout fpos]. reflexivity.
Qed.

(** X3. With the file positioned at a chunk that carries the expected
    tag, [parse_chunk] consumes the eight header bytes and the declared
    content, prints nothing, and its outcome is that of [parse] on the
    content with the declared size, raised exceptions included. *)
Theorem parse_chunk_at (tag : string) (content : list byte) :
  String.length tag = 4%nat → py_len content < 2 ^ 32 →
  parse_chunk (pre ++ sub_chunk_bytes tag content ++ post) C tag w =
  (parse C content (py_len content),
   {| stdout := stdout w; fpos := fpos w + 8 + py_len content |}).
Proof. apply parse_chunk_found. Qed.

(** X4. With the file positioned at eight bytes whose first four are not
    the expected tag, [parse_chunk] prints the line naming the expected
    tag and exits with status 1, having consumed the eight header bytes
    only; with fewer than eight bytes left in the file it consumes them
    and raises the error of [struct.unpack]. *)
Theorem parse_chunk_rejects (tag : string) :
  String.length tag = 4%nat →
  (∀ t sz : list byte,
     length t = 4%nat → length sz = 4%nat → t ≠ list_byte_of_string tag →
     parse_chunk (pre ++ (t ++ sz) ++ post) C tag w =
     (Raise (SystemExit 1),
      {| stdout := stdout w ++ [lit "File format error: expected ID '"
                                ++ lit tag ++ lit "' not found"];
         fpos := fpos w + 8 |}))
  ∧ (∀ rest : list byte,
       py_len rest < 8 →
       parse_chunk (pre ++ rest) C tag w =
       (Raise StructError,
        {| stdout := stdout w; fpos := fpos w + py_len rest |})).
Proof.
  intros Htag. split.
  - intros t sz Ht Hsz Hne. unfold parse_chunk.
    assert (Hhdr : py_len (t ++ sz) = 8).
    { unfold py_len. rewrite length_app, Ht, Hsz. reflexivity. }
    rewrite <- Hhdr.
    erewrite IO_bind_Ok; [|apply f_read_at; exact at_chunk]. cbn beta.
    rewrite (struct_unpack_header t sz Ht Hsz).
    erewrite IO_bind_Ok; [|reflexivity]. cbn beta.
    erewrite IO_bind_Ok; [|reflexivity]. cbn beta.
    unfold check_id. rewrite (chunk_id_tag tag Htag).
    erewrite (IO_bind_Ok (_ ≫= _)); last first.
    { erewrite IO_bind_Ok; [|reflexivity]. cbn beta.
      rewrite decide_True; [reflexivity|].
      intros Heq. apply Hne, le_uint_inj; [|exact Heq].
      rewrite length_list_byte_of_string. congruence. }
    cbn beta. reflexivity.
  - intros rest Hrest. unfold parse_chunk.
    assert (Hread : f_read (pre ++ rest) 8 w =
                    (Ok rest, {| stdout := stdout w; fpos := fpos w + py_len rest |})).
    { unfold f_read. rewrite at_chunk.
      assert (Hd : drop (Z.to_nat (py_len pre)) (pre ++ rest) = rest).
      { unfold py_len. rewrite Nat2Z.id. apply drop_app_length. }
      rewrite Hd. cbn [Z.ltb Z.compare].
      rewrite take_ge by (unfold py_len in Hrest; lia). reflexivity. }
    erewrite IO_bind_Ok; [|exact Hread]. cbn beta.
    unfold struct_unpack.
    rewrite decide_False by (change (calcsize [FI; FI]) with 8; lia).
    reflexivity.
Qed.
End ParseChunk.

Lemma parse_chunk_at_witness :
  parse_chunk ([] ++ sub_chunk_bytes "pbag" [x01; x00; x02; x00; x05; x00; x06; x00] ++ [])
    XBAG "pbag" world0 =
  (parse XBAG [x01; x00; x02; x00; x05; x00; x06; x00]
     (py_len [x01; x00; x02; x00; x05; x00; x06; x00]),
   {| stdout := stdout world0;
      fpos := fpos world0 + 8 + py_len [x01; x00; x02; x00; x05; x00; x06; x00] |}).
Proof.
  apply (parse_chunk_at XBAG [] [] world0 eq_refl "pbag"
           [x01; x00; x02; x00; x05; x00; x06; x00]).
  - reflexivity.
  - vm_compute. reflexivity.
Defined.

Lemma parse_chunk_rejects_witness :
  parse_chunk ([] ++ ([x70; x67; x65; x6e] ++ [x00; x00; x00; x00]) ++ [])
    XBAG "pbag" world0 =
  (Raise (SystemExit 1),
   {| stdout := stdout world0 ++ [lit "File format error: expected ID '"
                                  ++ lit "pbag" ++ lit "' not found"];
      fpos := fpos world0 + 8 |})
  ∧ parse_chunk ([] ++ [x70; x62; x61]) XBAG "pbag" world0 =
    (Raise StructError,
     {| stdout := stdout world0; fpos := fpos world0 + py_len [x70; x62; x61] |}).
Proof.
  destruct (parse_chunk_rejects XBAG [] [] world0 eq_refl "pbag" eq_refl) as [H1 H2].
  split.
  - apply H1; [reflexivity | reflexivity | discriminate].
  - apply H2. vm_compute. reflexivity.
Defined.

(** ** Truncated arrays *)

Lemma mapM_result_app {A B : Type} (f : A → result B) (l1 l2 : list A) :
  mapM_result f (l1 ++ l2) =
  ys1 ← mapM_result f l1; ys2 ← mapM_result f l2; Ok (ys1 ++ ys2).
Proof.
  induction l1 as [|x l1 IH]; cbn.
  - destruct (mapM_result f l2); reflexivity.
  - destruct (f x) as [y|e]; [|reflexivity]. rewrite !bind_Ok, IH.
    destruct (mapM_result f l1) as [ys1|e]; [|reflexivity]. rewrite !bind_Ok.
    destruct (mapM_result f l2); reflexivity.
Qed.

Lemma py_slice_tail_length {A : Type} (l : list A) (a b : Z) :
  0 ≤ a → a ≤ py_len l → py_len l ≤ b →
  py_len (py_slice l a b) = py_len l - a.
Proof.
  intros Ha Hal Hb. assert (0 ≤ py_len l) by (unfold py_len; lia).
  unfold py_slice, clamp.
  destruct (Z.ltb_spec a 0); [lia|]. destruct (Z.ltb_spec b 0); [lia|].
  rewrite (Z.min_l a), (Z.min_r b) by lia.
  unfold py_len in *. rewrite length_take, length_drop. lia.
Qed.

Section Truncated.
Context {R : Type} (C : rec_class R).

(** A slice that runs past the end of the data is too short for
    [struct.unpack]. *)
Lemma _parse_record_short (data : list byte) (cp : Z) :
  0 ≤ cp → cp ≤ py_len data → py_len data < cp + rec_size C →
  _parse_record C data cp = Raise StructError.
Proof.
  intros Hcp Hle Hlt. unfold _parse_record, struct_unpack.
  rewrite decide_False; [reflexivity|].
  rewrite py_slice_tail_length by lia. fold (rec_size C). lia.
Qed.

(** X5. When the data handed to [parse] is shorter than the records the
    declared size announces (the file ended inside the array), the size
    being one a chunk header can hold (below 2^32), [parse] never
    returns: the first record that does not fit makes [struct.unpack]
    fail, and on a layout that decodes every full-width buffer that
    failure is the exception raised. *)
Theorem parse_truncated (data : list byte) (size : Z) :
  0 < rec_size C → 0 ≤ size < 2 ^ 32 →
  py_len data < (size / rec_size C - 1) * rec_size C →
  (∀ recs, parse C data size ≠ Ok recs)
  ∧ (total_class C → parse C data size = Raise StructError).
Proof.
  intros HW [Hsize Hbound] Hshort.
  set (W := rec_size C) in *.
  set (n := Z.to_nat (size / W - 1)).
  set (k := Z.to_nat (py_len data / W)).
  assert (Hlen0 : 0 ≤ py_len data) by (unfold py_len; lia).
  assert (Hk : Z.of_nat k * W ≤ py_len data < (Z.of_nat k + 1) * W).
  { unfold k. rewrite Z2Nat.id by (apply Z.div_pos; lia).
    pose proof (Z.mul_div_le (py_len data) W HW).
    pose proof (Z.mul_succ_div_gt (py_len data) W HW). lia. }
  assert (Hkn : (k < n)%nat).
  { unfold n. assert (Z.of_nat k < size / W - 1) by nia. lia. }
  assert (Hfail : _parse_record C data (0 + Z.of_nat k * W) = Raise StructError).
  { apply _parse_record_short; fold W; lia. }
  rewrite parse_offsets, total_recs_div, record_offsets_seq by (fold W; lia).
  fold W n. split.
  - intros recs Hrecs.
    destruct (mapM_result_lookup _ _ _ Hrecs k (0 + Z.of_nat k * W)) as (y & _ & Hy).
    { rewrite list_lookup_fmap, lookup_seq_lt by exact Hkn. reflexivity. }
    rewrite Hfail in Hy. discriminate Hy.
  - intros Htot.
    replace n with (k + S (n - S k))%nat by lia.
    rewrite seq_app, fmap_app. cbn [seq fmap list_fmap].
    rewrite mapM_result_app.
    destruct (mapM_offsets_total C data k 0 Htot) as (recs & Hrecs);
      [lia | fold W; lia | fold W; lia |].
    fold W in Hrecs. rewrite Hrecs, bind_Ok. cbn [mapM_result].
    rewrite Nat.add_0_l, Hfail. reflexivity.
Qed.
End Truncated.

Lemma parse_truncated_witness :
  (∀ recs, parse XBAG [x01; x00; x02; x00; x05; x00] 16 ≠ Ok recs)
  ∧ parse XBAG [x01; x00; x02; x00; x05; x00] 16 = Raise StructError.
Proof.
  destruct (parse_truncated XBAG [x01; x00; x02; x00; x05; x00] 16) as [H1 H2];
    [reflexivity | lia | vm_compute; reflexivity |].
  split; [exact H1|].
  apply H2, (lossless_total XBAG XBAG_fields), XBAG_lossless.
Defined.

(** ** The range of the decoded fields *)

Lemma le_uint_bound (bs : list byte) : 0 ≤ le_uint bs < 256 ^ Z.of_nat (length bs).
Proof.
  induction bs as [|b bs IH]; cbn [le_uint length]; [cbn; lia|].
  rewrite Nat2Z.inj_succ, Z.pow_succ_r by lia.
  pose proof (byte_val_range b). lia.
Qed.

Lemma le_uint_take_bound (n : nat) (bs : list byte) :
  0 ≤ le_uint (take n bs) < 256 ^ Z.of_nat n.
Proof.
  pose proof (le_uint_bound (take n bs)) as H.
  assert (Hl : (length (take n bs) ≤ n)%nat) by (rewrite length_take; lia).
  assert (256 ^ Z.of_nat (length (take n bs)) ≤ 256 ^ Z.of_nat n).
  { apply Z.pow_le_mono_r; lia. }
  lia.
Qed.

Lemma le_sint_take_1 (bs : list byte) : -128 ≤ le_sint (take 1 bs) < 128.
Proof.
  destruct bs as [|b bs]; [change (le_sint (take 1 [])) with (-1); lia|].
  rewrite firstn_cons, take_0. unfold le_sint. cbn [le_uint].
  change (2 ^ (8 * py_len [b])) with 256. change (256 `div` 2) with 128.
  pose proof (byte_val_range b).
  destruct (Z.ltb_spec (byte_val b + 256 * 0) 128); lia.
Qed.

(** What holds of every record a layout decodes holds of every record
    [parse] returns. *)
Lemma parse_Forall {R : Type} (C : rec_class R) (P : R → Prop)
    (data : list byte) (size : Z) (recs : list R) :
  (∀ bs r, decode_record C bs = Ok r → P r) →
  parse C data size = Ok recs → Forall P recs.
Proof.
  intros HP. unfold parse. destruct (decide _); [discriminate|].
  rewrite foldM_parse_step. intros H.
  apply bind_Ok_inv in H as (st & Hst & [= <-]).
  apply bind_Ok_inv in Hst as (rs & Hrs & [= <-]). cbn [fst app].
  apply mapM_result_Forall2 in Hrs.
  induction Hrs as [|cp r l rs Hr _ IH]; constructor; [|exact IH].
  apply (HP _ _ Hr).
Qed.

Ltac decode_fields H :=
  apply decode_record_cases in H;
  cbn [PHDR XBAG XMOD XGEN INST SHDR format init
       unpack_items unpack_item item_size] in H;
  try (apply bind_Ok_inv in H as (? & _ & H));
  injection H as <-; cbn;
  repeat split;
  first [apply (le_uint_take_bound 2) | apply (le_uint_take_bound 4)
        | apply (le_uint_take_bound 1) | apply le_sint_take_1].

(** X6. Every record [parse] returns has its integer fields in the range
    of their format: 16-bit fields in [0, 65536), 32-bit fields in
    [0, 2^32), the original pitch in [0, 256) and the pitch correction,
    the only signed field, in [-128, 128). In particular no index handed
    to the resolver is negative. *)
Theorem parsed_fields_in_range (data : list byte) (size : Z) :
  (∀ recs, parse PHDR data size = Ok recs →
     Forall (λ r, 0 ≤ preset r < 65536 ∧ 0 ≤ bank r < 65536
                  ∧ 0 ≤ bag_ndx r < 65536) recs)
  ∧ (∀ recs, parse XBAG data size = Ok recs →
     Forall (λ r, 0 ≤ gen_ndx r < 65536 ∧ 0 ≤ mod_ndx r < 65536) recs)
  ∧ (∀ recs, parse XMOD data size = Ok recs →
     Forall (λ r, 0 ≤ mod_src_oper r < 65536 ∧ 0 ≤ mod_dest_oper r < 65536
                  ∧ 0 ≤ mod_amount r < 65536
                  ∧ 0 ≤ mod_arm_src_oper r < 65536
                  ∧ 0 ≤ mod_trans_oper r < 65536) recs)
  ∧ (∀ recs, parse XGEN data size = Ok recs →
     Forall (λ r, 0 ≤ gen_oper r < 65536 ∧ 0 ≤ gen_amount r < 65536) recs)
  ∧ (∀ recs, parse INST data size = Ok recs →
     Forall (λ r, 0 ≤ inst_bag_ndx r < 65536) recs)
  ∧ (∀ recs, parse SHDR data size = Ok recs →
     Forall (λ r, 0 ≤ start r < 2 ^ 32 ∧ 0 ≤ end_ r < 2 ^ 32
                  ∧ 0 ≤ start_loop r < 2 ^ 32 ∧ 0 ≤ end_loop r < 2 ^ 32
                  ∧ 0 ≤ sample_rate r < 2 ^ 32
                  ∧ 0 ≤ original_pitch r < 256
                  ∧ -128 ≤ pitch_correction r < 128
                  ∧ 0 ≤ sample_link r < 65536
                  ∧ 0 ≤ sample_type r < 65536) recs).
Proof.
  repeat apply conj; intros recs; apply parse_Forall; intros bs r H;
    decode_fields H.
Qed.

Lemma parsed_fields_in_range_witness :
  ∃ recs, parse XBAG [x01; x00; x02; x00; x05; x00; x06; x00] 8 = Ok recs
        ∧ Forall (λ r, 0 ≤ gen_ndx r < 65536 ∧ 0 ≤ mod_ndx r < 65536) recs.
Proof.
  destruct (parse XBAG [x01; x00; x02; x00; x05; x00; x06; x00] 8) as [recs|e] eqn:H;
    [|vm_compute in H; discriminate H].
  exists recs. split; [reflexivity|].
  destruct (parsed_fields_in_range [x01; x00; x02; x00; x05; x00; x06; x00] 8)
    as (_ & Hbag & _).
  apply Hbag, H.
Defined.

(** ** Generator counts and the partition of the arrays *)

(** X7. For every zone with generator-start index [g], the generator count
    the resolver uses is [n - g] when [n] is the smallest generator-start
    index of a zone of the same array strictly greater than [g], and
    [len(pgen) - g] when no zone has a generator-start index strictly
    greater than [g]; one of the two cases always applies. *)
Theorem gens_of_spec (a : arrays) (bag : XBAGRecord) :
  (∀ n, is_next (gen_ndx <$> pbag a) (gen_ndx bag) n →
        gens_of a bag = n - gen_ndx bag)
  ∧ ((∀ m, m ∈ gen_ndx <$> pbag a → m ≤ gen_ndx bag) →
        gens_of a bag = py_len (pgen a) - gen_ndx bag)
  ∧ ((∃ n, is_next (gen_ndx <$> pbag a) (gen_ndx bag) n)
     ∨ (∀ m, m ∈ gen_ndx <$> pbag a → m ≤ gen_ndx bag)).
Proof.
  unfold gens_of.
  pose proof (next_gen_spec (pbag a) (gen_ndx bag)) as H.
  destruct (next_gen (pbag a) (gen_ndx bag)) as [n|].
  - split; [|split].
    + intros n' Hn'. rewrite (is_next_unique _ _ _ _ Hn' H). reflexivity.
    + intros Hall. destruct H as (Hn & Hz & _). specialize (Hall n Hn). lia.
    + left. eauto.
  - split; [|split].
    + intros n (Hn & Hz & _). specialize (H n Hn). lia.
    + reflexivity.
    + right. exact H.
Qed.

Lemma gens_of_spec_witness :
  gens_of small_bank {| gen_ndx := 0; mod_ndx := 0 |} = 1 - 0
  ∧ gens_of small_bank {| gen_ndx := 2; mod_ndx := 0 |}
    = py_len (pgen small_bank) - 2.
Proof.
  split.
  - apply (gens_of_spec small_bank {| gen_ndx := 0; mod_ndx := 0 |}).
    change (is_next [0; 1; 2] 0 1). split; [|split].
    + apply list_elem_of_further, list_elem_of_here.
    + lia.
    + intros m Hm Hlt. rewrite !elem_of_cons, elem_of_nil in Hm. lia.
  - apply (gens_of_spec small_bank {| gen_ndx := 2; mod_ndx := 0 |}).
    intros m Hm. change (m ∈ [0; 1; 2]) in Hm. change (m ≤ 2).
    rewrite !elem_of_cons, elem_of_nil in Hm. lia.
Defined.

(** The range a start index [z] opens among the start indices [zs] of an
    array of length [L]. *)
Lemma next_of_perm (zs zs' : list Z) (z : Z) :
  zs ≡ₚ zs' →
  fold_left (next_step z) zs None = fold_left (next_step z) zs' None.
Proof.
  intros Hp.
  pose proof (next_step_fold z zs None) as H.
  pose proof (next_step_fold z zs' None) as H'.
  destruct (fold_left (next_step z) zs None) as [n|];
    destruct (fold_left (next_step z) zs' None) as [n'|].
  - destruct H as ([[Hn Hz]|[=]] & Hmin & _).
    destruct H' as ([[Hn' Hz']|[=]] & Hmin' & _).
    f_equal. rewrite Hp in Hn. rewrite <- Hp in Hn'.
    specialize (Hmin n' Hn' Hz'). specialize (Hmin' n Hn Hz). lia.
  - destruct H as ([[Hn Hz]|[=]] & _). destruct H' as [_ Hall].
    rewrite Hp in Hn. specialize (Hall n Hn). lia.
  - destruct H' as ([[Hn Hz]|[=]] & _). destruct H as [_ Hall].
    rewrite <- Hp in Hn. specialize (Hall n' Hn). lia.
  - reflexivity.
Qed.

Lemma next_of_skip (z x : Z) (l : list Z) :
  x ≤ z →
  fold_left (next_step z) (x :: l) None = fold_left (next_step z) l None.
Proof.
  intros Hx. cbn [fold_left]. unfold next_step at 2.
  destruct (Z.gtb_spec x z); [lia | reflexivity].
Qed.

Lemma next_of_sorted_head (x y : Z) (l : list Z) :
  x < y → Forall (λ m, y ≤ m) l →
  fold_left (next_step x) (y :: l) None = Some y.
Proof.
  intros Hxy Hl.
  pose proof (next_step_fold x (y :: l) None) as H.
  destruct (fold_left (next_step x) (y :: l) None) as [n|].
  - destruct H as ([[Hn Hz]|[=]] & Hmin & _). f_equal.
    specialize (Hmin y (list_elem_of_here _ _) Hxy).
    apply elem_of_cons in Hn as [->|Hn]; [reflexivity|].
    rewrite Forall_forall in Hl. specialize (Hl n Hn). lia.
  - destruct H as [_ Hall]. specialize (Hall y (list_elem_of_here _ _)). lia.
Qed.


Lemma sum_Z_perm (l l' : list Z) : l ≡ₚ l' → sum_Z l = sum_Z l'.
Proof.
  unfold sum_Z.
  induction 1 as [|x l l' _ IH|x y l|l l' l'' _ IH _ IH']; cbn in *; lia.
Qed.

Lemma span_sum_perm (L : Z) (zs zs' : list Z) :
  zs ≡ₚ zs' → span_sum L zs = span_sum L zs'.
Proof.
  intros Hp. unfold span_sum.
  rewrite (sum_Z_perm _ _ (fmap_Permutation _ _ _ Hp)).
  f_equal. apply list_fmap_ext. intros _ z _. unfold span.
  rewrite (next_of_perm zs zs' z Hp). reflexivity.
Qed.

Lemma span_sum_sorted (L x : Z) (l : list Z) :
  StronglySorted Z.lt (x :: l) → span_sum L (x :: l) = L - x.
Proof.
  revert x; induction l as [|y l IH]; intros x Hs.
  - unfold span_sum, span. cbn [fmap list_fmap sum_Z foldr].
    rewrite next_of_skip by lia. cbn. lia.
  - apply StronglySorted_inv in Hs as [Hs Hx].
    specialize (IH y Hs). unfold span_sum in *.
    rewrite fmap_cons. unfold sum_Z in *. cbn [foldr].
    assert (Hhead : span L (x :: y :: l) x = y - x).
    { unfold span. rewrite (next_of_skip x x) by lia.
      rewrite next_of_sorted_head; [reflexivity | |].
      - apply Forall_cons in Hx as [Hxy _]. exact Hxy.
      - apply StronglySorted_inv in Hs as [_ Hy].
        eapply Forall_impl; [exact Hy|]. intros; cbn in *; lia. }
    assert (Htail : span L (x :: y :: l) <$> y :: l = span L (y :: l) <$> y :: l).
    { apply Forall_fmap_ext_1.
      eapply Forall_impl; [exact Hx|]. intros z Hz. cbn beta. unfold span.
      rewrite (next_of_skip z x) by lia. reflexivity. }
    rewrite Hhead, Htail, IH. lia.
Qed.

Lemma sorted_NoDup_strict (l : list Z) :
  StronglySorted (key_le id) l → NoDup l → StronglySorted Z.lt l.
Proof.
  induction 1 as [|x l Hs IH Hx]; intros Hnd; [constructor|].
  apply NoDup_cons in Hnd as [Hx' Hnd].
  constructor; [apply IH, Hnd|].
  rewrite Forall_forall in Hx |- *. intros z Hz.
  specialize (Hx z Hz). unfold key_le, id in Hx.
  assert (z ≠ x) by (intros ->; contradiction). lia.
Qed.

(** With pairwise distinct start indices, the range lengths add up to the
    distance from the smallest start index to the end of the array. *)
Lemma span_sum_min (L m : Z) (zs : list Z) :
  NoDup zs → m ∈ zs → (∀ z, z ∈ zs → m ≤ z) → span_sum L zs = L - m.
Proof.
  intros Hnd Hm Hmin.
  pose proof (py_sort_perm id zs) as Hp.
  pose proof (py_sort_sorted id zs) as Hs.
  rewrite <- (span_sum_perm L _ _ Hp).
  assert (Hnd' : NoDup (py_sort id zs)) by (rewrite Hp; exact Hnd).
  apply sorted_NoDup_strict in Hs as Hlt; [|exact Hnd'].
  destruct (py_sort id zs) as [|t T] eqn:HT.
  - rewrite <- Hp in Hm. apply elem_of_nil in Hm as [].
  - rewrite (span_sum_sorted L t T Hlt). f_equal.
    assert (Ht : t ∈ zs) by (rewrite <- Hp; left).
    specialize (Hmin t Ht).
    rewrite <- Hp in Hm. apply elem_of_cons in Hm as [->|Hm]; [reflexivity|].
    apply StronglySorted_inv in Hlt as [_ Hall].
    rewrite Forall_forall in Hall. specialize (Hall m Hm). lia.
Qed.

(** The ranges tile the array: with the start indices inside the array,
    every position from the smallest start index on lies in the range of
    exactly one start index. *)
Lemma span_spec (L : Z) (zs : list Z) (z : Z) :
  (∃ n, is_next zs z n ∧ span L zs z = n - z)
  ∨ ((∀ m, m ∈ zs → m ≤ z) ∧ span L zs z = L - z).
Proof.
  unfold span.
  pose proof (next_step_fold z zs None) as H.
  destruct (fold_left (next_step z) zs None) as [n|].
  - destruct H as ([[Hn Hz]|[=]] & Hmin & _). left. exists n.
    split; [|reflexivity]. split; [exact Hn|]. split; [exact Hz | exact Hmin].
  - destruct H as [_ H]. right. split; [exact H | reflexivity].
Qed.

Lemma span_bounds (L : Z) (zs : list Z) (z : Z) :
  (∀ x, x ∈ zs → x ≤ L) → z ≤ L →
  0 ≤ span L zs z ∧ z + span L zs z ≤ L.
Proof.
  intros HL Hz.
  destruct (span_spec L zs z) as [(n & (Hn & Hlt & _) & ->)|[_ ->]].
  - specialize (HL n Hn). lia.
  - lia.
Qed.

Lemma greatest_below (zs : list Z) (j m : Z) :
  m ∈ zs → m ≤ j →
  ∃ z, z ∈ zs ∧ z ≤ j ∧ ∀ x, x ∈ zs → x ≤ j → x ≤ z.
Proof.
  revert m; induction zs as [|x l IH]; intros m Hm Hmj.
  - apply elem_of_nil in Hm as [].
  - destruct (decide (Exists (λ y, y ≤ j) l)) as [He|Hne].
    + apply Exists_exists in He as (y & Hy & Hyj).
      destruct (IH y Hy Hyj) as (z & Hz & Hzj & Hmax).
      destruct (decide (x ≤ j ∧ z < x)) as [[Hxj Hzx]|Hno].
      * exists x. split; [left|]. split; [exact Hxj|].
        intros t Ht Htj. apply elem_of_cons in Ht as [->|Ht]; [lia|].
        specialize (Hmax t Ht Htj). lia.
      * exists z. split; [right; exact Hz|]. split; [exact Hzj|].
        intros t Ht Htj. apply elem_of_cons in Ht as [->|Ht]; [lia|].
        exact (Hmax t Ht Htj).
    + assert (Hx : m = x).
      { apply elem_of_cons in Hm as [->|Hm]; [reflexivity|].
        exfalso. apply Hne, Exists_exists. eauto. }
      subst m. exists x. split; [left|]. split; [exact Hmj|].
      intros t Ht Htj. apply elem_of_cons in Ht as [->|Ht]; [lia|].
      exfalso. apply Hne, Exists_exists. eauto.
Qed.

Lemma span_cover (L : Z) (zs : list Z) (m j : Z) :
  m ∈ zs → m ≤ j → j < L →
  ∃ z, z ∈ zs ∧ z ≤ j < z + span L zs z
       ∧ ∀ z', z' ∈ zs → z' ≤ j < z' + span L zs z' → z' = z.
Proof.
  intros Hm Hmj HjL.
  destruct (greatest_below zs j m Hm Hmj) as (z & Hz & Hzj & Hmax).
  exists z. split; [exact Hz|]. split.
  - split; [exact Hzj|].
    destruct (span_spec L zs z) as [(n & (Hn & Hlt & _) & ->)|[_ ->]]; [|lia].
    destruct (Z.le_gt_cases n j) as [Hnj|Hnj]; [|lia].
    specialize (Hmax n Hn Hnj). lia.
  - intros z' Hz' [Hz'j Hj].
    specialize (Hmax z' Hz' Hz'j).
    destruct (Z.eq_dec z' z) as [->|Hne]; [reflexivity|]. exfalso.
    destruct (span_spec L zs z') as [(n & (_ & _ & Hmin) & Hs)|[Hall Hs]].
    + specialize (Hmin z Hz ltac:(lia)). lia.
    + specialize (Hall z Hz). lia.
Qed.

Lemma NoDup_fmap_elem {A : Type} (f : A → Z) (l : list A) (x y : A) :
  NoDup (f <$> l) → x ∈ l → y ∈ l → f x = f y → x = y.
Proof.
  induction l as [|h t IH]; intros Hnd Hx Hy Hf.
  - apply elem_of_nil in Hx as [].
  - rewrite fmap_cons in Hnd. apply NoDup_cons in Hnd as [Hh Hnd].
    apply elem_of_cons in Hx as [->|Hx]; apply elem_of_cons in Hy as [->|Hy].
    + reflexivity.
    + exfalso. apply Hh. rewrite Hf. apply list_elem_of_fmap. eauto.
    + exfalso. apply Hh. rewrite <- Hf. apply list_elem_of_fmap. eauto.
    + exact (IH Hnd Hx Hy Hf).
Qed.

Lemma zones_of_span (a : arrays) (rec : PHDRRecord) :
  zones_of a rec = span (py_len (pbag a)) (bag_ndx <$> phdr a) (bag_ndx rec).
Proof.
  unfold span, zones_of, next_bag.
  rewrite (fold_left_fmap (next_step (bag_ndx rec)) bag_ndx).
  rewrite (next_of_perm (bag_ndx <$> sorted_phdr a) (bag_ndx <$> phdr a)).
  - reflexivity.
  - unfold sorted_phdr. rewrite py_sort_perm. reflexivity.
Qed.

Lemma gens_of_span (a : arrays) (bag : XBAGRecord) :
  gens_of a bag = span (py_len (pgen a)) (gen_ndx <$> pbag a) (gen_ndx bag).
Proof.
  unfold span, gens_of, next_gen.
  rewrite (fold_left_fmap (next_step (gen_ndx bag)) gen_ndx). reflexivity.
Qed.

(** X8. When the zone-start indices of the preset headers are pairwise
    distinct and lie inside the zone array, [m] (not negative) being the
    smallest of them, the zones of the presets tile the array from [m] on: every
    preset has a count that is not negative and a range that ends inside
    the array, every zone from [m] to the end of the array lies in the
    range of exactly one preset header, and the counts add up to
    [len(pbag) - m]. *)
Theorem zones_partition (a : arrays) (m : Z) :
  NoDup (bag_ndx <$> phdr a) →
  m ∈ bag_ndx <$> phdr a → 0 ≤ m →
  (∀ z, z ∈ bag_ndx <$> phdr a → m ≤ z ≤ py_len (pbag a)) →
  (∀ rec, rec ∈ phdr a →
     0 ≤ zones_of a rec ∧ bag_ndx rec + zones_of a rec ≤ py_len (pbag a))
  ∧ (∀ j, m ≤ j < py_len (pbag a) →
       ∃ rec, rec ∈ phdr a
         ∧ bag_ndx rec ≤ j < bag_ndx rec + zones_of a rec
         ∧ ∀ rec', rec' ∈ phdr a →
             bag_ndx rec' ≤ j < bag_ndx rec' + zones_of a rec' → rec' = rec)
  ∧ sum_Z (zones_of a <$> phdr a) = py_len (pbag a) - m.
Proof.
  intros Hnd Hm _ Hb. split; [|split].
  - intros rec Hrec. rewrite zones_of_span.
    assert (Hz : bag_ndx rec ∈ bag_ndx <$> phdr a)
      by (apply list_elem_of_fmap; eauto).
    apply span_bounds; [intros x Hx; apply Hb, Hx | apply Hb, Hz].
  - intros j [Hmj HjL].
    destruct (span_cover (py_len (pbag a)) _ m j Hm Hmj HjL)
      as (z & Hz & Hin & Huniq).
    apply list_elem_of_fmap in Hz as (rec & -> & Hrec).
    exists rec. split; [exact Hrec|]. split; [rewrite zones_of_span; exact Hin|].
    intros rec' Hrec' Hin'. rewrite zones_of_span in Hin'.
    apply (NoDup_fmap_elem bag_ndx (phdr a)); [exact Hnd | exact Hrec' | exact Hrec|].
    apply Huniq; [apply list_elem_of_fmap; eauto | exact Hin'].
  - rewrite <- (span_sum_min (py_len (pbag a)) m _ Hnd Hm);
      [|intros z Hz; apply Hb, Hz].
    unfold span_sum. rewrite <- list_fmap_compose. f_equal.
    apply list_fmap_ext. intros _ rec _. unfold compose. apply zones_of_span.
Qed.

Lemma zones_partition_witness :
  (∀ rec, rec ∈ phdr small_bank →
     0 ≤ zones_of small_bank rec
     ∧ bag_ndx rec + zones_of small_bank rec ≤ py_len (pbag small_bank))
  ∧ (∀ j, 0 ≤ j < py_len (pbag small_bank) →
       ∃ rec, rec ∈ phdr small_bank
         ∧ bag_ndx rec ≤ j < bag_ndx rec + zones_of small_bank rec
         ∧ ∀ rec', rec' ∈ phdr small_bank →
             bag_ndx rec' ≤ j < bag_ndx rec' + zones_of small_bank rec' →
             rec' = rec)
  ∧ sum_Z (zones_of small_bank <$> phdr small_bank) = py_len (pbag small_bank) - 0.
Proof.
  apply (zones_partition small_bank 0).
  - change (NoDup [0; 2]). repeat constructor; rewrite ?elem_of_cons, ?elem_of_nil; lia.
  - change (0 ∈ [0; 2]). left.
  - lia.
  - intros z Hz. change (z ∈ [0; 2]) in Hz. change (py_len (pbag small_bank)) with 3.
    rewrite !elem_of_cons, elem_of_nil in Hz. lia.
Defined.

(** X9. When the generator-start indices of the zones are pairwise
    distinct and lie inside the generator array, [m] (not negative) being
    the smallest of them, the generators of the zones tile the array from [m] on: every
    zone has a count that is not negative and a range that ends inside the
    array, every generator from [m] to the end of the array lies in the
    range of exactly one zone, and the counts add up to [len(pgen) - m]. *)
Theorem gens_partition (a : arrays) (m : Z) :
  NoDup (gen_ndx <$> pbag a) →
  m ∈ gen_ndx <$> pbag a → 0 ≤ m →
  (∀ z, z ∈ gen_ndx <$> pbag a → m ≤ z ≤ py_len (pgen a)) →
  (∀ bag, bag ∈ pbag a →
     0 ≤ gens_of a bag ∧ gen_ndx bag + gens_of a bag ≤ py_len (pgen a))
  ∧ (∀ j, m ≤ j < py_len (pgen a) →
       ∃ bag, bag ∈ pbag a
         ∧ gen_ndx bag ≤ j < gen_ndx bag + gens_of a bag
         ∧ ∀ bag', bag' ∈ pbag a →
             gen_ndx bag' ≤ j < gen_ndx bag' + gens_of a bag' → bag' = bag)
  ∧ sum_Z (gens_of a <$> pbag a) = py_len (pgen a) - m.
Proof.
  intros Hnd Hm _ Hb. split; [|split].
  - intros bag Hbag. rewrite gens_of_span.
    assert (Hz : gen_ndx bag ∈ gen_ndx <$> pbag a)
      by (apply list_elem_of_fmap; eauto).
    apply span_bounds; [intros x Hx; apply Hb, Hx | apply Hb, Hz].
  - intros j [Hmj HjL].
    destruct (span_cover (py_len (pgen a)) _ m j Hm Hmj HjL)
      as (z & Hz & Hin & Huniq).
    apply list_elem_of_fmap in Hz as (bag & -> & Hbag).
    exists bag. split; [exact Hbag|]. split; [rewrite gens_of_span; exact Hin|].
    intros bag' Hbag' Hin'. rewrite gens_of_span in Hin'.
    apply (NoDup_fmap_elem gen_ndx (pbag a)); [exact Hnd | exact Hbag' | exact Hbag|].
    apply Huniq; [apply list_elem_of_fmap; eauto | exact Hin'].
  - rewrite <- (span_sum_min (py_len (pgen a)) m _ Hnd Hm);
      [|intros z Hz; apply Hb, Hz].
    unfold span_sum. rewrite <- list_fmap_compose. f_equal.
    apply list_fmap_ext. intros _ bag _. unfold compose. apply gens_of_span.
Qed.

Lemma gens_partition_witness :
  (∀ bag, bag ∈ pbag small_bank →
     0 ≤ gens_of small_bank bag
     ∧ gen_ndx bag + gens_of small_bank bag ≤ py_len (pgen small_bank))
  ∧ (∀ j, 0 ≤ j < py_len (pgen small_bank) →
       ∃ bag, bag ∈ pbag small_bank
         ∧ gen_ndx bag ≤ j < gen_ndx bag + gens_of small_bank bag
         ∧ ∀ bag', bag' ∈ pbag small_bank →
             gen_ndx bag' ≤ j < gen_ndx bag' + gens_of small_bank bag' →
             bag' = bag)
  ∧ sum_Z (gens_of small_bank <$> pbag small_bank) = py_len (pgen small_bank) - 0.
Proof.
  apply (gens_partition small_bank 0).
  - change (NoDup [0; 1; 2]).
    repeat constructor; rewrite ?elem_of_cons, ?elem_of_nil; lia.
  - change (0 ∈ [0; 1; 2]). left.
  - lia.
  - intros z Hz. change (z ∈ [0; 1; 2]) in Hz. change (py_len (pgen small_bank)) with 3.
    rewrite !elem_of_cons, elem_of_nil in Hz. lia.
Defined.

(** ** Failures and successes of the resolver *)

Lemma py_index_Raise {A : Type} (l : list A) (i : Z) (e : exn) :
  py_index l i = Raise e → e = IndexError.
Proof.
  unfold py_index. destruct (_ <? 0); [congruence|].
  destruct (l !! _); congruence.
Qed.

Lemma py_index_Ok {A : Type} (l : list A) (i : Z) :
  0 ≤ i < py_len l → ∃ x, py_index l i = Ok x ∧ x ∈ l.
Proof.
  intros Hi. unfold py_index.
  destruct (Z.ltb_spec i 0); [lia|]. destruct (Z.ltb_spec i 0); [lia|].
  assert (Hlt : (Z.to_nat i < length l)%nat) by (unfold py_len in Hi; lia).
  apply lookup_lt_is_Some_2 in Hlt as (x & Hx). rewrite Hx.
  exists x. split; [reflexivity|]. apply list_elem_of_lookup. eauto.
Qed.

Lemma py_index_Ok_elem {A : Type} (l : list A) (i : Z) (x : A) :
  py_index l i = Ok x → x ∈ l.
Proof.
  unfold py_index. destruct (_ <? 0); [discriminate|].
  destruct (l !! _) as [y|] eqn:Hy; [|discriminate].
  intros [= <-]. apply list_elem_of_lookup. eauto.
Qed.

Lemma bind_Raise_inv {A B : Type} (f : A → result B) (m : result A) (e : exn) :
  m ≫= f = Raise e → m = Raise e ∨ ∃ a, m = Ok a ∧ f a = Raise e.
Proof. destruct m as [a|e']; cbn; [eauto | intros [= ->]; auto]. Qed.

Lemma mapM_result_Raise {A B : Type} (f : A → result B) (l : list A) (e : exn) :
  mapM_result f l = Raise e → ∃ x, x ∈ l ∧ f x = Raise e.
Proof.
  induction l as [|x l IH]; cbn; [discriminate|].
  intros H. apply bind_Raise_inv in H as [H|(y & Hy & H)].
  - exists x. split; [left | exact H].
  - apply bind_Raise_inv in H as [H|(ys & Hys & H)]; [|discriminate].
    destruct (IH H) as (x' & Hx' & Hf). exists x'. split; [right; exact Hx' | exact Hf].
Qed.

Lemma mapM_result_Ok {A B : Type} (f : A → result B) (l : list A) :
  (∀ x, x ∈ l → ∃ y, f x = Ok y) → ∃ ys, mapM_result f l = Ok ys.
Proof.
  induction l as [|x l IH]; intros H; cbn; [eauto|].
  destruct (H x) as (y & Hy); [left|]. rewrite Hy, bind_Ok.
  destruct IH as (ys & Hys); [intros x' Hx'; apply H; right; exact Hx'|].
  rewrite Hys. eauto.
Qed.

Section Failures.
Variable a : arrays.

Lemma gen_refs_Raise (gen_idx : Z) (e : exn) :
  gen_refs a gen_idx = Raise e → e = IndexError.
Proof.
  unfold gen_refs. intros H.
  apply bind_Raise_inv in H as [H|(gen & _ & H)];
    [apply (py_index_Raise _ _ _ H)|].
  destruct (decide _); [|discriminate].
  apply bind_Raise_inv in H as [H|(ins & _ & H)];
    [apply (py_index_Raise _ _ _ H) | discriminate].
Qed.

Lemma bag_refs_Raise (bag_idx : Z) (e : exn) :
  bag_refs a bag_idx = Raise e → e = IndexError.
Proof.
  unfold bag_refs. intros H.
  apply bind_Raise_inv in H as [H|(bag & _ & H)];
    [apply (py_index_Raise _ _ _ H)|].
  apply bind_Raise_inv in H as [H|(refs & _ & H)]; [|discriminate].
  apply mapM_result_Raise in H as (i & _ & H). apply (gen_refs_Raise _ _ H).
Qed.

Lemma bank_entry_Raise (rec : PHDRRecord) (e : exn) :
  bank_entry a rec = Raise e → e = IndexError.
Proof.
  unfold bank_entry. rewrite instruments_of_refs. unfold preset_refs. intros H.
  apply bind_Raise_inv in H as [H|(ins & _ & H)]; [|discriminate].
  apply bind_Raise_inv in H as [H|(refs & _ & H)]; [|discriminate].
  apply bind_Raise_inv in H as [H|(refs & _ & H)]; [|discriminate].
  apply mapM_result_Raise in H as (i & _ & H). apply (bag_refs_Raise _ _ H).
Qed.

(** X10. The only exception [process] can raise is [IndexError]: the
    dictionary lookup [banks[b]] never misses its key, and nothing else
    in the loops can fail but an index out of range. *)
Theorem process_raises_only_IndexError :
  (∃ banks, (process a).2 = Ok banks) ∨ (process a).2 = Raise IndexError.
Proof.
  unfold process; cbn [snd]. rewrite foldM_rec_step.
  destruct (mapM_result _ (sorted_phdr a)) as [ps|e] eqn:H.
  - left. eexists. reflexivity.
  - right. cbn. f_equal.
    apply mapM_result_Raise in H as (rec & _ & H).
    apply bind_Raise_inv in H as [H|(en & _ & H)]; [|discriminate].
    apply (bank_entry_Raise _ _ H).
Qed.
End Failures.

Lemma elem_of_py_range (a b i : Z) : i ∈ py_range a b ↔ a ≤ i < b.
Proof. unfold py_range. rewrite elem_of_seqZ. lia. Qed.

Section WellFormed.
Variable a : arrays.
Hypothesis bag_bounds : ∀ rec, rec ∈ phdr a → 0 ≤ bag_ndx rec ≤ py_len (pbag a).
Hypothesis gen_bounds : ∀ bag, bag ∈ pbag a → 0 ≤ gen_ndx bag ≤ py_len (pgen a).
Hypothesis inst_bounds :
  ∀ gen, gen ∈ pgen a → gen_oper gen = 41 → 0 ≤ gen_amount gen < py_len (inst a).

Lemma zones_of_upper (rec : PHDRRecord) :
  bag_ndx rec + zones_of a rec ≤ py_len (pbag a).
Proof.
  unfold zones_of.
  pose proof (next_bag_spec (sorted_phdr a) (bag_ndx rec)) as H.
  destruct (next_bag (sorted_phdr a) (bag_ndx rec)) as [n|]; [|lia].
  destruct H as (Hn & _ & _).
  apply list_elem_of_fmap in Hn as (r & -> & Hr).
  unfold sorted_phdr in Hr. rewrite py_sort_perm in Hr.
  specialize (bag_bounds r Hr). lia.
Qed.

Lemma gens_of_upper (bag : XBAGRecord) :
  gen_ndx bag + gens_of a bag ≤ py_len (pgen a).
Proof.
  unfold gens_of.
  pose proof (next_gen_spec (pbag a) (gen_ndx bag)) as H.
  destruct (next_gen (pbag a) (gen_ndx bag)) as [n|]; [|lia].
  destruct H as (Hn & _ & _).
  apply list_elem_of_fmap in Hn as (b & -> & Hb).
  specialize (gen_bounds b Hb). lia.
Qed.

Lemma gen_refs_Ok (gen_idx : Z) :
  0 ≤ gen_idx < py_len (pgen a) → ∃ refs, gen_refs a gen_idx = Ok refs.
Proof.
  intros Hi. unfold gen_refs.
  destruct (py_index_Ok (pgen a) gen_idx Hi) as (gen & Hgen & Hin).
  rewrite Hgen, bind_Ok. destruct (decide (gen_oper gen = 41)) as [Ho|_]; [|eauto].
  destruct (py_index_Ok (inst a) (gen_amount gen) (inst_bounds gen Hin Ho))
    as (ins & Hins & _).
  rewrite Hins. eauto.
Qed.

Lemma bag_refs_Ok (bag_idx : Z) :
  0 ≤ bag_idx < py_len (pbag a) → ∃ refs, bag_refs a bag_idx = Ok refs.
Proof.
  intros Hi. unfold bag_refs.
  destruct (py_index_Ok (pbag a) bag_idx Hi) as (bag & Hbag & Hin).
  rewrite Hbag, bind_Ok.
  destruct (mapM_result_Ok (gen_refs a)
              (py_range (gen_ndx bag) (gen_ndx bag + gens_of a bag)))
    as (refs & Hrefs).
  { intros j Hj. apply elem_of_py_range in Hj. apply gen_refs_Ok.
    pose proof (gen_bounds bag Hin). pose proof (gens_of_upper bag). lia. }
  rewrite Hrefs. eauto.
Qed.

Lemma bank_entry_Ok (rec : PHDRRecord) :
  rec ∈ phdr a → ∃ e, bank_entry a rec = Ok e.
Proof.
  intros Hrec. unfold bank_entry. rewrite instruments_of_refs. unfold preset_refs.
  destruct (mapM_result_Ok (bag_refs a)
              (py_range (bag_ndx rec) (bag_ndx rec + zones_of a rec)))
    as (refs & Hrefs).
  { intros i Hi. apply elem_of_py_range in Hi. apply bag_refs_Ok.
    pose proof (bag_bounds rec Hrec). pose proof (zones_of_upper rec). lia. }
  rewrite Hrefs. eauto.
Qed.

(** X11. [process] returns a dictionary, raising nothing, whenever every
    zone-start index of a preset header lies in [0, len(pbag)], every
    generator-start index of a zone lies in [0, len(pgen)], and every
    operator-41 generator has an amount in [0, len(inst)). *)
Theorem process_returns : ∃ banks, (process a).2 = Ok banks.
Proof.
  unfold process; cbn [snd]. rewrite foldM_rec_step.
  destruct (mapM_result_Ok (λ rec, e ← bank_entry a rec; Ok (bank rec, e))
              (sorted_phdr a)) as (ps & Hps).
  { intros rec Hrec. unfold sorted_phdr in Hrec. rewrite py_sort_perm in Hrec.
    destruct (bank_entry_Ok rec Hrec) as (e & He). rewrite He. eauto. }
  rewrite Hps. eauto.
Qed.
End WellFormed.

Lemma process_returns_witness : ∃ banks, (process small_bank).2 = Ok banks.
Proof.
  apply (process_returns small_bank).
  - intros rec Hrec. change (rec ∈ phdr small_bank) in Hrec.
    unfold small_bank in Hrec; cbn [phdr] in Hrec.
    rewrite !elem_of_cons, elem_of_nil in Hrec.
    destruct Hrec as [->|[->|[]]]; vm_compute; split; congruence.
  - intros bag Hbag. unfold small_bank in Hbag; cbn [pbag] in Hbag.
    rewrite !elem_of_cons, elem_of_nil in Hbag.
    destruct Hbag as [->|[->|[->|[]]]]; vm_compute; split; congruence.
  - intros gen Hgen _. unfold small_bank in Hgen; cbn [pgen] in Hgen.
    rewrite !elem_of_cons, elem_of_nil in Hgen.
    destruct Hgen as [->|[->|[->|[]]]]; vm_compute; split; congruence.
Defined.



(** [process] reads the preset headers through their sorted list only. *)
Lemma py_sort_idem {A : Type} (key : A → Z) (l : list A) :
  py_sort key (py_sort key l) = py_sort key l.
Proof. apply py_sort_id, py_sort_sorted. Qed.

(** X13. Running [process] again on the arrays it leaves behind changes
    nothing: the arrays stay as the first run left them and the outcome,
    dictionary or exception, is the same. *)
Theorem process_idempotent (a : arrays) :
  process (process a).1 = ((process a).1, (process a).2).
Proof.
  unfold process at 1. cbn [fst snd].
  unfold process, rec_step, bag_step, gen_step, zones_of, gens_of, sorted_phdr.
  cbn [fst snd phdr pbag pmod pgen inst ibag imod igen shdr].
  rewrite !py_sort_idem. reflexivity.
Qed.

(** ** The framing checks of [parse_file] *)

Lemma f_read_all (file : list byte) (n : Z) (w : world) :
  fpos w = 0 → 0 ≤ n →
  f_read file n w =
  (Ok (take (Z.to_nat n) file),
   {| stdout := stdout w; fpos := Z.min n (py_len file) |}).
Proof.
  intros Hpos Hn. unfold f_read. rewrite Hpos.
  destruct (Z.ltb_spec n 0); [lia|].
  change (Z.to_nat 0) with 0%nat. rewrite drop_0.
  f_equal. f_equal. unfold py_len. rewrite length_take. lia.
Qed.

(** X14. A file of fewer than 24 bytes, the empty file included, makes
    [parse_file] raise the error of [struct.unpack] on the file header;
    nothing is printed. *)
Theorem parse_file_too_short (file : list byte) (w : world) :
  py_len file < 24 →
  parse_file file w =
  (Raise StructError, {| stdout := stdout w; fpos := py_len file |}).
Proof.
  intros Hlen. unfold parse_file.
  erewrite IO_bind_Ok; [|reflexivity]. cbn beta.
  erewrite IO_bind_Ok; [|apply f_read_all; [reflexivity | lia]]. cbn beta.
  cbn [stdout].
  assert (Hshort : struct_unpack [FI; FI; FI; FI; FI; FI]
                     (py_slice (take (Z.to_nat 1024) file) 0 24) = Raise StructError).
  { unfold struct_unpack. rewrite decide_False; [reflexivity|].
    change (calcsize [FI; FI; FI; FI; FI; FI]) with 24.
    assert (Hl : py_len (take (Z.to_nat 1024) file) = py_len file).
    { unfold py_len in *. rewrite length_take. lia. }
    assert (0 ≤ py_len file) by (unfold py_len; lia).
    rewrite py_slice_tail_length by lia. lia. }
  rewrite Hshort. unfold mbind, IO_bind, lift.
  rewrite Z.min_r by lia. reflexivity.
Qed.

Lemma parse_file_too_short_witness :
  parse_file [] world0 =
  (Raise StructError, {| stdout := stdout world0; fpos := py_len (@nil byte) |}).
Proof. apply (parse_file_too_short [] world0). reflexivity. Defined.

Lemma file_header_fields (t sz rest : list byte) :
  length t = 4%nat → length sz = 4%nat → 16 ≤ py_len rest →
  ∃ vs, struct_unpack [FI; FI; FI; FI; FI; FI]
          (py_slice (take (Z.to_nat 1024) (t ++ sz ++ rest)) 0 24)
        = Ok (VInt (le_uint t) :: VInt (le_uint sz) :: vs).
Proof.
  intros Ht Hsz Hrest.
  assert (Hlen : 24 ≤ py_len (t ++ sz ++ rest)).
  { unfold py_len in *. rewrite !length_app. lia. }
  rewrite py_slice_inside;
    [| lia | lia | unfold py_len in *; rewrite length_take; lia].
  change (Z.to_nat 0) with 0%nat. change (Z.to_nat (24 - 0)) with 24%nat.
  change (Z.to_nat 1024) with 1024%nat.
  rewrite drop_0, take_take. change (24 `min` 1024)%nat with 24%nat.
  unfold struct_unpack. rewrite decide_True; last first.
  { change (calcsize [FI; FI; FI; FI; FI; FI]) with 24.
    unfold py_len in *. rewrite length_take. lia. }
  destruct t as [|t0 [|t1 [|t2 [|t3 [|? ?]]]]]; try discriminate Ht.
  destruct sz as [|s0 [|s1 [|s2 [|s3 [|? ?]]]]]; try discriminate Hsz.
  cbn [app firstn]. cbn [unpack_items unpack_item item_size firstn skipn].
  eexists. reflexivity.
Qed.

(** X15. A file of at least 24 bytes that does not start with the form
    tag makes [parse_file] print the line naming that tag and exit with
    status 1; one that starts with the form tag but whose declared size
    plus 8 is not the length of the file makes it print that the file is
    incomplete and exit with status 1. In both cases only the first
    kilobyte has been read. *)
Theorem parse_file_framing (w : world) :
  (∀ t rest : list byte,
     length t = 4%nat → t ≠ list_byte_of_string "RIFF" → 20 ≤ py_len rest →
     parse_file (t ++ rest) w =
     (Raise (SystemExit 1),
      {| stdout := stdout w ++ [lit "File format error: expected ID 'RIFF' not found"];
         fpos := Z.min 1024 (py_len (t ++ rest)) |}))
  ∧ (∀ (n : Z) (rest : list byte),
       0 ≤ n < 2 ^ 32 → 16 ≤ py_len rest →
       n + 8 ≠ py_len (list_byte_of_string "RIFF" ++ le_bytes 4 n ++ rest) →
       parse_file (list_byte_of_string "RIFF" ++ le_bytes 4 n ++ rest) w =
       (Raise (SystemExit 1),
        {| stdout := stdout w ++ [lit "File is incomplete"];
           fpos := Z.min 1024
                     (py_len (list_byte_of_string "RIFF" ++ le_bytes 4 n ++ rest)) |})).
Proof.
  split.
  - intros t rest Ht Hne Hrest.
    assert (Hsplit : rest = take 4 rest ++ drop 4 rest) by (rewrite take_drop; reflexivity).
    destruct (file_header_fields t (take 4 rest) (drop 4 rest)) as (vs & Hvs);
      [exact Ht | rewrite length_take; unfold py_len in Hrest; lia
      | unfold py_len in *; rewrite length_drop; lia |].
    rewrite <- Hsplit in Hvs.
    unfold parse_file.
    erewrite IO_bind_Ok; [|reflexivity]. cbn beta.
    erewrite IO_bind_Ok; [|apply f_read_all; [reflexivity | lia]]. cbn beta.
    rewrite Hvs.
    erewrite IO_bind_Ok; [|reflexivity]. cbn beta.
    rewrite get_int_0.
    erewrite IO_bind_Ok; [|reflexivity]. cbn beta.
    erewrite IO_bind_Ok; last first.
    { unfold check_id. erewrite IO_bind_Ok; [|reflexivity]. cbn beta.
      rewrite decide_True; [reflexivity|].
      change (le_uint t ≠ le_uint (list_byte_of_string "RIFF")).
      intros Heq. apply Hne, le_uint_inj; [rewrite Ht; reflexivity | exact Heq]. }
    cbn beta. reflexivity.
  - intros n rest Hn Hrest Hsize.
    destruct (file_header_fields (list_byte_of_string "RIFF") (le_bytes 4 n) rest)
      as (vs & Hvs); [reflexivity | apply length_le_bytes | exact Hrest |].
    unfold parse_file.
    erewrite IO_bind_Ok; [|reflexivity]. cbn beta.
    erewrite IO_bind_Ok; [|apply f_read_all; [reflexivity | lia]]. cbn beta.
    rewrite Hvs.
    erewrite IO_bind_Ok; [|reflexivity]. cbn beta.
    rewrite get_int_0.
    erewrite IO_bind_Ok; [|reflexivity]. cbn beta.
    erewrite IO_bind_Ok; [|reflexivity]. cbn beta.
    erewrite IO_bind_Ok; [|reflexivity]. cbn beta.
    rewrite get_int_1, le_uint_le_bytes by (cbn; lia).
    erewrite IO_bind_Ok; [|reflexivity]. cbn beta.
    rewrite decide_True by exact Hsize.
    reflexivity.
Qed.

Lemma parse_file_framing_witness :
  parse_file ([x52; x49; x46; x58] ++ replicate 20 x00) world0 =
  (Raise (SystemExit 1),
   {| stdout := stdout world0
                ++ [lit "File format error: expected ID 'RIFF' not found"];
      fpos := Z.min 1024 (py_len ([x52; x49; x46; x58] ++ replicate 20 x00)) |})
  ∧ parse_file (list_byte_of_string "RIFF" ++ le_bytes 4 100 ++ replicate 16 x00)
      world0 =
    (Raise (SystemExit 1),
     {| stdout := stdout world0 ++ [lit "File is incomplete"];
        fpos := Z.min 1024
                  (py_len (list_byte_of_string "RIFF" ++ le_bytes 4 100
                           ++ replicate 16 x00)) |}).
Proof.
  destruct (parse_file_framing world0) as [H1 H2]. split.
  - apply H1; [reflexivity | discriminate | vm_compute; congruence].
  - apply H2; vm_compute; try split; congruence.
Defined.

(** ** The INFO list decoder *)

(** A sub-chunk with another tag at the position is reported as not
    found, whatever its size field and content. *)
Lemma parse_sub_chunk_other (pre t sz post : list byte) (tag : string) :
  length t = 4%nat → length sz = 4%nat → String.length tag = 4%nat →
  t ≠ list_byte_of_string tag →
  parse_sub_chunk (pre ++ (t ++ sz) ++ post) (py_len pre) tag = Ok None.
Proof.
  intros Ht Hsz Htag Hne. unfold parse_sub_chunk.
  replace (py_len pre) with (py_len pre + 0) at 1 by lia.
  rewrite py_slice_middle;
    [| lia | lia | unfold py_len; rewrite length_app, Ht, Hsz; reflexivity].
  change (Z.to_nat (8 - 0)) with 8%nat. change (Z.to_nat 0) with 0%nat.
  rewrite drop_0, take_ge by (rewrite length_app, Ht, Hsz; reflexivity).
  rewrite (struct_unpack_header t sz Ht Hsz), bind_Ok.
  rewrite (chunk_id_tag tag Htag), bind_Ok, get_int_0, bind_Ok.
  rewrite decide_True; [reflexivity|].
  intros Heq. apply Hne, le_uint_inj; [|exact Heq].
  rewrite length_list_byte_of_string. congruence.
Qed.

Lemma foldM_Raise {A B : Type} (f : B → A → result B) (l : list A) (b : B) (e : exn) :
  foldM f b l = Raise e → ∃ b' x, f b' x = Raise e.
Proof.
  revert b; induction l as [|x l IH]; intros b; cbn; [discriminate|].
  intros H. apply bind_Raise_inv in H as [H|(b' & _ & H)]; eauto.
Qed.

Lemma byte_at_Raise (data : list byte) (j : Z) (e : exn) :
  byte_at data j = Raise e → e = IndexError.
Proof.
  unfold byte_at. intros H. apply bind_Raise_inv in H as [H|(b & _ & H)];
    [apply (py_index_Raise _ _ _ H) | discriminate].
Qed.

Lemma struct_unpack_two (bs : list byte) :
  struct_unpack [FI; FI] bs = Raise StructError
  ∨ ∃ x y, struct_unpack [FI; FI] bs = Ok [VInt x; VInt y].
Proof.
  unfold struct_unpack. destruct (decide _); [right | left; reflexivity].
  cbn [unpack_items unpack_item]. eauto.
Qed.

(** The only exceptions of [parse_sub_chunk] on a four-character tag are
    those of [struct.unpack] and of indexing. *)
Lemma parse_sub_chunk_Raise (data : list byte) (cp : Z) (tag : string) (e : exn) :
  String.length tag = 4%nat →
  parse_sub_chunk data cp tag = Raise e → e = StructError ∨ e = IndexError.
Proof.
  intros Htag. unfold parse_sub_chunk.
  destruct (struct_unpack_two (py_slice data cp (cp + 8))) as [->|(x & y & ->)].
  - intros [= <-]. left. reflexivity.
  - rewrite bind_Ok, (chunk_id_tag tag Htag), bind_Ok, get_int_0, bind_Ok.
    destruct (decide (x ≠ _)); [discriminate|].
    rewrite get_int_1, bind_Ok.
    destruct (decide (tag ∈ _)).
    + intros H. right.
      repeat (apply bind_Raise_inv in H as [H|(? & _ & H)];
              [apply (byte_at_Raise _ _ _ H)|]).
      discriminate H.
    + intros H. right.
      apply bind_Raise_inv in H as [H|(? & _ & H)]; [|discriminate].
      apply foldM_Raise in H as (s & j & H).
      apply bind_Raise_inv in H as [H|(? & _ & H)];
        [apply (byte_at_Raise _ _ _ H) | discriminate].
Qed.

Lemma info_loop_inv (data : list byte) (cat : list (string * (string * bool))) :
  Forall (λ c, String.length c.1 = 4%nat) cat →
  ∀ (info : info_list) (cp : Z) (w w' : world) r,
    info_loop data cat info cp w = (r, w') →
    fpos w' = fpos w
    ∧ match r with
      | Ok (Some info') =>
        stdout w' = stdout w
        ∧ ∃ added, info' = info ++ added
                 ∧ added.*1 `sublist_of` (λ c, c.2.1) <$> cat
                 ∧ ∀ c, c ∈ cat → c.2.2 = true → c.2.1 ∈ added.*1
      | Ok None =>
        ∃ c, c ∈ cat ∧ c.2.2 = true
             ∧ stdout w' = stdout w ++ [missing_line c.2.1]
      | Raise e => stdout w' = stdout w ∧ (e = StructError ∨ e = IndexError)
      end.
Proof.
  induction 1 as [|[id_ [label mandatory]] cat Hid _ IH]; intros info cp w w' r.
  - cbn. intros [= <- <-]. split; [reflexivity|]. split; [reflexivity|].
    exists []. rewrite app_nil_r. split; [reflexivity|]. split; [constructor|].
    intros c Hc. apply elem_of_nil in Hc as [].
  - cbn [info_loop]. unfold mbind at 1, IO_bind, lift. cbn [fst snd] in *.
    destruct (parse_sub_chunk data cp id_) as [[[data_str size]|]|e] eqn:Hsub.
    + intros H. destruct (IH _ _ _ _ _ H) as [Hpos Hr]. split; [exact Hpos|].
      destruct r as [[info'|]|e].
      * destruct Hr as (Hout & added & -> & Hsub' & Hmand).
        split; [exact Hout|]. exists ((label, data_str) :: added).
        rewrite <- app_assoc. split; [reflexivity|]. split.
        -- cbn. apply sublist_skip, Hsub'.
        -- intros c Hc Hm. apply elem_of_cons in Hc as [->|Hc].
           ++ left.
           ++ right. apply Hmand; assumption.
      * destruct Hr as (c & Hc & Hm & Hout). exists c.
        split; [right; exact Hc|]. split; assumption.
      * exact Hr.
    + destruct mandatory.
      * intros [= <- <-]. split; [reflexivity|].
        exists (id_, (label, true)). split; [left|]. split; reflexivity.
      * intros H. destruct (IH _ _ _ _ _ H) as [Hpos Hr]. split; [exact Hpos|].
        destruct r as [[info'|]|e].
        -- destruct Hr as (Hout & added & -> & Hsub' & Hmand).
           split; [exact Hout|]. exists added.
           split; [reflexivity|]. split.
           ++ cbn. apply sublist_cons, Hsub'.
           ++ intros c Hc Hm. apply elem_of_cons in Hc as [->|Hc];
                [discriminate Hm | apply Hmand; assumption].
        -- destruct Hr as (c & Hc & Hm & Hout). exists c.
           split; [right; exact Hc|]. split; assumption.
        -- exact Hr.
    + intros [= <- <-]. split; [reflexivity|]. split; [reflexivity|].
      apply (parse_sub_chunk_Raise _ _ _ _ Hid Hsub).
Qed.

(** X16. Whatever the bytes, [parse_info_list_chunk] never moves the file
    position. When it returns a list, it has printed nothing, the labels
    of the list are pairwise distinct and in catalog order, and the three
    mandatory labels are among them. When it returns [None], it has
    printed exactly one line, naming a mandatory sub-chunk. When it
    raises, it has printed nothing and the exception is that of
    [struct.unpack] or [IndexError]. *)
Theorem info_list_invariants (data : list byte) (cp : Z) (w w' : world)
    (r : result (option info_list)) :
  parse_info_list_chunk data cp w = (r, w') →
  fpos w' = fpos w
  ∧ match r with
    | Ok (Some info) =>
      stdout w' = stdout w
      ∧ info.*1 `sublist_of` catalog_labels
      ∧ NoDup info.*1
      ∧ "Version"%string ∈ info.*1
      ∧ "Target Sound Engine"%string ∈ info.*1
      ∧ "Sound Font Bank Name"%string ∈ info.*1
    | Ok None =>
      ∃ label, label ∈ ["Version"; "Target Sound Engine";
                        "Sound Font Bank Name"]%string
               ∧ stdout w' = stdout w ++ [missing_line label]
    | Raise e => stdout w' = stdout w ∧ (e = StructError ∨ e = IndexError)
    end.
Proof.
  unfold parse_info_list_chunk. intros H.
  assert (Hcat : Forall (λ c : string * (string * bool), String.length c.1 = 4%nat) chunks).
  { unfold chunks. repeat constructor. }
  destruct (info_loop_inv data chunks Hcat [] cp w w' r H) as [Hpos Hr].
  split; [exact Hpos|]. destruct r as [[info|]|e].
  - destruct Hr as (Hout & added & -> & Hsub & Hmand). cbn [app].
    split; [exact Hout|]. split; [exact Hsub|]. split.
    + eapply sublist_NoDup; [|exact Hsub].
      unfold catalog_labels, chunks. cbn [fmap list_fmap fst snd].
      repeat (constructor; [rewrite ?elem_of_cons, ?elem_of_nil; intuition discriminate|]).
      constructor.
    + repeat split.
      * apply (Hmand ("ifil", ("Version", true))%string); [|reflexivity].
        unfold chunks. left.
      * apply (Hmand ("isng", ("Target Sound Engine", true))%string); [|reflexivity].
        unfold chunks. right. left.
      * apply (Hmand ("INAM", ("Sound Font Bank Name", true))%string); [|reflexivity].
        unfold chunks. right. right. left.
  - destruct Hr as (c & Hc & Hm & Hout). exists c.2.1. split; [|exact Hout].
    unfold chunks in Hc. rewrite !elem_of_cons, elem_of_nil in Hc.
    repeat (destruct Hc as [->|Hc];
            [first [discriminate Hm | rewrite !elem_of_cons; cbn; tauto]|]).
    destruct Hc.
  - exact Hr.
Qed.

Lemma info_list_invariants_witness :
  fpos world0 = fpos world0
  ∧ ∃ label, label ∈ ["Version"; "Target Sound Engine";
                      "Sound Font Bank Name"]%string
             ∧ stdout
                 {| stdout := [missing_line "Target Sound Engine"]; fpos := 0 |}
               = stdout world0 ++ [missing_line label].
Proof.
  apply (info_list_invariants (take 1024 file_no_engine) 24 world0
           {| stdout := [missing_line "Target Sound Engine"]; fpos := 0 |}
           (Ok None)).
  vm_compute. reflexivity.
Defined.

Section InfoSequence.
Variables (pre post : list byte) (v0 v1 v2 v3 : byte) (w : world).

Let ifil : list byte := sub_chunk_bytes "ifil" [v0; v1; v2; v3].

Let version : str :=
  fmt_int (Z.shiftl (byte_val v1) 8 + byte_val v0) ++ lit "."
  ++ fmt_int (Z.shiftl (byte_val v3) 8 + byte_val v2).

Lemma ifil_found (rest : list byte) :
  parse_sub_chunk (pre ++ ifil ++ rest) (py_len pre) "ifil" =
  Ok (Some (version, 12)).
Proof.
  apply parse_sub_chunk_version; try reflexivity. left.
Qed.

Lemma ifil_length : py_len (pre ++ ifil) = py_len pre + 12.
Proof. unfold py_len. rewrite length_app. cbn. lia. Qed.

(** X17. Sub-chunks are matched one after the other from the given
    position: when the version sub-chunk is followed by eight bytes whose
    first four are not the tag of the target engine, the engine is reported
    missing and [None] is returned, whatever follows, a target engine
    sub-chunk placed later included. *)
Theorem info_out_of_order (t sz : list byte) :
  length t = 4%nat → length sz = 4%nat → t ≠ list_byte_of_string "isng" →
  parse_info_list_chunk (pre ++ ifil ++ (t ++ sz) ++ post) (py_len pre) w =
  (Ok None,
   {| stdout := stdout w ++ [missing_line "Target Sound Engine"];
      fpos := fpos w |}).
Proof.
  intros Ht Hsz Hne. unfold parse_info_list_chunk, chunks.
  rewrite (info_loop_found _ _ _ _ _ _ _ _ _ _ (ifil_found _)).
  apply info_loop_missing_mandatory.
  replace (pre ++ ifil ++ (t ++ sz) ++ post) with ((pre ++ ifil) ++ (t ++ sz) ++ post)
    by (rewrite <- !app_assoc; reflexivity).
  rewrite <- ifil_length.
  apply parse_sub_chunk_other; [exact Ht | exact Hsz | reflexivity | exact Hne].
Qed.

(** X18. The three mandatory sub-chunks in catalog order, followed by
    eight bytes whose first four are the tag of no optional sub-chunk of
    the catalog (the next list of the file, or an unknown sub-chunk), give
    the list of exactly three entries: the version, the engine and the
    bank name, the texts being the content bytes but the last, stripped of
    NULs. Nothing after these eight bytes is looked at. *)
Theorem info_mandatory_three (engine name t sz : list byte) :
  py_len engine < 2 ^ 32 → py_len name < 2 ^ 32 →
  length t = 4%nat → length sz = 4%nat →
  (∀ c, c ∈ drop 3 chunks → t ≠ list_byte_of_string c.1) →
  parse_info_list_chunk
    (pre ++ ifil ++ sub_chunk_bytes "isng" engine
     ++ sub_chunk_bytes "INAM" name ++ (t ++ sz) ++ post)
    (py_len pre) w =
  (Ok (Some [("Version"%string, version);
             ("Target Sound Engine"%string,
              strip 0 (byte_val <$> take (length engine - 1) engine));
             ("Sound Font Bank Name"%string,
              strip 0 (byte_val <$> take (length name - 1) name))]),
   w).
Proof.
  intros Heng Hname Ht Hsz Hopt. unfold parse_info_list_chunk, chunks.
  set (isng := sub_chunk_bytes "isng" engine).
  set (inam := sub_chunk_bytes "INAM" name).
  rewrite (info_loop_found _ _ _ _ _ _ _ _ _ _ (ifil_found _)).
  assert (Hisng : parse_sub_chunk (pre ++ ifil ++ isng ++ inam ++ (t ++ sz) ++ post)
                    (py_len pre + 12) "isng" =
                  Ok (Some (strip 0 (byte_val <$> take (length engine - 1) engine),
                            py_len engine + 8))).
  { replace (pre ++ ifil ++ isng ++ inam ++ (t ++ sz) ++ post)
      with ((pre ++ ifil) ++ isng ++ inam ++ (t ++ sz) ++ post)
      by (rewrite <- !app_assoc; reflexivity).
    rewrite <- ifil_length.
    apply (text_sub_chunk _ _ "isng" ("Target Sound Engine"%string, true));
      [unfold chunks; right; left | | exact Heng].
    rewrite !elem_of_cons, elem_of_nil. intros [H|[H|[]]]; discriminate H. }
  rewrite (info_loop_found _ _ _ _ _ _ _ _ _ _ Hisng).
  assert (Hl2 : py_len ((pre ++ ifil) ++ isng) = py_len pre + 12 + (py_len engine + 8)).
  { unfold py_len. rewrite !length_app. change (length ifil) with 12%nat.
    unfold isng, sub_chunk_bytes. rewrite !length_app, length_le_bytes.
    change (length (list_byte_of_string "isng")) with 4%nat. lia. }
  assert (Hinam : parse_sub_chunk (pre ++ ifil ++ isng ++ inam ++ (t ++ sz) ++ post)
                    (py_len pre + 12 + (py_len engine + 8)) "INAM" =
                  Ok (Some (strip 0 (byte_val <$> take (length name - 1) name),
                            py_len name + 8))).
  { rewrite <- Hl2.
    replace (pre ++ ifil ++ isng ++ inam ++ (t ++ sz) ++ post)
      with (((pre ++ ifil) ++ isng) ++ inam ++ (t ++ sz) ++ post)
      by (rewrite <- !app_assoc; reflexivity).
    apply (text_sub_chunk _ _ "INAM" ("Sound Font Bank Name"%string, true));
      [unfold chunks; right; right; left | | exact Hname].
    rewrite !elem_of_cons, elem_of_nil. intros [H|[H|[]]]; discriminate H. }
  rewrite (info_loop_found _ _ _ _ _ _ _ _ _ _ Hinam).
  assert (Hl3 : py_len (((pre ++ ifil) ++ isng) ++ inam)
                = py_len pre + 12 + (py_len engine + 8) + (py_len name + 8)).
  { unfold py_len in *. rewrite length_app, Nat2Z.inj_add, Hl2.
    unfold inam, sub_chunk_bytes. rewrite !length_app, length_le_bytes.
    change (length (list_byte_of_string "INAM")) with 4%nat. lia. }
  assert (Hother : ∀ tag : string,
            String.length tag = 4%nat → t ≠ list_byte_of_string tag →
            parse_sub_chunk (pre ++ ifil ++ isng ++ inam ++ (t ++ sz) ++ post)
              (py_len pre + 12 + (py_len engine + 8) + (py_len name + 8)) tag
            = Ok None).
  { intros tag Htag Hne. rewrite <- Hl3.
    replace (pre ++ ifil ++ isng ++ inam ++ (t ++ sz) ++ post)
      with ((((pre ++ ifil) ++ isng) ++ inam) ++ (t ++ sz) ++ post)
      by (rewrite <- !app_assoc; reflexivity).
    apply parse_sub_chunk_other; assumption. }
  cbn [app].
  assert (Hskip : ∀ (id_ label : string) cat' info,
            String.length id_ = 4%nat →
            (id_, (label, false)) ∈ drop 3 chunks →
            info_loop (pre ++ ifil ++ isng ++ inam ++ (t ++ sz) ++ post)
              ((id_, (label, false)) :: cat') info
              (py_len pre + 12 + (py_len engine + 8) + (py_len name + 8)) w
            = info_loop (pre ++ ifil ++ isng ++ inam ++ (t ++ sz) ++ post)
                cat' info
                (py_len pre + 12 + (py_len engine + 8) + (py_len name + 8)) w).
  { intros id_ label cat' info Hid Hin.
    apply info_loop_missing_optional, Hother; [exact Hid|].
    apply (Hopt _ Hin). }
  unfold chunks in Hskip. cbn [drop] in Hskip.
  do 8 (rewrite Hskip;
        [| reflexivity
         | repeat first [apply list_elem_of_here | apply list_elem_of_further]]).
  reflexivity.
Qed.
End InfoSequence.

Lemma info_out_of_order_witness :
  parse_info_list_chunk
    ([] ++ sub_chunk_bytes "ifil" [x02; x00; x01; x00]
     ++ (list_byte_of_string "INAM" ++ [x02; x00; x00; x00])
     ++ [x41; x00] ++ sub_chunk_bytes "isng" [x45; x00])
    (py_len (@nil byte)) world0 =
  (Ok None,
   {| stdout := stdout world0 ++ [missing_line "Target Sound Engine"];
      fpos := fpos world0 |}).
Proof.
  apply (info_out_of_order [] ([x41; x00] ++ sub_chunk_bytes "isng" [x45; x00])
           x02 x00 x01 x00 world0 (list_byte_of_string "INAM") [x02; x00; x00; x00]);
    [reflexivity | reflexivity | discriminate].
Defined.

Lemma info_mandatory_three_witness :
  parse_info_list_chunk
    ([] ++ sub_chunk_bytes "ifil" [x02; x00; x01; x00]
     ++ sub_chunk_bytes "isng" [x45; x4d; x55; x00]
     ++ sub_chunk_bytes "INAM" [x41; x00]
     ++ (list_byte_of_string "LIST" ++ [x04; x00; x00; x00]) ++ [])
    (py_len (@nil byte)) world0 =
  (Ok (Some [("Version"%string,
              fmt_int (Z.shiftl (byte_val x00) 8 + byte_val x02) ++ lit "."
              ++ fmt_int (Z.shiftl (byte_val x00) 8 + byte_val x01));
             ("Target Sound Engine"%string,
              strip 0 (byte_val <$> take (length [x45; x4d; x55; x00] - 1)
                                      [x45; x4d; x55; x00]));
             ("Sound Font Bank Name"%string,
              strip 0 (byte_val <$> take (length [x41; x00] - 1) [x41; x00]))]),
   world0).
Proof.
  apply (info_mandatory_three [] [] x02 x00 x01 x00 world0
           [x45; x4d; x55; x00] [x41; x00]
           (list_byte_of_string "LIST") [x04; x00; x00; x00]);
    [vm_compute; reflexivity | vm_compute; reflexivity | reflexivity | reflexivity |].
  intros c Hc. unfold chunks in Hc. cbn [drop] in Hc.
  rewrite !elem_of_cons, elem_of_nil in Hc.
  repeat (destruct Hc as [->|Hc]; [discriminate|]). destruct Hc.
Defined.

(** ** A whole file *)

Lemma check_id_match (tag : string) (w : world) :
  String.length tag = 4%nat →
  check_id (le_uint (list_byte_of_string tag)) tag w = (Ok true, w).
Proof.
  intros Htag. unfold check_id, mbind, IO_bind, lift.
  rewrite (chunk_id_tag tag Htag), decide_False by tauto. reflexivity.
Qed.

Lemma struct_unpack_six (t1 s1 t2 t3 s2 t4 : list byte) :
  length t1 = 4%nat → length s1 = 4%nat → length t2 = 4%nat →
  length t3 = 4%nat → length s2 = 4%nat → length t4 = 4%nat →
  struct_unpack [FI; FI; FI; FI; FI; FI] (t1 ++ s1 ++ t2 ++ t3 ++ s2 ++ t4) =
  Ok [VInt (le_uint t1); VInt (le_uint s1); VInt (le_uint t2);
      VInt (le_uint t3); VInt (le_uint s2); VInt (le_uint t4)].
Proof.
  intros H1 H2 H3 H4 H5 H6.
  destruct t1 as [|? [|? [|? [|? [|? ?]]]]]; try discriminate H1.
  destruct s1 as [|? [|? [|? [|? [|? ?]]]]]; try discriminate H2.
  destruct t2 as [|? [|? [|? [|? [|? ?]]]]]; try discriminate H3.
  destruct t3 as [|? [|? [|? [|? [|? ?]]]]]; try discriminate H4.
  destruct s2 as [|? [|? [|? [|? [|? ?]]]]]; try discriminate H5.
  destruct t4 as [|? [|? [|? [|? [|? ?]]]]]; try discriminate H6.
  reflexivity.
Qed.

Lemma struct_unpack_three (t1 s1 t2 : list byte) :
  length t1 = 4%nat → length s1 = 4%nat → length t2 = 4%nat →
  struct_unpack [FI; FI; FI] (t1 ++ s1 ++ t2) =
  Ok [VInt (le_uint t1); VInt (le_uint s1); VInt (le_uint t2)].
Proof.
  intros H1 H2 H3.
  destruct t1 as [|? [|? [|? [|? [|? ?]]]]]; try discriminate H1.
  destruct s1 as [|? [|? [|? [|? [|? ?]]]]]; try discriminate H2.
  destruct t2 as [|? [|? [|? [|? [|? ?]]]]]; try discriminate H3.
  reflexivity.
Qed.

Lemma py_slice_take {A : Type} (l : list A) (m : nat) (a b : Z) :
  0 ≤ a → a ≤ b → b ≤ Z.of_nat m → b ≤ py_len l →
  py_slice (take m l) a b = py_slice l a b.
Proof.
  intros Ha Hab Hm Hb.
  assert (Hl : b ≤ py_len (take m l)).
  { unfold py_len in *. rewrite length_take. lia. }
  rewrite !py_slice_inside by lia.
  rewrite !take_drop_commute, take_take. f_equal. f_equal. lia.
Qed.

Lemma length_sub_chunk_bytes (tag : string) (content : list byte) :
  String.length tag = 4%nat →
  py_len (sub_chunk_bytes tag content) = 8 + py_len content.
Proof.
  intros Htag. unfold sub_chunk_bytes, py_len.
  rewrite !length_app, length_list_byte_of_string, length_le_bytes, Htag. lia.
Qed.

Lemma get_int_nth (vs : list value) (i : nat) (z : Z) :
  vs !! i = Some (VInt z) → get_int vs (Z.of_nat i) = Ok z.
Proof.
  intros H. unfold get_int. rewrite (py_index_lookup _ _ _ H). reflexivity.
Qed.

(** X19. A well-formed file is read end to end.  For a file made of the
    form header, an INFO list that ends, with the eight header bytes of
    the list after it, within the first kilobyte, a sample list and the
    nine record arrays in their order, of less than 4 GiB in all: when the metadata parser returns and each array
    parses, [parse_file] returns the metadata with the nine parsed arrays,
    prints nothing beyond what the metadata parser printed, and leaves the
    file position at the end of the file. *)
Theorem parse_file_well_formed
    (info_body sdta c1 c2 c3 c4 c5 c6 c7 c8 c9 : list byte) (w : world)
    (info : option info_list) (w1 : world)
    (r1 : list PHDRRecord) (r2 : list XBAGRecord) (r3 : list XMODRecord)
    (r4 : list XGENRecord) (r5 : list INSTRecord) (r6 : list XBAGRecord)
    (r7 : list XMODRecord) (r8 : list XGENRecord) (r9 : list SHDRRecord) :
  let file := sf2_image info_body sdta c1 c2 c3 c4 c5 c6 c7 c8 c9 in
  py_len file < 2 ^ 32 →
  24 + py_len info_body + 8 ≤ 1024 →
  parse_info_list_chunk (take 1024 file) 24
    {| stdout := stdout w; fpos := Z.min 1024 (py_len file) |} = (Ok info, w1) →
  parse PHDR c1 (py_len c1) = Ok r1 → parse XBAG c2 (py_len c2) = Ok r2 →
  parse XMOD c3 (py_len c3) = Ok r3 → parse XGEN c4 (py_len c4) = Ok r4 →
  parse INST c5 (py_len c5) = Ok r5 → parse XBAG c6 (py_len c6) = Ok r6 →
  parse XMOD c7 (py_len c7) = Ok r7 → parse XGEN c8 (py_len c8) = Ok r8 →
  parse SHDR c9 (py_len c9) = Ok r9 →
  parse_file file w =
  (Ok (info, {| phdr := r1; pbag := r2; pmod := r3; pgen := r4; inst := r5;
               ibag := r6; imod := r7; igen := r8; shdr := r9 |}),
   {| stdout := stdout w1; fpos := py_len file |}).
Proof.
  intros file. unfold sf2_image, pdta_chunk in file.
  set (k1 := sub_chunk_bytes "phdr" c1) in file.
  set (k2 := sub_chunk_bytes "pbag" c2) in file.
  set (k3 := sub_chunk_bytes "pmod" c3) in file.
  set (k4 := sub_chunk_bytes "pgen" c4) in file.
  set (k5 := sub_chunk_bytes "inst" c5) in file.
  set (k6 := sub_chunk_bytes "ibag" c6) in file.
  set (k7 := sub_chunk_bytes "imod" c7) in file.
  set (k8 := sub_chunk_bytes "igen" c8) in file.
  set (k9 := sub_chunk_bytes "shdr" c9) in file.
  intros small first_kilobyte Hinfo H1 H2 H3 H4 H5 H6 H7 H8 H9.
  set (tRIFF := list_byte_of_string "RIFF").
  set (tsfbk := list_byte_of_string "sfbk").
  set (tLIST := list_byte_of_string "LIST").
  set (tINFO := list_byte_of_string "INFO").
  set (tsdta := list_byte_of_string "sdta").
  set (tpdta := list_byte_of_string "pdta").
  set (body := k1 ++ k2 ++ k3 ++ k4 ++ k5 ++ k6 ++ k7 ++ k8 ++ k9).
  set (n1 := py_len (tINFO ++ info_body)).
  set (n2 := py_len (tsdta ++ sdta)).
  set (n3 := py_len (tpdta ++ body)).
  set (n0 := py_len (tsfbk ++ list_chunk "INFO" info_body
                     ++ list_chunk "sdta" sdta ++ list_chunk "pdta" body)).
  set (hdr := tRIFF ++ le_bytes 4 n0 ++ tsfbk ++ tLIST ++ le_bytes 4 n1 ++ tINFO).
  set (sh := tLIST ++ le_bytes 4 n2).
  set (ph := tLIST ++ le_bytes 4 n3 ++ tpdta).
  assert (Ffile : file = hdr ++ info_body ++ sh ++ (tsdta ++ sdta) ++ ph ++ body).
  { unfold file, hdr, sh, ph, list_chunk, sub_chunk_bytes.
    fold tRIFF tsfbk tLIST tINFO tsdta tpdta body. fold n1 n2 n3.
    rewrite <- !app_assoc. reflexivity. }
  assert (Lt : ∀ tag : string, String.length tag = 4%nat →
                 length (list_byte_of_string tag) = 4%nat).
  { intros tag Htag. rewrite length_list_byte_of_string. exact Htag. }
  assert (Lhdr : py_len hdr = 24).
  { unfold hdr, py_len. rewrite !length_app, !length_le_bytes. reflexivity. }
  assert (Lsh : py_len sh = 8).
  { unfold sh, py_len. rewrite !length_app, !length_le_bytes. reflexivity. }
  assert (Lph : py_len ph = 12).
  { unfold ph, py_len. rewrite !length_app, !length_le_bytes. reflexivity. }
  assert (Ln1 : n1 = 4 + py_len info_body).
  { unfold n1, py_len. rewrite length_app. cbn. lia. }
  assert (Ln2 : n2 = 4 + py_len sdta).
  { unfold n2, py_len. rewrite length_app. cbn. lia. }
  assert (Ln3 : n3 = 4 + py_len body).
  { unfold n3, py_len. rewrite length_app. cbn. lia. }
  assert (Lfile : py_len file = 24 + py_len info_body + 8 + n2 + 12 + py_len body).
  { rewrite Ffile. unfold py_len in *. rewrite !length_app.
    change (length tsdta) with 4%nat. lia. }
  assert (Ln0 : n0 = py_len file - 8).
  { assert (Hf : py_len file = 8 + n0).
    { change file with (tRIFF ++ le_bytes 4 n0
                        ++ (tsfbk ++ list_chunk "INFO" info_body
                            ++ list_chunk "sdta" sdta ++ list_chunk "pdta" body)).
      unfold py_len at 1. rewrite !length_app, length_le_bytes.
      rewrite <- !length_app. fold (py_len (tsfbk ++ list_chunk "INFO" info_body
                            ++ list_chunk "sdta" sdta ++ list_chunk "pdta" body)).
      change (length tRIFF) with 4%nat. unfold n0, py_len. lia. }
    lia. }
  assert (Hpos : 0 ≤ py_len info_body ∧ 0 ≤ py_len sdta ∧ 0 ≤ py_len body)
    by (unfold py_len; lia).
  assert (Hhdr : struct_unpack [FI; FI; FI; FI; FI; FI]
                   (py_slice (take (Z.to_nat 1024) file) 0 24) =
                 Ok [VInt (le_uint tRIFF); VInt n0; VInt (le_uint tsfbk);
                     VInt (le_uint tLIST); VInt n1; VInt (le_uint tINFO)]).
  { rewrite py_slice_take by lia. rewrite Ffile.
    rewrite py_slice_app_l by lia. rewrite <- Lhdr, py_slice_all.
    unfold hdr. rewrite struct_unpack_six by (apply length_le_bytes || reflexivity).
    rewrite !le_uint_le_bytes by lia. reflexivity. }
  assert (Hsh : struct_unpack [FI; FI]
                  (py_slice (take (Z.to_nat 1024) file) (n1 + 20) (n1 + 20 + 8)) =
                Ok [VInt (le_uint tLIST); VInt n2]).
  { rewrite py_slice_take by lia. rewrite Ffile.
    replace (hdr ++ info_body ++ sh ++ (tsdta ++ sdta) ++ ph ++ body)
      with ((hdr ++ info_body) ++ sh ++ ((tsdta ++ sdta) ++ ph ++ body))
      by (rewrite <- !app_assoc; reflexivity).
    assert (Lp : py_len (hdr ++ info_body) = n1 + 20).
    { unfold py_len in *. rewrite length_app. lia. }
    rewrite <- Lp. replace (py_len (hdr ++ info_body)) with (py_len (hdr ++ info_body) + 0) at 1 by lia.
    rewrite py_slice_middle by lia.
    change (Z.to_nat 0) with 0%nat. change (Z.to_nat (8 - 0)) with 8%nat.
    rewrite drop_0, take_ge by (unfold py_len in Lsh; lia).
    unfold sh. rewrite struct_unpack_header by (apply length_le_bytes || reflexivity).
    rewrite le_uint_le_bytes by lia. reflexivity. }
  unfold parse_file.
  erewrite IO_bind_Ok; [|reflexivity]. cbn beta.
  erewrite IO_bind_Ok; [|apply f_read_all; [reflexivity | lia]]. cbn beta.
  cbn [stdout]. rewrite Hhdr.
  erewrite IO_bind_Ok; [|reflexivity]. cbn beta.
  erewrite IO_bind_Ok; [|reflexivity]. cbn beta.
  erewrite IO_bind_Ok; [|apply check_id_match; reflexivity]. cbn beta.
  erewrite IO_bind_Ok; [|reflexivity]. cbn beta.
  erewrite IO_bind_Ok; [|reflexivity]. cbn beta.
  rewrite decide_False by lia.
  erewrite IO_bind_Ok; [|reflexivity]. cbn beta.
  erewrite IO_bind_Ok; [|reflexivity]. cbn beta.
  erewrite IO_bind_Ok; [|apply check_id_match; reflexivity]. cbn beta.
  erewrite IO_bind_Ok; [|reflexivity]. cbn beta.
  erewrite IO_bind_Ok; [|reflexivity]. cbn beta.
  erewrite IO_bind_Ok; [|apply check_id_match; reflexivity]. cbn beta.
  erewrite IO_bind_Ok; [|reflexivity]. cbn beta.
  erewrite IO_bind_Ok; [|reflexivity]. cbn beta.
  erewrite IO_bind_Ok; [|reflexivity]. cbn beta.
  erewrite IO_bind_Ok; [|apply check_id_match; reflexivity]. cbn beta.
  erewrite IO_bind_Ok; [|reflexivity]. cbn beta.
  erewrite IO_bind_Ok; [|exact Hinfo]. cbn beta zeta.
  rewrite Hsh.
  erewrite IO_bind_Ok; [|reflexivity]. cbn beta.
  erewrite IO_bind_Ok; [|reflexivity]. cbn beta.
  erewrite IO_bind_Ok; [|apply check_id_match; reflexivity]. cbn beta.
  erewrite IO_bind_Ok; [|reflexivity]. cbn beta.
  erewrite IO_bind_Ok; [|reflexivity]. cbn beta zeta.
  assert (Hseek : f_seek (n1 + 20 + 8 + n2) w1 =
                  (Ok tt, {| stdout := stdout w1; fpos := n1 + 20 + 8 + n2 |})).
  { unfold f_seek. destruct (Z.ltb_spec (n1 + 20 + 8 + n2) 0); [lia | reflexivity]. }
  erewrite IO_bind_Ok; [|exact Hseek]. cbn beta.
  set (P2 := hdr ++ info_body ++ sh ++ (tsdta ++ sdta)).
  assert (LP2 : py_len P2 = n1 + 20 + 8 + n2).
  { unfold P2, py_len in *. rewrite !length_app.
    change (length tsdta) with 4%nat. lia. }
  assert (Hread : f_read file 12 {| stdout := stdout w1; fpos := n1 + 20 + 8 + n2 |} =
                  (Ok ph, {| stdout := stdout w1; fpos := n1 + 20 + 8 + n2 + 12 |})).
  { rewrite Ffile.
    replace (hdr ++ info_body ++ sh ++ (tsdta ++ sdta) ++ ph ++ body)
      with (P2 ++ ph ++ body) by (unfold P2; rewrite <- !app_assoc; reflexivity).
    rewrite <- Lph. apply f_read_at. cbn [fpos]. symmetry. exact LP2. }
  erewrite IO_bind_Ok; [|exact Hread]. cbn beta.
  unfold ph at 1.
  rewrite struct_unpack_three by (apply length_le_bytes || reflexivity).
  erewrite IO_bind_Ok; [|reflexivity]. cbn beta.
  erewrite IO_bind_Ok; [|reflexivity]. cbn beta.
  erewrite IO_bind_Ok; [|apply check_id_match; reflexivity]. cbn beta.
  erewrite IO_bind_Ok; [|reflexivity]. cbn beta.
  erewrite IO_bind_Ok; [|reflexivity]. cbn beta.
  erewrite IO_bind_Ok; [|apply check_id_match; reflexivity]. cbn beta.
  erewrite IO_bind_Ok; [|reflexivity]. cbn beta.
  set (P3 := P2 ++ ph).
  assert (LP3 : py_len P3 = n1 + 20 + 8 + n2 + 12).
  { unfold P3, py_len in *. rewrite length_app. lia. }
  assert (Lk1 : py_len k1 = 8 + py_len c1)
    by (apply length_sub_chunk_bytes; reflexivity).
  assert (Lk2 : py_len k2 = 8 + py_len c2)
    by (apply length_sub_chunk_bytes; reflexivity).
  assert (Lk3 : py_len k3 = 8 + py_len c3)
    by (apply length_sub_chunk_bytes; reflexivity).
  assert (Lk4 : py_len k4 = 8 + py_len c4)
    by (apply length_sub_chunk_bytes; reflexivity).
  assert (Lk5 : py_len k5 = 8 + py_len c5)
    by (apply length_sub_chunk_bytes; reflexivity).
  assert (Lk6 : py_len k6 = 8 + py_len c6)
    by (apply length_sub_chunk_bytes; reflexivity).
  assert (Lk7 : py_len k7 = 8 + py_len c7)
    by (apply length_sub_chunk_bytes; reflexivity).
  assert (Lk8 : py_len k8 = 8 + py_len c8)
    by (apply length_sub_chunk_bytes; reflexivity).
  assert (Lk9 : py_len k9 = 8 + py_len c9)
    by (apply length_sub_chunk_bytes; reflexivity).
  assert (Lbody : py_len body = py_len k1 + py_len k2 + py_len k3 + py_len k4
                                + py_len k5 + py_len k6 + py_len k7 + py_len k8
                                + py_len k9).
  { unfold body, py_len. rewrite !length_app. lia. }
  assert (Hc : 0 ≤ py_len c1 ∧ 0 ≤ py_len c2 ∧ 0 ≤ py_len c3 ∧ 0 ≤ py_len c4
               ∧ 0 ≤ py_len c5 ∧ 0 ≤ py_len c6 ∧ 0 ≤ py_len c7 ∧ 0 ≤ py_len c8
               ∧ 0 ≤ py_len c9) by (unfold py_len; lia).
  assert (F1 : file = (P3) ++ sub_chunk_bytes "phdr" c1 ++ (k2 ++ k3 ++ k4 ++ k5 ++ k6 ++ k7 ++ k8 ++ k9)).
  { rewrite Ffile. unfold P3, P2, body. fold k1.
    rewrite <- ?app_assoc, ?app_nil_r. reflexivity. }
  assert (F2 : file = (P3 ++ k1) ++ sub_chunk_bytes "pbag" c2 ++ (k3 ++ k4 ++ k5 ++ k6 ++ k7 ++ k8 ++ k9)).
  { rewrite Ffile. unfold P3, P2, body. fold k2.
    rewrite <- ?app_assoc, ?app_nil_r. reflexivity. }
  assert (F3 : file = (P3 ++ k1 ++ k2) ++ sub_chunk_bytes "pmod" c3 ++ (k4 ++ k5 ++ k6 ++ k7 ++ k8 ++ k9)).
  { rewrite Ffile. unfold P3, P2, body. fold k3.
    rewrite <- ?app_assoc, ?app_nil_r. reflexivity. }
  assert (F4 : file = (P3 ++ k1 ++ k2 ++ k3) ++ sub_chunk_bytes "pgen" c4 ++ (k5 ++ k6 ++ k7 ++ k8 ++ k9)).
  { rewrite Ffile. unfold P3, P2, body. fold k4.
    rewrite <- ?app_assoc, ?app_nil_r. reflexivity. }
  assert (F5 : file = (P3 ++ k1 ++ k2 ++ k3 ++ k4) ++ sub_chunk_bytes "inst" c5 ++ (k6 ++ k7 ++ k8 ++ k9)).
  { rewrite Ffile. unfold P3, P2, body. fold k5.
    rewrite <- ?app_assoc, ?app_nil_r. reflexivity. }
  assert (F6 : file = (P3 ++ k1 ++ k2 ++ k3 ++ k4 ++ k5) ++ sub_chunk_bytes "ibag" c6 ++ (k7 ++ k8 ++ k9)).
  { rewrite Ffile. unfold P3, P2, body. fold k6.
    rewrite <- ?app_assoc, ?app_nil_r. reflexivity. }
  assert (F7 : file = (P3 ++ k1 ++ k2 ++ k3 ++ k4 ++ k5 ++ k6) ++ sub_chunk_bytes "imod" c7 ++ (k8 ++ k9)).
  { rewrite Ffile. unfold P3, P2, body. fold k7.
    rewrite <- ?app_assoc, ?app_nil_r. reflexivity. }
  assert (F8 : file = (P3 ++ k1 ++ k2 ++ k3 ++ k4 ++ k5 ++ k6 ++ k7) ++ sub_chunk_bytes "igen" c8 ++ (k9)).
  { rewrite Ffile. unfold P3, P2, body. fold k8.
    rewrite <- ?app_assoc, ?app_nil_r. reflexivity. }
  assert (F9 : file = (P3 ++ k1 ++ k2 ++ k3 ++ k4 ++ k5 ++ k6 ++ k7 ++ k8) ++ sub_chunk_bytes "shdr" c9 ++ ([])).
  { rewrite Ffile. unfold P3, P2, body. fold k9.
    rewrite <- ?app_assoc, ?app_nil_r. reflexivity. }
  erewrite IO_bind_Ok; last first.
  { rewrite F1. rewrite parse_chunk_found;
      [rewrite H1; reflexivity
      | cbn [fpos]; unfold py_len in *; rewrite ?length_app; lia
      | reflexivity
      | lia]. }
  cbn beta. cbn [stdout fpos].
  erewrite IO_bind_Ok; last first.
  { rewrite F2. rewrite parse_chunk_found;
      [rewrite H2; reflexivity
      | cbn [fpos]; unfold py_len in *; rewrite ?length_app; lia
      | reflexivity
      | lia]. }
  cbn beta. cbn [stdout fpos].
  erewrite IO_bind_Ok; last first.
  { rewrite F3. rewrite parse_chunk_found;
      [rewrite H3; reflexivity
      | cbn [fpos]; unfold py_len in *; rewrite ?length_app; lia
      | reflexivity
      | lia]. }
  cbn beta. cbn [stdout fpos].
  erewrite IO_bind_Ok; last first.
  { rewrite F4. rewrite parse_chunk_found;
      [rewrite H4; reflexivity
      | cbn [fpos]; unfold py_len in *; rewrite ?length_app; lia
      | reflexivity
      | lia]. }
  cbn beta. cbn [stdout fpos].
  erewrite IO_bind_Ok; last first.
  { rewrite F5. rewrite parse_chunk_found;
      [rewrite H5; reflexivity
      | cbn [fpos]; unfold py_len in *; rewrite ?length_app; lia
      | reflexivity
      | lia]. }
  cbn beta. cbn [stdout fpos].
  erewrite IO_bind_Ok; last first.
  { rewrite F6. rewrite parse_chunk_found;
      [rewrite H6; reflexivity
      | cbn [fpos]; unfold py_len in *; rewrite ?length_app; lia
      | reflexivity
      | lia]. }
  cbn beta. cbn [stdout fpos].
  erewrite IO_bind_Ok; last first.
  { rewrite F7. rewrite parse_chunk_found;
      [rewrite H7; reflexivity
      | cbn [fpos]; unfold py_len in *; rewrite ?length_app; lia
      | reflexivity
      | lia]. }
  cbn beta. cbn [stdout fpos].
  erewrite IO_bind_Ok; last first.
  { rewrite F8. rewrite parse_chunk_found;
      [rewrite H8; reflexivity
      | cbn [fpos]; unfold py_len in *; rewrite ?length_app; lia
      | reflexivity
      | lia]. }
  cbn beta. cbn [stdout fpos].
  erewrite IO_bind_Ok; last first.
  { rewrite F9. rewrite parse_chunk_found;
      [rewrite H9; reflexivity
      | cbn [fpos]; unfold py_len in *; rewrite ?length_app; lia
      | reflexivity
      | lia]. }
  cbn beta. cbn [stdout fpos].
  unfold mret, IO_ret. do 2 f_equal. lia.
Qed.

Lemma parse_file_well_formed_witness :
  parse_file
    (sf2_image
       (sub_chunk_bytes "ifil" [x02; x00; x01; x00]
        ++ sub_chunk_bytes "isng" (list_byte_of_string "EMU8000" ++ [x00])
        ++ sub_chunk_bytes "INAM" (list_byte_of_string "Bank" ++ [x00; x00]))
       [x01; x02] (replicate 76 x00) [x03; x00; x00; x00; x00; x00; x00; x00]
       [] [] [] [] [] [] [])
    world0 =
  (Ok (Some [("Version"%string, lit "2.1");
             ("Target Sound Engine"%string, lit "EMU8000");
             ("Sound Font Bank Name"%string, lit "Bank")],
       {| phdr := [ {| preset_name := []; preset := 0; bank := 0; bag_ndx := 0 |} ];
          pbag := [ {| gen_ndx := 3; mod_ndx := 0 |} ];
          pmod := []; pgen := []; inst := []; ibag := []; imod := [];
          igen := []; shdr := [] |}),
   {| stdout := []; fpos := 248 |}).
Proof.
  apply (parse_file_well_formed
           (sub_chunk_bytes "ifil" [x02; x00; x01; x00]
            ++ sub_chunk_bytes "isng" (list_byte_of_string "EMU8000" ++ [x00])
            ++ sub_chunk_bytes "INAM" (list_byte_of_string "Bank" ++ [x00; x00]))
           [x01; x02] (replicate 76 x00) [x03; x00; x00; x00; x00; x00; x00; x00]
           [] [] [] [] [] [] [] world0
           (Some [("Version"%string, lit "2.1");
                  ("Target Sound Engine"%string, lit "EMU8000");
                  ("Sound Font Bank Name"%string, lit "Bank")])
           {| stdout := []; fpos := 248 |});
    [vm_compute; reflexivity | vm_compute; discriminate | vm_compute; reflexivity ..].
Defined.

(** ** The exceptions of the record array decoder *)

Lemma decode_utf8_vals_Raise (l : list Z) (e : exn) :
  decode_utf8_vals l = Raise e → e = UnicodeDecodeError.
Proof.
  assert (H : ∀ (n : nat) (l : list Z), (length l ≤ n)%nat →
                decode_utf8_vals l = Raise e → e = UnicodeDecodeError).
  { clear l. induction n as [|n IH]; intros l Hl.
    - destruct l; [discriminate | cbn in Hl; lia].
    - destruct l as [|b0 t0]; [discriminate|].
      cbn [decode_utf8_vals]. cbn [length] in Hl.
      repeat (match goal with
              | |- context [match ?t with [] => _ | _ :: _ => _ end] =>
                  destruct t; cbn [length] in Hl
              | |- context [if ?c then _ else _] => destruct c
              end; cbv beta iota);
        try (intros [= <-]; reflexivity);
        intros H; apply bind_Raise_inv in H as [H|(s & _ & H)];
        try discriminate;
        (eapply IH; [|exact H]; cbn [length]; lia). }
  apply (H (length l) l). lia.
Qed.

Lemma decode_name_Raise (bs : list byte) (e : exn) :
  decode_name bs = Raise e → e = UnicodeDecodeError.
Proof.
  unfold decode_name. intros H.
  apply bind_Raise_inv in H as [H|(s & _ & H)]; [|discriminate].
  exact (decode_utf8_vals_Raise _ _ H).
Qed.

Section ParseFailures.
Context {R : Type} (C : rec_class R).
Variable P : exn → Prop.
Hypothesis P_struct : P StructError.
Hypothesis P_init : ∀ bs e, init C (unpack_items (format C) bs) = Raise e → P e.

Lemma _parse_record_Raise (data : list byte) (cp : Z) (e : exn) :
  _parse_record C data cp = Raise e → P e.
Proof.
  unfold _parse_record, struct_unpack.
  destruct (decide _); cbn.
  - apply P_init.
  - intros [= <-]. exact P_struct.
Qed.

Lemma parse_Raise (data : list byte) (size : Z) (e : exn) :
  rec_size C ≠ 0 → parse C data size = Raise e → P e.
Proof.
  intros HW. rewrite parse_offsets by exact HW. intros H.
  apply mapM_result_Raise in H as (cp & _ & H).
  exact (_parse_record_Raise _ _ _ H).
Qed.
End ParseFailures.

Lemma parse_outcomes {R : Type} (C : rec_class R) (P : exn → Prop)
    (data : list byte) (size : Z) :
  P StructError →
  (∀ bs e, init C (unpack_items (format C) bs) = Raise e → P e) →
  rec_size C ≠ 0 →
  (∃ recs, parse C data size = Ok recs) ∨ (∃ e, parse C data size = Raise e ∧ P e).
Proof.
  intros H1 H2 HW. destruct (parse C data size) as [recs|e] eqn:E; [eauto|].
  right. exists e. split; [reflexivity|]. exact (parse_Raise C P H1 H2 data size e HW E).
Qed.

(** X20. For a size a chunk header can hold (from 0 to below 2^32), the
    record array decoder fails in two ways only.  On the arrays whose
    records are numbers only (zones, modulators, generators) [parse]
    returns a list or raises the error of [struct.unpack]; on the arrays
    whose records carry a name (preset headers, instruments, sample
    headers) it returns a list or raises the error of [struct.unpack] or
    [UnicodeDecodeError]. No data and no such size make it divide by zero
    or call a constructor with the wrong number of fields. *)
Theorem parse_raises_only (data : list byte) (size : Z) :
  0 ≤ size < 2 ^ 32 →
  ((∃ recs, parse XBAG data size = Ok recs) ∨ parse XBAG data size = Raise StructError)
  ∧ ((∃ recs, parse XMOD data size = Ok recs) ∨ parse XMOD data size = Raise StructError)
  ∧ ((∃ recs, parse XGEN data size = Ok recs) ∨ parse XGEN data size = Raise StructError)
  ∧ ((∃ recs, parse PHDR data size = Ok recs)
     ∨ parse PHDR data size = Raise StructError
     ∨ parse PHDR data size = Raise UnicodeDecodeError)
  ∧ ((∃ recs, parse INST data size = Ok recs)
     ∨ parse INST data size = Raise StructError
     ∨ parse INST data size = Raise UnicodeDecodeError)
  ∧ ((∃ recs, parse SHDR data size = Ok recs)
     ∨ parse SHDR data size = Raise StructError
     ∨ parse SHDR data size = Raise UnicodeDecodeError).
Proof.
  intros _. repeat split.
  - destruct (parse_outcomes XBAG (λ e, e = StructError) data size)
      as [H|(e & H & ->)]; [reflexivity | | discriminate | left; exact H | right; exact H].
    intros bs e. cbn. discriminate.
  - destruct (parse_outcomes XMOD (λ e, e = StructError) data size)
      as [H|(e & H & ->)]; [reflexivity | | discriminate | left; exact H | right; exact H].
    intros bs e. cbn. discriminate.
  - destruct (parse_outcomes XGEN (λ e, e = StructError) data size)
      as [H|(e & H & ->)]; [reflexivity | | discriminate | left; exact H | right; exact H].
    intros bs e. cbn. discriminate.
  - destruct (parse_outcomes PHDR (λ e, e = StructError ∨ e = UnicodeDecodeError)
                data size)
      as [H|(e & H & [->| ->])];
      [left; reflexivity | | discriminate | left; exact H
       | right; left; exact H | right; right; exact H].
    intros bs e. cbn [PHDR format init unpack_items unpack_item item_size].
    intros He. apply bind_Raise_inv in He as [He|(s & _ & He)]; [|discriminate].
    right. exact (decode_name_Raise _ _ He).
  - destruct (parse_outcomes INST (λ e, e = StructError ∨ e = UnicodeDecodeError)
                data size)
      as [H|(e & H & [->| ->])];
      [left; reflexivity | | discriminate | left; exact H
       | right; left; exact H | right; right; exact H].
    intros bs e. cbn [INST format init unpack_items unpack_item item_size].
    intros He. apply bind_Raise_inv in He as [He|(s & _ & He)]; [|discriminate].
    right. exact (decode_name_Raise _ _ He).
  - destruct (parse_outcomes SHDR (λ e, e = StructError ∨ e = UnicodeDecodeError)
                data size)
      as [H|(e & H & [->| ->])];
      [left; reflexivity | | discriminate | left; exact H
       | right; left; exact H | right; right; exact H].
    intros bs e. cbn [SHDR format init unpack_items unpack_item item_size].
    intros He. apply bind_Raise_inv in He as [He|(s & _ & He)]; [|discriminate].
    right. exact (decode_name_Raise _ _ He).
Qed.

Lemma parse_raises_only_witness :
  ((∃ recs, parse XBAG [x01; x00; x02; x00; x05; x00] 16 = Ok recs)
   ∨ parse XBAG [x01; x00; x02; x00; x05; x00] 16 = Raise StructError)
  ∧ ((∃ recs, parse PHDR (xe9 :: replicate 75 x00) 76 = Ok recs)
     ∨ parse PHDR (xe9 :: replicate 75 x00) 76 = Raise StructError
     ∨ parse PHDR (xe9 :: replicate 75 x00) 76 = Raise UnicodeDecodeError).
Proof.
  split.
  - destruct (parse_raises_only [x01; x00; x02; x00; x05; x00] 16) as (H & _);
      [lia | exact H].
  - destruct (parse_raises_only (xe9 :: replicate 75 x00) 76)
      as (_ & _ & _ & H & _); [lia | exact H].
Defined.

(** ** Names that are not UTF-8 *)

Lemma take_py_slice {A : Type} (l : list A) (cp W : Z) (k : nat) :
  0 ≤ cp → Z.of_nat k ≤ W → cp + W ≤ py_len l →
  take k (py_slice l cp (cp + W)) = py_slice l cp (cp + Z.of_nat k).
Proof.
  intros Hcp Hk Hl. rewrite !py_slice_inside by lia.
  rewrite take_take. f_equal. lia.
Qed.

Section NamedClass.
Context {R : Type} (C : rec_class R).
Hypothesis wide : 20 ≤ rec_size C.
Hypothesis named : ∀ bs, py_len bs = rec_size C →
  match decode_utf8 (take 20 bs) with
  | Ok _ => ∃ r, decode_record C bs = Ok r
  | Raise _ => decode_record C bs = Raise UnicodeDecodeError
  end.

Lemma _parse_record_named (data : list byte) (cp : Z) :
  0 ≤ cp → cp + rec_size C ≤ py_len data →
  if name_ok data cp then ∃ r, _parse_record C data cp = Ok r
  else _parse_record C data cp = Raise UnicodeDecodeError.
Proof.
  intros Hcp Hfit.
  pose proof (named (py_slice data cp (cp + rec_size C))) as H.
  rewrite py_slice_length in H by lia.
  specialize (H ltac:(lia)).
  rewrite (take_py_slice data cp (rec_size C) 20) in H by lia.
  unfold name_ok. change (Z.of_nat 20) with 20 in H.
  destruct (decode_utf8 (py_slice data cp (cp + 20))); exact H.
Qed.

Lemma mapM_named (data : list byte) (l : list Z) :
  Forall (λ cp, 0 ≤ cp ∧ cp + rec_size C ≤ py_len data) l →
  if forallb (name_ok data) l
  then ∃ recs, mapM_result (_parse_record C data) l = Ok recs
  else mapM_result (_parse_record C data) l = Raise UnicodeDecodeError.
Proof.
  induction 1 as [|cp l [Hcp Hfit] _ IH]; cbn [forallb mapM_result]; [eauto|].
  pose proof (_parse_record_named data cp Hcp Hfit) as H.
  destruct (name_ok data cp); cbn [andb].
  - destruct H as (r & ->). rewrite bind_Ok.
    destruct (forallb (name_ok data) l).
    + destruct IH as (recs & ->). eauto.
    + rewrite IH. reflexivity.
  - rewrite H. reflexivity.
Qed.

Lemma parse_named (data : list byte) (size : Z) :
  0 ≤ size → (size / rec_size C - 1) * rec_size C ≤ py_len data →
  if names_ok (rec_size C) (size / rec_size C - 1) data
  then ∃ recs, parse C data size = Ok recs
  else parse C data size = Raise UnicodeDecodeError.
Proof.
  intros Hsize Hfit. rewrite parse_offsets by lia.
  rewrite total_recs_div by lia. unfold names_ok.
  apply mapM_named. unfold record_offsets.
  apply Forall_fmap, Forall_forall. intros i Hi.
  apply elem_of_seqZ in Hi. cbn. nia.
Qed.
End NamedClass.

Lemma PHDR_named (bs : list byte) :
  py_len bs = rec_size PHDR →
  match decode_utf8 (take 20 bs) with
  | Ok _ => ∃ r, decode_record PHDR bs = Ok r
  | Raise _ => decode_record PHDR bs = Raise UnicodeDecodeError
  end.
Proof.
  intros H. unfold decode_record, struct_unpack.
  rewrite decide_True by exact H.
  cbn [PHDR format init unpack_items unpack_item item_size]. rewrite bind_Ok.
  unfold decode_name.
  destruct (decode_utf8 (take 20 bs)) as [s|e] eqn:E; cbn; [eauto|].
  rewrite (decode_utf8_vals_Raise _ _ E). reflexivity.
Qed.

Lemma INST_named (bs : list byte) :
  py_len bs = rec_size INST →
  match decode_utf8 (take 20 bs) with
  | Ok _ => ∃ r, decode_record INST bs = Ok r
  | Raise _ => decode_record INST bs = Raise UnicodeDecodeError
  end.
Proof.
  intros H. unfold decode_record, struct_unpack.
  rewrite decide_True by exact H.
  cbn [INST format init unpack_items unpack_item item_size]. rewrite bind_Ok.
  unfold decode_name.
  destruct (decode_utf8 (take 20 bs)) as [s|e] eqn:E; cbn; [eauto|].
  rewrite (decode_utf8_vals_Raise _ _ E). reflexivity.
Qed.

Lemma SHDR_named (bs : list byte) :
  py_len bs = rec_size SHDR →
  match decode_utf8 (take 20 bs) with
  | Ok _ => ∃ r, decode_record SHDR bs = Ok r
  | Raise _ => decode_record SHDR bs = Raise UnicodeDecodeError
  end.
Proof.
  intros H. unfold decode_record, struct_unpack.
  rewrite decide_True by exact H.
  cbn [SHDR format init unpack_items unpack_item item_size]. rewrite bind_Ok.
  unfold decode_name.
  destruct (decode_utf8 (take 20 bs)) as [s|e] eqn:E; cbn; [eauto|].
  rewrite (decode_utf8_vals_Raise _ _ E). reflexivity.
Qed.

(** X21. When the data holds all the records the declared size announces,
    the arrays with names decode exactly when every counted name is
    UTF-8: [parse] on preset headers (38 bytes a record), instruments (22)
    and sample headers (46) returns a list when the first 20 bytes of
    each counted record decode, and raises [UnicodeDecodeError]
    otherwise, a single name in another encoding being enough. *)
Theorem parse_names (data : list byte) (size : Z) :
  0 ≤ size →
  ((size / 38 - 1) * 38 ≤ py_len data →
   if names_ok 38 (size / 38 - 1) data
   then ∃ recs, parse PHDR data size = Ok recs
   else parse PHDR data size = Raise UnicodeDecodeError)
  ∧ ((size / 22 - 1) * 22 ≤ py_len data →
     if names_ok 22 (size / 22 - 1) data
     then ∃ recs, parse INST data size = Ok recs
     else parse INST data size = Raise UnicodeDecodeError)
  ∧ ((size / 46 - 1) * 46 ≤ py_len data →
     if names_ok 46 (size / 46 - 1) data
     then ∃ recs, parse SHDR data size = Ok recs
     else parse SHDR data size = Raise UnicodeDecodeError).
Proof.
  intros Hsize. split; [|split]; intros Hfit.
  - apply (parse_named PHDR); [reflexivity || (cbv; discriminate) | exact PHDR_named | exact Hsize | exact Hfit].
  - apply (parse_named INST); [reflexivity || (cbv; discriminate) | exact INST_named | exact Hsize | exact Hfit].
  - apply (parse_named SHDR); [reflexivity || (cbv; discriminate) | exact SHDR_named | exact Hsize | exact Hfit].
Qed.

Lemma parse_names_witness :
  parse PHDR (xe9 :: replicate 75 x00) 76 = Raise UnicodeDecodeError
  ∧ ∃ recs, parse INST (x53 :: x61 :: x77 :: replicate 41 x00) 44 = Ok recs.
Proof.
  split.
  - destruct (parse_names (xe9 :: replicate 75 x00) 76) as (H & _ & _);
      [vm_compute; discriminate|].
    apply H. vm_compute. discriminate.
  - destruct (parse_names (x53 :: x61 :: x77 :: replicate 41 x00) 44) as (_ & H & _);
      [vm_compute; discriminate|].
    apply H. vm_compute. discriminate.
Defined.

(** ** Metadata beyond the first kilobyte *)

Lemma py_slice_short {A : Type} (l : list A) (a b : Z) :
  0 ≤ a → a < b → py_len l < b → py_len (py_slice l a b) < b - a.
Proof.
  intros Ha Hab Hb. assert (0 ≤ py_len l) by (unfold py_len; lia).
  unfold py_slice, clamp.
  destruct (Z.ltb_spec a 0); [lia|]. destruct (Z.ltb_spec b 0); [lia|].
  rewrite (Z.min_r b) by lia.
  unfold py_len in *. rewrite length_take, length_drop. lia.
Qed.

(** X22. Only the first kilobyte of the file is searched for the list that
    follows the metadata.  On a file with the layout of the format whose
    INFO list does not end, with the eight header bytes of the sample
    list, within the first 1024 bytes, [parse_file] never returns: it
    raises what the metadata parser raises, and when that parser returns
    it raises the error of [struct.unpack] on the header of the sample
    list, having read the first kilobyte only. *)
Theorem parse_file_large_info
    (info_body sdta c1 c2 c3 c4 c5 c6 c7 c8 c9 : list byte) (w : world) :
  let file := sf2_image info_body sdta c1 c2 c3 c4 c5 c6 c7 c8 c9 in
  py_len file < 2 ^ 32 →
  1024 < 24 + py_len info_body + 8 →
  parse_file file w =
  match parse_info_list_chunk (take 1024 file) 24
          {| stdout := stdout w; fpos := 1024 |} with
  | (Ok _, w1) => (Raise StructError, w1)
  | (Raise e, w1) => (Raise e, w1)
  end.
Proof.
  intros file. unfold sf2_image, pdta_chunk in file.
  set (k1 := sub_chunk_bytes "phdr" c1) in file.
  set (k2 := sub_chunk_bytes "pbag" c2) in file.
  set (k3 := sub_chunk_bytes "pmod" c3) in file.
  set (k4 := sub_chunk_bytes "pgen" c4) in file.
  set (k5 := sub_chunk_bytes "inst" c5) in file.
  set (k6 := sub_chunk_bytes "ibag" c6) in file.
  set (k7 := sub_chunk_bytes "imod" c7) in file.
  set (k8 := sub_chunk_bytes "igen" c8) in file.
  set (k9 := sub_chunk_bytes "shdr" c9) in file.
  intros small beyond.
  set (tRIFF := list_byte_of_string "RIFF").
  set (tsfbk := list_byte_of_string "sfbk").
  set (tLIST := list_byte_of_string "LIST").
  set (tINFO := list_byte_of_string "INFO").
  set (tsdta := list_byte_of_string "sdta").
  set (tpdta := list_byte_of_string "pdta").
  set (body := k1 ++ k2 ++ k3 ++ k4 ++ k5 ++ k6 ++ k7 ++ k8 ++ k9).
  set (n1 := py_len (tINFO ++ info_body)).
  set (n2 := py_len (tsdta ++ sdta)).
  set (n3 := py_len (tpdta ++ body)).
  set (n0 := py_len (tsfbk ++ list_chunk "INFO" info_body
                     ++ list_chunk "sdta" sdta ++ list_chunk "pdta" body)).
  set (hdr := tRIFF ++ le_bytes 4 n0 ++ tsfbk ++ tLIST ++ le_bytes 4 n1 ++ tINFO).
  set (sh := tLIST ++ le_bytes 4 n2).
  set (ph := tLIST ++ le_bytes 4 n3 ++ tpdta).
  assert (Ffile : file = hdr ++ info_body ++ sh ++ (tsdta ++ sdta) ++ ph ++ body).
  { unfold file, hdr, sh, ph, list_chunk, sub_chunk_bytes.
    fold tRIFF tsfbk tLIST tINFO tsdta tpdta body. fold n1 n2 n3.
    rewrite <- !app_assoc. reflexivity. }
  assert (Lt : ∀ tag : string, String.length tag = 4%nat →
                 length (list_byte_of_string tag) = 4%nat).
  { intros tag Htag. rewrite length_list_byte_of_string. exact Htag. }
  assert (Lhdr : py_len hdr = 24).
  { unfold hdr, py_len. rewrite !length_app, !length_le_bytes. reflexivity. }
  assert (Lsh : py_len sh = 8).
  { unfold sh, py_len. rewrite !length_app, !length_le_bytes. reflexivity. }
  assert (Lph : py_len ph = 12).
  { unfold ph, py_len. rewrite !length_app, !length_le_bytes. reflexivity. }
  assert (Ln1 : n1 = 4 + py_len info_body).
  { unfold n1, py_len. rewrite length_app. cbn. lia. }
  assert (Ln2 : n2 = 4 + py_len sdta).
  { unfold n2, py_len. rewrite length_app. cbn. lia. }
  assert (Ln3 : n3 = 4 + py_len body).
  { unfold n3, py_len. rewrite length_app. cbn. lia. }
  assert (Lfile : py_len file = 24 + py_len info_body + 8 + n2 + 12 + py_len body).
  { rewrite Ffile. unfold py_len in *. rewrite !length_app.
    change (length tsdta) with 4%nat. lia. }
  assert (Ln0 : n0 = py_len file - 8).
  { assert (Hf : py_len file = 8 + n0).
    { change file with (tRIFF ++ le_bytes 4 n0
                        ++ (tsfbk ++ list_chunk "INFO" info_body
                            ++ list_chunk "sdta" sdta ++ list_chunk "pdta" body)).
      unfold py_len at 1. rewrite !length_app, length_le_bytes.
      rewrite <- !length_app. fold (py_len (tsfbk ++ list_chunk "INFO" info_body
                            ++ list_chunk "sdta" sdta ++ list_chunk "pdta" body)).
      change (length tRIFF) with 4%nat. unfold n0, py_len. lia. }
    lia. }
  assert (Hpos : 0 ≤ py_len info_body ∧ 0 ≤ py_len sdta ∧ 0 ≤ py_len body)
    by (unfold py_len; lia).
  assert (Hhdr : struct_unpack [FI; FI; FI; FI; FI; FI]
                   (py_slice (take (Z.to_nat 1024) file) 0 24) =
                 Ok [VInt (le_uint tRIFF); VInt n0; VInt (le_uint tsfbk);
                     VInt (le_uint tLIST); VInt n1; VInt (le_uint tINFO)]).
  { rewrite py_slice_take by lia. rewrite Ffile.
    rewrite py_slice_app_l by lia. rewrite <- Lhdr, py_slice_all.
    unfold hdr. rewrite struct_unpack_six by (apply length_le_bytes || reflexivity).
    rewrite !le_uint_le_bytes by lia. reflexivity. }
  unfold parse_file.
  erewrite IO_bind_Ok; [|reflexivity]. cbn beta.
  erewrite IO_bind_Ok; [|apply f_read_all; [reflexivity | lia]]. cbn beta.
  cbn [stdout]. rewrite Hhdr.
  erewrite IO_bind_Ok; [|reflexivity]. cbn beta.
  erewrite IO_bind_Ok; [|reflexivity]. cbn beta.
  erewrite IO_bind_Ok; [|apply check_id_match; reflexivity]. cbn beta.
  erewrite IO_bind_Ok; [|reflexivity]. cbn beta.
  erewrite IO_bind_Ok; [|reflexivity]. cbn beta.
  rewrite decide_False by lia.
  erewrite IO_bind_Ok; [|reflexivity]. cbn beta.
  erewrite IO_bind_Ok; [|reflexivity]. cbn beta.
  erewrite IO_bind_Ok; [|apply check_id_match; reflexivity]. cbn beta.
  erewrite IO_bind_Ok; [|reflexivity]. cbn beta.
  erewrite IO_bind_Ok; [|reflexivity]. cbn beta.
  erewrite IO_bind_Ok; [|apply check_id_match; reflexivity]. cbn beta.
  erewrite IO_bind_Ok; [|reflexivity]. cbn beta.
  erewrite IO_bind_Ok; [|reflexivity]. cbn beta.
  erewrite IO_bind_Ok; [|reflexivity]. cbn beta.
  erewrite IO_bind_Ok; [|apply check_id_match; reflexivity]. cbn beta.
  erewrite IO_bind_Ok; [|reflexivity]. cbn beta.
  rewrite (Z.min_l 1024) by lia.
  destruct (parse_info_list_chunk _ _ _) as [[info|e] w1] eqn:Hinfo.
  - erewrite IO_bind_Ok; [|exact Hinfo]. cbn beta zeta.
    unfold struct_unpack. rewrite decide_False; [reflexivity|].
    assert (Hl : py_len (take (Z.to_nat 1024) file) = 1024).
    { unfold py_len in *. rewrite length_take. lia. }
    pose proof (py_slice_short (take (Z.to_nat 1024) file) (n1 + 20) (n1 + 20 + 8)
                  ltac:(lia) ltac:(lia) ltac:(lia)) as Hs.
    change (calcsize [FI; FI]) with 8. lia.
  - apply IO_bind_Raise. exact Hinfo.
Qed.

Lemma parse_file_large_info_witness :
  parse_file
    (sf2_image
       (sub_chunk_bytes "ifil" [x02; x00; x01; x00]
        ++ sub_chunk_bytes "isng" (list_byte_of_string "EMU8000" ++ [x00])
        ++ sub_chunk_bytes "INAM" (list_byte_of_string "Bank" ++ [x00; x00])
        ++ sub_chunk_bytes "ISFT" (list_byte_of_string "Tool" ++ [x00; x00])
        ++ sub_chunk_bytes "ICMT" (replicate 1000 x00))
       [] [] [] [] [] [] [] [] [] [])
    world0 =
  (Raise StructError, {| stdout := []; fpos := 1024 |})
  ∧ parse_file
      (sf2_image
         (sub_chunk_bytes "ifil" [x02; x00; x01; x00]
          ++ sub_chunk_bytes "isng" (list_byte_of_string "EMU8000" ++ [x00])
          ++ sub_chunk_bytes "INAM" (list_byte_of_string "Bank" ++ [x00; x00])
          ++ sub_chunk_bytes "ICMT" (replicate 1000 x41))
         [] [] [] [] [] [] [] [] [] [])
      world0 =
    (Raise IndexError, {| stdout := []; fpos := 1024 |}).
Proof.
  split.
  - refine (eq_trans (parse_file_large_info _ _ _ _ _ _ _ _ _ _ _ world0 _ _) _);
      [vm_compute; reflexivity | vm_compute; reflexivity | vm_compute; reflexivity].
  - refine (eq_trans (parse_file_large_info _ _ _ _ _ _ _ _ _ _ _ world0 _ _) _);
      [vm_compute; reflexivity | vm_compute; reflexivity | vm_compute; reflexivity].
Defined.
